(** * The configuration-transform engine of ai-cli-toolkit

    A shallow embedding of [app/mcp-servers.config.js], [app/setup-mcp.js]
    and [commands/convert-commands.js]: the catalog of MCP servers and its
    per-client projectors, token validation and substitution, the merge of a
    projected configuration into an existing client file, and the loader of
    command documents.

    JavaScript values are modelled as follows.
    - A string is a [string]: a sequence of code units below 256.
    - A JSON-shaped value is a [json] tree; numbers are the integers.
    - An ordinary object is the list of its own enumerable properties in the
      order [Object.entries] and [JSON.stringify] enumerate them ([props]).
    - A property read also consults [Object.prototype] ([js_get]), and so
      does an assignment to [__proto__] ([js_set]).
    - A client file is its text: [fs.readJson] is [JSON.parse] and
      [fs.writeJson] is [JSON.stringify] with an indentation of two spaces.
    - A call that can throw returns a [result]. *)

From Stdlib Require Import String Ascii List ZArith NArith Bool Arith Lia.
From Stdlib Require Import DecimalString DecimalZ DecimalPos Permutation.
Import ListNotations.
Local Open Scope string_scope.
Local Open Scope list_scope.

(** ** Outcomes of calls that may throw *)

Inductive exn : Type :=
| SyntaxError
| TypeError
| Error (message : string).

(** [Unmodelled] marks the inputs on which this development does not follow
    the JavaScript semantics (they are listed where it is produced). *)
Inductive result (A : Type) : Type :=
| Ok (a : A)
| Throws (e : exn)
| Unmodelled.

Arguments Ok {A} a.
Arguments Throws {A} e.
Arguments Unmodelled {A}.

Definition bind {A B : Type} (r : result A) (f : A -> result B) : result B :=
  match r with
  | Ok a => f a
  | Throws e => Throws e
  | Unmodelled => Unmodelled
  end.

Notation "x <- r ;; k" := (bind r (fun x => k))
  (at level 61, r at next level, right associativity).

(** ** JSON-shaped values *)

Unset Elimination Schemes.
Inductive json : Type :=
| JNull
| JBool (b : bool)
| JNum (n : Z)
| JStr (s : string)
| JArr (items : list json)
| JObj (members : list (string * json)).
Set Elimination Schemes.

Fixpoint json_ind (P : json -> Prop)
    (HNull : P JNull) (HBool : forall b, P (JBool b))
    (HNum : forall n, P (JNum n)) (HStr : forall s, P (JStr s))
    (HArr : forall items, Forall P items -> P (JArr items))
    (HObj : forall members,
        Forall (fun kv => P (snd kv)) members -> P (JObj members))
    (v : json) : P v :=
  match v with
  | JNull => HNull
  | JBool b => HBool b
  | JNum n => HNum n
  | JStr s => HStr s
  | JArr items =>
      HArr items
        ((fix all (l : list json) : Forall P l :=
            match l with
            | [] => Forall_nil P
            | x :: l' =>
                Forall_cons x (json_ind P HNull HBool HNum HStr HArr HObj x)
                  (all l')
            end) items)
  | JObj members =>
      HObj members
        ((fix all (l : list (string * json))
            : Forall (fun kv => P (snd kv)) l :=
            match l with
            | [] => Forall_nil _
            | kv :: l' =>
                Forall_cons kv
                  (json_ind P HNull HBool HNum HStr HArr HObj (snd kv))
                  (all l')
            end) members)
  end.

(** The own enumerable properties of an ordinary object, in enumeration
    order. *)
Definition props (A : Type) : Type := list (string * A).

(** ToBoolean on a JSON-shaped value. *)
Definition truthy (v : json) : bool :=
  match v with
  | JNull => false
  | JBool b => b
  | JNum n => negb (n =? 0)%Z
  | JStr s => negb (s =? "")
  | JArr _ => true
  | JObj _ => true
  end.

(** ** Ordinary objects *)

Module Obj.

Definition digit (c : ascii) : option N :=
  let n := N_of_ascii c in
  if ((48 <=? n) && (n <=? 57))%N then Some (n - 48)%N else None.

Fixpoint digits (acc : N) (s : string) : option N :=
  match s with
  | EmptyString => Some acc
  | String c s' =>
      match digit c with
      | Some d => digits (acc * 10 + d)%N s'
      | None => None
      end
  end.

(** An array index is the canonical decimal form of an integer below
    2^32 - 1; such keys are enumerated first, in ascending order. *)
Definition array_index (k : string) : option N :=
  match k with
  | EmptyString => None
  | String c EmptyString => digit c
  | String c _ =>
      if (N_of_ascii c =? 48)%N then None
      else match digits 0 k with
           | Some n => if (n <? 4294967295)%N then Some n else None
           | None => None
           end
  end.

Section Props.
Context {A : Type}.

Fixpoint get (k : string) (o : props A) : option A :=
  match o with
  | [] => None
  | (k', v) :: o' => if k' =? k then Some v else get k o'
  end.

Definition has (k : string) (o : props A) : bool :=
  match get k o with Some _ => true | None => false end.

Fixpoint replace (k : string) (v : A) (o : props A) : props A :=
  match o with
  | [] => []
  | (k', v') :: o' =>
      if k' =? k then (k', v) :: o' else (k', v') :: replace k v o'
  end.

Fixpoint insert_index (i : N) (k : string) (v : A) (o : props A) : props A :=
  match o with
  | [] => [(k, v)]
  | (k', v') :: o' =>
      match array_index k' with
      | Some j =>
          if (j <=? i)%N then (k', v') :: insert_index i k v o'
          else (k, v) :: o
      | None => (k, v) :: o
      end
  end.

(** [o[k] = v] on an own or fresh data property: an existing property keeps
    its place, a new array index is put after the indices that are not
    above it, any other new key goes last. *)
Definition set (k : string) (v : A) (o : props A) : props A :=
  if has k o then replace k v o
  else match array_index k with
       | Some i => insert_index i k v o
       | None => o ++ [(k, v)]
       end.

(** [{ ...base, ...src }]: the properties of [src] defined one by one on a
    copy of [base]. *)
Definition spread (base src : props A) : props A :=
  fold_left (fun o kv => set (fst kv) (snd kv) o) src base.

(** An object literal [{ k1: v1, ..., kn: vn }]. *)
Definition literal (entries : props A) : props A := spread [] entries.

Definition keys (o : props A) : list string := map fst o.

(** The enumeration order of two distinct keys. *)
Definition precedes (k1 k2 : string) : bool :=
  negb (k1 =? k2) &&
  match array_index k1, array_index k2 with
  | Some i, Some j => (i <=? j)%N
  | Some _, None => true
  | None, Some _ => false
  | None, None => true
  end.

(** Distinct keys in enumeration order: the array indices first, in
    ascending order. *)
Fixpoint ordered (ks : list string) : bool :=
  match ks with
  | [] => true
  | k :: ks' => forallb (precedes k) ks' && ordered ks'
  end.

Definition without (k : string) (o : props A) : props A :=
  filter (fun kv => negb (fst kv =? k)) o.

End Props.

(** The property names every ordinary object inherits from
    [Object.prototype]; each of them holds a function or, for [__proto__],
    the prototype object, so all of them are truthy. *)
Definition prototype_names : list string :=
  [ "constructor"; "__proto__"; "hasOwnProperty"; "isPrototypeOf";
    "propertyIsEnumerable"; "toLocaleString"; "toString"; "valueOf";
    "__defineGetter__"; "__defineSetter__"; "__lookupGetter__";
    "__lookupSetter__" ].

Definition inherited (k : string) : bool :=
  existsb (String.eqb k) prototype_names.

End Obj.

(** The outcome of the property read [o[k]] on an ordinary object. *)
Inductive lookup (A : Type) : Type :=
| Own (a : A)
| Inherited
| Undefined.

Arguments Own {A} a.
Arguments Inherited {A}.
Arguments Undefined {A}.

Definition js_get {A : Type} (o : props A) (k : string) : lookup A :=
  match Obj.get k o with
  | Some a => Own a
  | None => if Obj.inherited k then Inherited else Undefined
  end.

(** The assignment [o[k] = v] on an ordinary object sets a data property,
    unless [k] is [__proto__] and [o] has no own property of that name:
    the assignment then goes to the setter of [Object.prototype], which
    adds no property and may replace the prototype of [o]. *)
Definition to_setter {A : Type} (k : string) (o : props A) : bool :=
  (k =? "__proto__") && negb (Obj.has k o).

(** [o[k] = v] where it sets a data property; an assignment that goes to
    the setter is outside this development. *)
Definition js_set {A : Type} (k : string) (v : A) (o : props A)
  : result (props A) :=
  if to_setter k o then Unmodelled else Ok (Obj.set k v o).

(** ** Text: literal and pattern replacement *)

Module Text.
Local Open Scope string_scope.

Definition quote : ascii := "034"%char.
Definition backslash : ascii := "092"%char.
Definition newline : ascii := "010"%char.
Definition dollar : ascii := "$"%char.
Definition lbrace : ascii := "{"%char.
Definition rbrace : ascii := "}"%char.

Definition code (c : ascii) : N := N_of_ascii c.

Fixpoint drop (n : nat) (s : string) : string :=
  match n, s with
  | O, _ => s
  | S n', String _ s' => drop n' s'
  | S _, EmptyString => EmptyString
  end.

Fixpoint all (p : ascii -> bool) (s : string) : bool :=
  match s with
  | EmptyString => true
  | String c s' => p c && all p s'
  end.

(** [\w]: a letter, a digit or the underscore. *)
Definition word_char (c : ascii) : bool :=
  let n := code c in
  ((48 <=? n) && (n <=? 57) || (65 <=? n) && (n <=? 90)
   || (97 <=? n) && (n <=? 122) || (n =? 95))%N.

(** GetSubstitution for a match without capture groups: in the replacement
    text, [$$] stands for a dollar sign, [$&] for the matched text, [$`] for
    the text before the match and [$'] for the text after it; every other
    character, a dollar sign before anything else included, stands for
    itself. *)
Fixpoint get_substitution (matched before after replacement : string)
  : string :=
  match replacement with
  | EmptyString => EmptyString
  | String c r =>
      if (code c =? 36)%N then
        match r with
        | String d r' =>
            if (code d =? 36)%N then
              String dollar (get_substitution matched before after r')
            else if (code d =? 38)%N then
              matched ++ get_substitution matched before after r'
            else if (code d =? 96)%N then
              before ++ get_substitution matched before after r'
            else if (code d =? 39)%N then
              after ++ get_substitution matched before after r'
            else String c (get_substitution matched before after r)
        | EmptyString => String c EmptyString
        end
      else String c (get_substitution matched before after r)
  end.

(** [s.replace(new RegExp(p, 'g'), replacement)] for a pattern [p] that
    matches the non-empty literal text [pat] and nothing else: the matches
    are found from left to right and do not overlap.  [before] is the part
    of the subject already passed, [skip] the number of characters of the
    current match still to pass. *)
Fixpoint replace_from (pat replacement before : string) (skip : nat)
    (s : string) : string :=
  match s with
  | EmptyString => EmptyString
  | String c s' =>
      match skip with
      | S k => replace_from pat replacement (before ++ String c "") k s'
      | O =>
          if prefix pat s then
            get_substitution pat before (drop (String.length pat) s) replacement
            ++ replace_from pat replacement (before ++ String c "")
                 (String.length pat - 1) s'
          else
            String c (replace_from pat replacement (before ++ String c "") 0 s')
      end
  end.

Definition replace_all (pat replacement s : string) : string :=
  replace_from pat replacement "" 0 s.

(** The longest prefix without a closing brace, and what follows it. *)
Fixpoint span_open (s : string) : string * string :=
  match s with
  | EmptyString => (EmptyString, EmptyString)
  | String c s' =>
      if (code c =? 125)%N then (EmptyString, s)
      else let (run, rest) := span_open s' in (String c run, rest)
  end.

(** A match of [/\{\{([^}]+)\}\}/] at the head of [s]: the captured text.
    The class [[^}]] takes every character but the closing brace, so the
    greedy run is the longest one, and no shorter run can be followed by
    two closing braces. *)
Definition match_input (s : string) : option string :=
  match s with
  | String c1 (String c2 r) =>
      if ((code c1 =? 123) && (code c2 =? 123))%N then
        match span_open r with
        | (EmptyString, _) => None
        | (run, String d1 (String d2 _)) =>
            if ((code d1 =? 125) && (code d2 =? 125))%N then Some run
            else None
        | _ => None
        end
      else None
  | _ => None
  end.

(** [s.replace(/\{\{([^}]+)\}\}/g, '${input:$1}')]: in the replacement
    text [$1] stands for the captured text and the rest for itself. *)
Fixpoint convert_from (skip : nat) (s : string) : string :=
  match s with
  | EmptyString => EmptyString
  | String c s' =>
      match skip with
      | S k => convert_from k s'
      | O =>
          match match_input s with
          | Some name =>
              "${input:" ++ name ++ "}" ++ convert_from (String.length name + 3) s'
          | None => String c (convert_from 0 s')
          end
      end
  end.

Definition convert_inputs (s : string) : string := convert_from 0 s.

End Text.

(** ** JSON.stringify and JSON.parse *)

Module Json.
Local Open Scope string_scope.
Import Text.

Definition hex_char (n : N) : ascii :=
  if (n <? 10)%N then ascii_of_N (48 + n) else ascii_of_N (87 + n).

(** QuoteJSONString, one code unit at a time. *)
Definition escape_char (c : ascii) : string :=
  let n := code c in
  if (n =? 34)%N then String backslash (String quote "")
  else if (n =? 92)%N then String backslash (String backslash "")
  else if (n =? 8)%N then String backslash "b"
  else if (n =? 12)%N then String backslash "f"
  else if (n =? 10)%N then String backslash "n"
  else if (n =? 13)%N then String backslash "r"
  else if (n =? 9)%N then String backslash "t"
  else if (n <? 32)%N then
    String backslash
      ("u00" ++ String (hex_char (n / 16)) (String (hex_char (n mod 16)) ""))
  else String c "".

Fixpoint escape (s : string) : string :=
  match s with
  | EmptyString => EmptyString
  | String c s' => escape_char c ++ escape s'
  end.

Definition quoted (s : string) : string :=
  String quote (escape s ++ String quote "").

Definition number (n : Z) : string := NilZero.string_of_int (Z.to_int n).

(** The items of an array or an object, separated by commas, and the
    closing bracket. *)
Fixpoint join (close : string) (items : list string) : string :=
  match items with
  | [] => close
  | [x] => x ++ close
  | x :: items' => x ++ "," ++ join close items'
  end.

(** [JSON.stringify(v)], without indentation. *)
Fixpoint stringify (v : json) : string :=
  match v with
  | JNull => "null"
  | JBool true => "true"
  | JBool false => "false"
  | JNum n => number n
  | JStr s => quoted s
  | JArr items => "[" ++ join "]" (map stringify items)
  | JObj members =>
      "{" ++
      join "}"
        (map (fun kv : string * json =>
                let (k, x) := kv in quoted k ++ ":" ++ stringify x)
           members)
  end.

(** The items of an array or an object, each on a line of its own, and
    what closes it. *)
Fixpoint lines (separator close : string) (items : list string) : string :=
  match items with
  | [] => close
  | [x] => x ++ close
  | x :: items' => x ++ separator ++ lines separator close items'
  end.

(** [JSON.stringify(v, null, 2)] for a value at the indentation [indent]:
    an empty array or object is written without a line break, the items
    of another one line by line, two spaces further in, with a colon and a
    space between a key and its value. *)
Fixpoint indented (indent : string) (v : json) : string :=
  let inner := indent ++ "  " in
  let opening := String newline inner in
  let separator := "," ++ String newline inner in
  match v with
  | JArr items =>
      match items with
      | [] => "[]"
      | _ :: _ =>
          "[" ++ opening ++
          lines separator (String newline (indent ++ "]"))
            (map (indented inner) items)
      end
  | JObj members =>
      match members with
      | [] => "{}"
      | _ :: _ =>
          "{" ++ opening ++
          lines separator (String newline (indent ++ "}"))
            (map (fun kv : string * json =>
                    let (k, x) := kv in quoted k ++ ": " ++ indented inner x)
               members)
      end
  | _ => stringify v
  end.

Definition pretty (v : json) : string := indented "" v.

(** What a value becomes when it is written and read back: the members of
    an object are defined one by one, so a repeated key keeps its first
    place and its last value. *)
Fixpoint normalize (v : json) : json :=
  match v with
  | JArr items => JArr (map normalize items)
  | JObj members =>
      JObj (Obj.literal
              (map (fun kv : string * json =>
                      let (k, x) := kv in (k, normalize x)) members))
  | _ => v
  end.

(** [f] applied to every string of a value, the keys included. *)
Fixpoint map_strings (f : string -> string) (v : json) : json :=
  match v with
  | JStr s => JStr (f s)
  | JArr items => JArr (map (map_strings f) items)
  | JObj members =>
      JObj (map (fun kv : string * json =>
                  let (k, x) := kv in (f k, map_strings f x)) members)
  | _ => v
  end.

Definition is_ws (c : ascii) : bool :=
  let n := code c in ((n =? 32) || (n =? 9) || (n =? 10) || (n =? 13))%N.

Fixpoint skip_ws (s : string) : string :=
  match s with
  | EmptyString => EmptyString
  | String c s' => if is_ws c then skip_ws s' else s
  end.

Definition hex_value (c : ascii) : option N :=
  let n := code c in
  if ((48 <=? n) && (n <=? 57))%N then Some (n - 48)%N
  else if ((97 <=? n) && (n <=? 102))%N then Some (n - 87)%N
  else if ((65 <=? n) && (n <=? 70))%N then Some (n - 55)%N
  else None.

Definition hex4 (a b c d : ascii) : option N :=
  match hex_value a, hex_value b, hex_value c, hex_value d with
  | Some x, Some y, Some z, Some w => Some (((x * 16 + y) * 16 + z) * 16 + w)%N
  | _, _, _, _ => None
  end.

Definition push (c : ascii) (r : result (string * string))
  : result (string * string) :=
  p <- r ;; Ok (String c (fst p), snd p).

(** The body of a string literal, after its opening quote: the string it
    denotes and the text after its closing quote.  An escape [\uXXXX] above
    [00FF] denotes a code unit this development has no character for:
    [Unmodelled]. *)
Fixpoint parse_string (s : string) : result (string * string) :=
  match s with
  | EmptyString => Throws SyntaxError
  | String c s' =>
      if (code c =? 34)%N then Ok (EmptyString, s')
      else if (code c =? 92)%N then
        match s' with
        | EmptyString => Throws SyntaxError
        | String e s'' =>
            let n := code e in
            if (n =? 34)%N then push quote (parse_string s'')
            else if (n =? 92)%N then push backslash (parse_string s'')
            else if (n =? 47)%N then push "/"%char (parse_string s'')
            else if (n =? 98)%N then push (ascii_of_N 8) (parse_string s'')
            else if (n =? 102)%N then push (ascii_of_N 12) (parse_string s'')
            else if (n =? 110)%N then push (ascii_of_N 10) (parse_string s'')
            else if (n =? 114)%N then push (ascii_of_N 13) (parse_string s'')
            else if (n =? 116)%N then push (ascii_of_N 9) (parse_string s'')
            else if (n =? 117)%N then
              match s'' with
              | String h1 (String h2 (String h3 (String h4 r))) =>
                  match hex4 h1 h2 h3 h4 with
                  | Some u =>
                      if (u <? 256)%N then push (ascii_of_N u) (parse_string r)
                      else Unmodelled
                  | None => Throws SyntaxError
                  end
              | _ => Throws SyntaxError
              end
            else Throws SyntaxError
        end
      else if (code c <? 32)%N then Throws SyntaxError
      else push c (parse_string s')
  end.

Definition digit_char (c : ascii) : bool :=
  let n := code c in ((48 <=? n) && (n <=? 57))%N.

Definition number_char (c : ascii) : bool :=
  let n := code c in
  (digit_char c || (n =? 45) || (n =? 43) || (n =? 46) || (n =? 101)
   || (n =? 69))%N.

Fixpoint span (p : ascii -> bool) (s : string) : string * string :=
  match s with
  | EmptyString => (EmptyString, EmptyString)
  | String c s' =>
      if p c then let (run, rest) := span p s' in (String c run, rest)
      else (EmptyString, s)
  end.

Definition max_safe_integer : Z := 9007199254740991.

(** A number literal.  An integer literal in canonical form denotes that
    integer.  Literals with a fraction or an exponent, and integers beyond
    the safe range, are [Unmodelled]. *)
Definition parse_number (s : string) : result (json * string) :=
  let (lit, rest) := span number_char s in
  if all (fun c => digit_char c || (code c =? 45)%N) lit then
    if lit =? "-0" then Ok (JNum 0, rest)
    else match NilZero.int_of_string lit with
         | Some d =>
             let n := Z.of_int d in
             if lit =? number n then
               if (Z.abs n <=? max_safe_integer)%Z then Ok (JNum n, rest)
               else Unmodelled
             else Throws SyntaxError
         | None => Throws SyntaxError
         end
  else Unmodelled.

Definition expect (word : string) (v : json) (s : string)
  : result (json * string) :=
  if prefix word s then Ok (v, drop (String.length word) s)
  else Throws SyntaxError.

(** A value at the head of [s], and the text after it.  [fuel] bounds the
    number of nested calls; [parse] gives enough of it. *)
Fixpoint parse_value (fuel : nat) (s : string) : result (json * string) :=
  match fuel with
  | O => Unmodelled
  | S fuel =>
      match skip_ws s with
      | EmptyString => Throws SyntaxError
      | String c r =>
          let n := code c in
          if (n =? 123)%N then
            match skip_ws r with
            | String d r' =>
                if (code d =? 125)%N then Ok (JObj [], r')
                else
                  p <- parse_members fuel (skip_ws r) ;;
                  Ok (JObj (Obj.literal (fst p)), snd p)
            | EmptyString => Throws SyntaxError
            end
          else if (n =? 91)%N then
            match skip_ws r with
            | String d r' =>
                if (code d =? 93)%N then Ok (JArr [], r')
                else
                  p <- parse_elements fuel r ;;
                  Ok (JArr (fst p), snd p)
            | EmptyString => Throws SyntaxError
            end
          else if (n =? 34)%N then
            p <- parse_string r ;; Ok (JStr (fst p), snd p)
          else if (n =? 110)%N then expect "null" JNull (String c r)
          else if (n =? 116)%N then expect "true" (JBool true) (String c r)
          else if (n =? 102)%N then expect "false" (JBool false) (String c r)
          else if (digit_char c || (n =? 45)%N) then parse_number (String c r)
          else Throws SyntaxError
      end
  end

with parse_elements (fuel : nat) (s : string) : result (list json * string) :=
  match fuel with
  | O => Unmodelled
  | S fuel =>
      p <- parse_value fuel s ;;
      match skip_ws (snd p) with
      | String c r =>
          if (code c =? 44)%N then
            q <- parse_elements fuel r ;; Ok (fst p :: fst q, snd q)
          else if (code c =? 93)%N then Ok ([fst p], r)
          else Throws SyntaxError
      | EmptyString => Throws SyntaxError
      end
  end

with parse_members (fuel : nat) (s : string)
  : result (list (string * json) * string) :=
  match fuel with
  | O => Unmodelled
  | S fuel =>
      match s with
      | String c r =>
          if (code c =? 34)%N then
            k <- parse_string r ;;
            match skip_ws (snd k) with
            | String d r' =>
                if (code d =? 58)%N then
                  p <- parse_value fuel r' ;;
                  match skip_ws (snd p) with
                  | String e r'' =>
                      if (code e =? 44)%N then
                        q <- parse_members fuel (skip_ws r'') ;;
                        Ok ((fst k, fst p) :: fst q, snd q)
                      else if (code e =? 125)%N then
                        Ok ([(fst k, fst p)], r'')
                      else Throws SyntaxError
                  | EmptyString => Throws SyntaxError
                  end
                else Throws SyntaxError
            | EmptyString => Throws SyntaxError
            end
          else Throws SyntaxError
      | EmptyString => Throws SyntaxError
      end
  end.

(** [JSON.parse(text)]. *)
Definition parse (text : string) : result json :=
  p <- parse_value (S (String.length text)) text ;;
  match skip_ws (snd p) with
  | EmptyString => Ok (fst p)
  | String _ _ => Throws SyntaxError
  end.

End Json.

(** ** app/mcp-servers.config.js *)

Module Config.

(** [transport.k] when it is truthy.  The three names the generators test
    ([command], [url], [httpUrl]) are not members of [Object.prototype], so
    the read is decided by the own properties. *)
Definition populated (transport : props json) (k : string) : option json :=
  match Obj.get k transport with
  | Some v => if truthy v then Some v else None
  | None => None
  end.

(** A generator returns a fragment or [null] ([None]). *)
Definition generator : Type := props json -> option json.

Definition claudeCode : generator := fun transport =>
  match populated transport "command" with
  | Some _ => Some (JObj (Obj.spread [] transport))
  | None =>
      match populated transport "url" with
      | Some url =>
          Some (JObj (Obj.literal [("type", JStr "sse"); ("url", url)]))
      | None =>
          match populated transport "httpUrl" with
          | Some httpUrl =>
              Some (JObj (Obj.spread
                            (Obj.literal [("type", JStr "http"); ("url", httpUrl)])
                            transport))
          | None => None
          end
      end
  end.

Definition claudeDesktop : generator := fun transport =>
  match populated transport "command" with
  | Some _ => Some (JObj (Obj.spread [] transport))
  | None =>
      match populated transport "url" with
      | Some url =>
          Some (JObj (Obj.literal [("type", JStr "sse"); ("url", url)]))
      | None =>
          match populated transport "httpUrl" with
          | Some httpUrl =>
              Some (JObj (Obj.spread
                            (Obj.literal [("type", JStr "http"); ("url", httpUrl)])
                            transport))
          | None => None
          end
      end
  end.

Definition vscode : generator := fun transport =>
  match populated transport "url" with
  | Some url =>
      Some (JObj (Obj.literal [("type", JStr "sse"); ("url", url)]))
  | None =>
      match populated transport "httpUrl" with
      | Some httpUrl =>
          Some (JObj (Obj.spread
                        (Obj.literal [("type", JStr "http"); ("url", httpUrl)])
                        transport))
      | None => None
      end
  end.

Definition gemini : generator := fun transport =>
  match populated transport "command" with
  | Some _ => Some (JObj (Obj.spread [] transport))
  | None =>
      match populated transport "url" with
      | Some url => Some (JObj (Obj.literal [("httpUrl", url)]))
      | None =>
          match populated transport "httpUrl" with
          | Some httpUrl =>
              Some (JObj (Obj.spread (Obj.literal [("httpUrl", httpUrl)])
                            transport))
          | None => None
          end
      end
  end.

Definition defaultConfigGenerators : props generator :=
  Obj.literal
    [ ("claudeCode", claudeCode); ("claudeDesktop", claudeDesktop);
      ("vscode", vscode); ("gemini", gemini) ].

(** [{ ...defaultConfigGenerators, ...customGenerators }], the custom
    generators being [{}] by default. *)
Definition all_generators (customGenerators : option (props generator))
  : props generator :=
  Obj.spread (Obj.spread [] defaultConfigGenerators)
    (match customGenerators with Some g => g | None => [] end).

(** [buildConfig(transport, customGenerators = {})]: the own properties of
    the object it returns.  Every generator is run on the transport, and
    [config[client] = clientConfig] is done when the result is truthy.  For
    a generator named [__proto__] that assignment goes to the setter of
    [Object.prototype] ([config] never has an own property of that name):
    no property is added. *)
Definition buildConfig (transport : props json)
    (customGenerators : option (props generator)) : props json :=
  let generators := all_generators customGenerators in
  fold_left
    (fun config entry =>
       match snd entry transport with
       | Some clientConfig =>
           if truthy clientConfig then
             if fst entry =? "__proto__" then config
             else Obj.set (fst entry) clientConfig config
           else config
       | None => config
       end)
    generators [].

(** The setter of [Object.prototype] ignores a primitive value and makes an
    object the prototype of [config]: whether [buildConfig] returns an
    object whose prototype is no longer [Object.prototype]. *)
Definition replaces_prototype (transport : props json)
    (customGenerators : option (props generator)) : bool :=
  existsb
    (fun entry : string * generator =>
       (fst entry =? "__proto__") &&
       match snd entry transport with
       | Some (JObj _) | Some (JArr _) => true
       | _ => false
       end)
    (all_generators customGenerators).

(** A server descriptor.  [requiredTokens], [config], [transport] and
    [customGenerators] are [None] when the property is absent. *)
Record server : Type := mkServer {
  name : string;
  description : string;
  type : string;
  requiredTokens : option (list string);
  config : option (props json);
  transport : option (props json);
  customGenerators : option (props generator)
}.

(** The catalog [mcpServers]: a module-level object, passed explicitly. *)
Definition catalog : Type := props server.

Definition getAvailableServers (mcpServers : catalog) : list string :=
  Obj.keys mcpServers.

Definition getServerConfig (mcpServers : catalog) (serverName : string)
  : lookup server :=
  js_get mcpServers serverName.

Record validation : Type := mkValidation {
  valid : bool;
  missing : list string
}.

(** [!tokens[token]] on a token set, whose values are strings. *)
Definition token_absent (tokens : props string) (token : string) : bool :=
  match js_get tokens token with
  | Own value => value =? ""
  | Inherited => false
  | Undefined => true
  end.

Definition validateServerTokens (mcpServers : catalog) (serverName : string)
    (tokens : props string) : validation :=
  match js_get mcpServers serverName with
  | Undefined => {| valid := false; missing := [] |}
  | Own server =>
      let requiredTokens :=
        match requiredTokens server with Some l => l | None => [] end in
      let missing := filter (token_absent tokens) requiredTokens in
      {| valid := (length missing =? 0)%nat; missing := missing |}
  | Inherited =>
      (* an inherited member is truthy and has no [requiredTokens] *)
      let missing := filter (token_absent tokens) [] in
      {| valid := (length missing =? 0)%nat; missing := missing |}
  end.

(** [addServer(name, serverConfig)]: the outcome of the call and the catalog
    it leaves behind.  The descriptor stored is the argument itself, after
    its [config] has been filled in.  A [config] whose prototype has been
    replaced is not an ordinary object: [Unmodelled]. *)
Definition with_config (serverConfig : server) (c : props json) : server :=
  {| name := name serverConfig;
     description := description serverConfig;
     type := type serverConfig;
     requiredTokens := requiredTokens serverConfig;
     config := Some c;
     transport := transport serverConfig;
     customGenerators := customGenerators serverConfig |}.

Definition addServer (mcpServers : catalog) (name : string)
    (serverConfig : server) : result unit * catalog :=
  match js_get mcpServers name with
  | Own _ | Inherited =>
      (Throws (Error ("Server " ++ name ++ " already exists")), mcpServers)
  | Undefined =>
      match config serverConfig, transport serverConfig with
      | None, Some t =>
          if replaces_prototype t (customGenerators serverConfig)
          then (Unmodelled, mcpServers)
          else
            let serverConfig :=
              with_config serverConfig
                (buildConfig t (customGenerators serverConfig)) in
            (Ok tt, Obj.set name serverConfig mcpServers)
      | _, _ => (Ok tt, Obj.set name serverConfig mcpServers)
      end
  end.

(** The text [new RegExp(`\\$\\{${key}\\}`, 'g')] matches when [key]
    consists of word characters: the placeholder itself. *)
Definition placeholder (key : string) : string :=
  String.append "${" (String.append key "}").

(** One turn of the loop of [substituteTokens].  A key with a character that
    is not a word character would be read as regular-expression syntax,
    which this development does not interpret: [Unmodelled]. *)
Definition substitute_entry (substituted : result string)
    (entry : string * string) : result string :=
  text <- substituted ;;
  if Text.all Text.word_char (fst entry)
  then Ok (Text.replace_all (placeholder (fst entry)) (snd entry) text)
  else Unmodelled.

Definition substituteTokens (config : json) (tokens : props string)
  : result json :=
  let configStr := Json.stringify config in
  substituted <- fold_left substitute_entry tokens (Ok configStr) ;;
  Json.parse substituted.

(** What [getClientConfig] returns: a fragment, the member of
    [Object.prototype] of a given name, or [null]. *)
Inductive client_config : Type :=
| Fragment (v : json)
| Member (k : string)
| Null.

(** [getClientConfig]: [server?.config?.[clientName] || null].  A server
    name read through the prototype gives a member without a [config]; a
    client name read through the prototype gives that member, which is
    truthy. *)
Definition getClientConfig (mcpServers : catalog)
    (serverName clientName : string) : client_config :=
  match js_get mcpServers serverName with
  | Own server =>
      match config server with
      | Some c =>
          match js_get c clientName with
          | Own v => if truthy v then Fragment v else Null
          | Inherited => Member clientName
          | Undefined => Null
          end
      | None => Null
      end
  | Inherited => Null
  | Undefined => Null
  end.

(** The catalog the module starts with. *)
Definition entry (name description type : string) (requiredTokens : list string)
    (config : props json) : server :=
  {| name := name; description := description; type := type;
     requiredTokens := Some requiredTokens; config := Some config;
     transport := None; customGenerators := None |}.

Definition npx (args : list string) : props json :=
  Obj.literal
    [ ("command", JStr "npx"); ("args", JArr (map JStr args)) ].

Definition mcpServers : catalog :=
  Obj.literal
    [ ("github",
       entry "GitHub" "GitHub repository management and operations" "docker"
         ["GITHUB_PERSONAL_ACCESS_TOKEN"]
         (buildConfig
            (Obj.literal
               [ ("command", JStr "docker");
                 ("args", JArr (map JStr
                    ["run"; "-i"; "--rm"; "-e"; "GITHUB_PERSONAL_ACCESS_TOKEN";
                     "ghcr.io/github/github-mcp-server"]));
                 ("env", JObj (Obj.literal
                    [("GITHUB_PERSONAL_ACCESS_TOKEN",
                      JStr "${GITHUB_PERSONAL_ACCESS_TOKEN}")])) ])
            (Some (Obj.literal
               [ ("vscode", fun _ => Some (JObj (Obj.literal
                    [ ("url", JStr "https://api.githubcopilot.com/mcp/");
                      ("authorization_token",
                       JStr "Bearer ${GITHUB_PERSONAL_ACCESS_TOKEN}") ]))) ]))));
      ("notionApi",
       entry "Notion" "Notion API MCP server connection" "mcp" ["NOTION_TOKEN"]
         (buildConfig (Obj.literal [("url", JStr "https://mcp.notion.app/sse")])
            None));
      ("linear",
       entry "Linear" "Linear issue tracking and project management" "sse" []
         (buildConfig (Obj.literal [("url", JStr "https://mcp.linear.app/sse")])
            None));
      ("figma",
       entry "Figma" "Figma design file management and operations" "sse" []
         (buildConfig (Obj.literal [("url", JStr "http://127.0.0.1:3845/sse")])
            None));
      ("filesystem",
       entry "Filesystem" "Read, write, and manage files and directories" "npm"
         ["WORKSPACE_FOLDER"]
         (buildConfig
            (npx ["-y"; "@modelcontextprotocol/server-filesystem";
                  "${WORKSPACE_FOLDER}"])
            None));
      ("context7",
       entry "Context7" "Context7 MCP server for enhanced context management"
         "npm" ["CONTEXT7_API_KEY"]
         (buildConfig
            (Obj.literal
               [ ("type", JStr "http");
                 ("url", JStr "https://mcp.context7.com/mcp");
                 ("headers", JObj (Obj.literal
                    [("CONTEXT7_API_KEY", JStr "${CONTEXT7_API_KEY}")])) ])
            None));
      ("slack",
       entry "Slack" "Slack workspace integration" "sse" ["SLACK_BOT_TOKEN"]
         (buildConfig (Obj.literal [("url", JStr "https://mcp.slack.com/sse")])
            None));
      ("postgresql",
       entry "PostgreSQL" "PostgreSQL database operations" "npm"
         ["POSTGRES_CONNECTION_STRING"]
         (buildConfig
            (npx ["-y"; "@modelcontextprotocol/server-postgres";
                  "${POSTGRES_CONNECTION_STRING}"])
            None));
      ("puppeteer",
       entry "Puppeteer" "Browser automation and web scraping" "npm" []
         (buildConfig (npx ["-y"; "@modelcontextprotocol/server-puppeteer"])
            None));
      ("sqlite",
       entry "SQLite" "SQLite database operations" "npm" []
         (buildConfig
            (npx ["-y"; "@modelcontextprotocol/server-sqlite";
                  "${DATABASE_PATH}"])
            None));
      ("customServer",
       entry "Custom Server" "Example of custom configuration per client"
         "mixed" ["CUSTOM_API_KEY"]
         (buildConfig []
            (Some (Obj.literal
               [ ("claudeCode", fun _ => Some (JObj (Obj.literal
                    [ ("command", JStr "node");
                      ("args", JArr [JStr "./custom-server.js"]);
                      ("env", JObj (Obj.literal
                         [("CUSTOM_API_KEY", JStr "${CUSTOM_API_KEY}")])) ])));
                 ("claudeDesktop", fun _ => Some (JObj (Obj.literal
                    [ ("type", JStr "sse");
                      ("url", JStr "https://custom.example.com/sse") ])));
                 ("vscode", fun _ => Some (JObj (Obj.literal
                    [ ("type", JStr "http");
                      ("url", JStr "https://custom.example.com/http");
                      ("headers", JObj (Obj.literal
                         [("X-API-Key", JStr "${CUSTOM_API_KEY}")])) ])));
                 ("gemini", fun _ => Some (JObj (Obj.literal
                    [ ("httpUrl", JStr "https://custom.example.com/stream");
                      ("headers", JObj (Obj.literal
                         [("Authorization",
                           JStr "Bearer ${CUSTOM_API_KEY}")])) ]))) ])))) ].


End Config.

(** ** app/setup-mcp.js *)

Module Setup.

(** A client configuration file, as [fs.pathExists] sees it: absent, or
    present with its text. *)
Inductive file : Type :=
| Absent
| Present (text : string).

(** [fs.readJson(path)]: the text of the file through [JSON.parse].  (The
    byte order mark that is taken off first is not a character of this
    development.) *)
Definition readJson (text : string) : result json := Json.parse text.

(** [fs.writeJson(path, config, { spaces: 2 })]: the file gets the text
    [JSON.stringify(config, null, 2)] and a final line break. *)
Definition writeJson (config : json) : string :=
  Json.pretty config ++ String Text.newline "".

Inductive platform : Type := Darwin | Linux | OtherPlatform.

(** The state of an [MCPSetup] and the answer given when the workspace
    folder is asked for. *)
Record MCPSetup : Type := mkSetup {
  tokens : props string;
  selectedServers : list string;
  dryRun : bool;
  workspaceFolder : string
}.

(** The tokens a server is substituted with: for [filesystem],
    [{ ...this.tokens, WORKSPACE_FOLDER: workspaceFolder }]. *)
Definition server_tokens (setup : MCPSetup) (serverName : string)
  : props string :=
  if serverName =? "filesystem"
  then Obj.set "WORKSPACE_FOLDER" (workspaceFolder setup)
         (Obj.spread [] (tokens setup))
  else tokens setup.

(** [server.config.<client>] for [server = getServerConfig(serverName)].
    Reading [config] of [undefined], or the client of an absent [config],
    throws; so does the read through an inherited member, which has no
    [config]. *)
Definition client_fragment (mcpServers : Config.catalog)
    (serverName client : string) : result (lookup json) :=
  match Config.getServerConfig mcpServers serverName with
  | Own server =>
      match Config.config server with
      | Some c => Ok (js_get c client)
      | None => Throws TypeError
      end
  | Inherited => Throws TypeError
  | Undefined => Throws TypeError
  end.

(** [substituteTokens(fragment, tokens)] on what the read returned.  For
    [undefined], [JSON.stringify] returns [undefined]: the first [replace]
    throws a TypeError, and without tokens [JSON.parse] a SyntaxError. *)
Definition substitute (fragment : lookup json) (tokens : props string)
  : result json :=
  match fragment with
  | Own config => Config.substituteTokens config tokens
  | Undefined =>
      match tokens with
      | [] => Throws SyntaxError
      | _ :: _ => Throws TypeError
      end
  | Inherited => Unmodelled
  end.

(** [target[k] = v] in strict mode (the file is a module).  A property
    cannot be created on a primitive; a named property put on an array is
    outside this development. *)
Definition assign (target : json) (k : string) (v : json) : result json :=
  match target with
  | JObj o => o <- js_set k v o ;; Ok (JObj o)
  | JArr _ => Unmodelled
  | _ => Throws TypeError
  end.

(** The own enumerable properties an object spread copies from a value. *)
Fixpoint indexed (i : nat) (l : list json) : props json :=
  match l with
  | [] => []
  | x :: l' => (Json.number (Z.of_nat i), x) :: indexed (S i) l'
  end.

Fixpoint characters (s : string) : list json :=
  match s with
  | EmptyString => []
  | String c s' => JStr (String c EmptyString) :: characters s'
  end.

Definition own_properties (v : json) : props json :=
  match v with
  | JObj o => o
  | JArr l => indexed 0 l
  | JStr s => indexed 0 (characters s)
  | _ => []
  end.

(** [v.mcpServers]: a TypeError on [null]; of the other values only an
    object can hold the property. *)
Definition read_mcpServers (v : json) : result (lookup json) :=
  match v with
  | JNull => Throws TypeError
  | JObj o => Ok (js_get o "mcpServers")
  | _ => Ok Undefined
  end.

Definition or_empty (m : lookup json) : json :=
  match m with
  | Own v => if truthy v then v else JObj []
  | _ => JObj []
  end.

(** [config.mcpServers[serverName] = serverConfig], [config] being an
    object. *)
Definition assign_server (config : props json) (serverName : string)
    (serverConfig : json) : result (props json) :=
  match js_get config "mcpServers" with
  | Own servers =>
      servers <- assign servers serverName serverConfig ;;
      Ok (Obj.set "mcpServers" servers config)
  | _ => Throws TypeError
  end.

(** The body of the loop of [setupClaudeDesktop]. *)
Definition add_claudeDesktop (mcpServers : Config.catalog) (setup : MCPSetup)
    (config : result (props json)) (serverName : string)
  : result (props json) :=
  config <- config ;;
  fragment <- client_fragment mcpServers serverName "claudeDesktop" ;;
  serverConfig <- substitute fragment (server_tokens setup serverName) ;;
  assign_server config serverName serverConfig.

(** The [try] block of [setupClaudeDesktop]: the configuration handed to
    [fs.writeJson]. *)
Definition claudeDesktop_config (mcpServers : Config.catalog)
    (setup : MCPSetup) (existing : file) : result json :=
  config <-
    match existing with
    | Absent => Ok (Obj.literal [("mcpServers", JObj [])])
    | Present text =>
        existingConfig <- readJson text ;;
        m <- read_mcpServers existingConfig ;;
        Ok (Obj.set "mcpServers" (or_empty m)
              (Obj.spread [] (own_properties existingConfig)))
    end ;;
  config <-
    fold_left (add_claudeDesktop mcpServers setup) (selectedServers setup)
      (Ok config) ;;
  Ok (JObj config).

(** What a setup function returns and the file it leaves behind: the
    configuration is written unless the run is a dry one, and an error
    thrown on the way is caught and reported. *)
Definition finish (setup : MCPSetup) (existing : file) (config : result json)
  : result (bool * file) :=
  match config with
  | Ok config =>
      Ok (true, if dryRun setup then existing else Present (writeJson config))
  | Throws _ => Ok (false, existing)
  | Unmodelled => Unmodelled
  end.

Definition setupClaudeDesktop (os : platform) (mcpServers : Config.catalog)
    (setup : MCPSetup) (existing : file) : result (bool * file) :=
  match os with
  | OtherPlatform => Ok (false, existing)
  | _ => finish setup existing (claudeDesktop_config mcpServers setup existing)
  end.

(** The body of the loop of [setupGeminiCLI]: a server without a Gemini
    projection is passed over with a warning. *)
Definition add_gemini (mcpServers : Config.catalog) (setup : MCPSetup)
    (config : result (props json)) (serverName : string)
  : result (props json) :=
  config <- config ;;
  fragment <- client_fragment mcpServers serverName "gemini" ;;
  match fragment with
  | Undefined => Ok config
  | Own v =>
      if truthy v then
        serverConfig <- substitute fragment (server_tokens setup serverName) ;;
        assign_server config serverName serverConfig
      else Ok config
  | Inherited => Unmodelled
  end.

(** The [try] block of [setupGeminiCLI].  A configuration that is an array
    would get [mcpServers] as a named property: [Unmodelled]. *)
Definition gemini_config (mcpServers : Config.catalog) (setup : MCPSetup)
    (existing : file) : result json :=
  config <-
    match existing with
    | Absent => Ok (JObj [])
    | Present text => readJson text
    end ;;
  m <- read_mcpServers config ;;
  config <-
    match m with
    | Own v =>
        if truthy v then Ok config else assign config "mcpServers" (JObj [])
    | _ => assign config "mcpServers" (JObj [])
    end ;;
  match config with
  | JObj config =>
      config <-
        fold_left (add_gemini mcpServers setup) (selectedServers setup)
          (Ok config) ;;
      Ok (JObj config)
  | _ => Unmodelled
  end.

Definition setupGeminiCLI (mcpServers : Config.catalog) (setup : MCPSetup)
    (existing : file) : result (bool * file) :=
  finish setup existing (gemini_config mcpServers setup existing).

(** [setupVSCode], for one server: the tokens are substituted first, then
    every [{{name}}] of the result is turned into [${input:name}]. *)
Definition vscode_server_config (fragment : json) (tokens : props string)
  : result json :=
  serverConfig <- Config.substituteTokens fragment tokens ;;
  let configStr := Json.stringify serverConfig in
  let convertedStr := Text.convert_inputs configStr in
  Json.parse convertedStr.

Definition add_vscode (mcpServers : Config.catalog) (setup : MCPSetup)
    (servers : result (props json)) (serverName : string)
  : result (props json) :=
  servers <- servers ;;
  fragment <- client_fragment mcpServers serverName "vscode" ;;
  match fragment with
  | Own v =>
      if truthy v then
        serverConfig <- vscode_server_config v (tokens setup) ;;
        js_set serverName serverConfig servers
      else Ok servers
  | Undefined => Ok servers
  | Inherited => Unmodelled
  end.

Definition vscode_config (mcpServers : Config.catalog) (setup : MCPSetup)
  : result json :=
  servers <-
    fold_left (add_vscode mcpServers setup) (selectedServers setup) (Ok []) ;;
  Ok (JObj (Obj.literal [("mcpServers", JObj servers)])).

End Setup.

(** ** commands/convert-commands.js: the loader *)

Module Loader.
Local Open Scope string_scope.

(** What [yaml.load] makes of the content of a file: it throws, or returns
    a primitive value ([undefined] for an empty file, [null], a string, a
    number or a boolean), on which no property can be put, or an object with
    its own enumerable properties, or an array. *)
Inductive document : Type :=
| Malformed
| Primitive
| Mapping (o : props json)
| Sequence (l : list json).

(** A directory entry, as [fs.readdirSync(dir, { withFileTypes: true })]
    lists it; [Other] is neither a directory nor a file. *)
Unset Elimination Schemes.
Inductive entry : Type :=
| File (name : string) (content : document)
| Directory (name : string) (entries : list entry)
| Other (name : string).
Set Elimination Schemes.

Fixpoint entry_ind (P : entry -> Prop)
    (HFile : forall name content, P (File name content))
    (HDirectory : forall name entries,
        Forall P entries -> P (Directory name entries))
    (HOther : forall name, P (Other name)) (e : entry) : P e :=
  match e with
  | File name content => HFile name content
  | Directory name entries =>
      HDirectory name entries
        ((fix all (l : list entry) : Forall P l :=
            match l with
            | [] => Forall_nil P
            | e' :: l' =>
                Forall_cons e' (entry_ind P HFile HDirectory HOther e') (all l')
            end) entries)
  | Other name => HOther name
  end.

(** A loaded command: its own enumerable properties. *)
Definition command : Type := props json.

Record loaded : Type := mkLoaded {
  commands : list command;
  errors : list string
}.

Fixpoint ends_with (suffix s : string) : bool :=
  (s =? suffix) ||
  match s with
  | EmptyString => false
  | String _ s' => ends_with suffix s'
  end.

(** [path.join(a, b)] for a relative path and an entry name, on POSIX. *)
Definition join (a b : string) : string := a ++ "/" ++ b.

Fixpoint take (n : nat) (s : string) : string :=
  match n, s with
  | S n', String c s' => String c (take n' s')
  | _, _ => EmptyString
  end.

(** [path.parse(name).name] for a name that ends in [suffix]: the name
    without it, unless nothing would be left. *)
Definition stem (suffix name : string) : string :=
  let n := String.length name - String.length suffix in
  match n with
  | O => name
  | _ => take n name
  end.

Definition fileName (name : string) : string :=
  if ends_with ".yaml" name then stem ".yaml" name else stem ".yml" name.

Definition tag (currentRelativePath relativePath name : string)
    (o : props json) : command :=
  Obj.set "_fileName" (JStr (fileName name))
    (Obj.set "_subfolder" (JStr relativePath)
       (Obj.set "_filePath" (JStr currentRelativePath) o)).

(** One turn of the loop of [loadCommandsFromDirectory]. *)
Fixpoint load_entry (relativePath : string) (e : entry) (acc : loaded)
  : loaded :=
  let currentRelativePath name :=
    if relativePath =? "" then name else join relativePath name in
  match e with
  | Directory name entries =>
      fold_left (fun acc e' => load_entry (currentRelativePath name) e' acc)
        entries acc
  | File name content =>
      if ends_with ".yaml" name || ends_with ".yml" name then
        match content with
        | Mapping o =>
            {| commands :=
                 commands acc
                 ++ [tag (currentRelativePath name) relativePath name o];
               errors := errors acc |}
        | Sequence l =>
            {| commands :=
                 commands acc
                 ++ [tag (currentRelativePath name) relativePath name
                       (Setup.indexed 0 l)];
               errors := errors acc |}
        | Malformed | Primitive =>
            {| commands := commands acc;
               errors := errors acc ++ [currentRelativePath name] |}
        end
      else acc
  | Other _ => acc
  end.

Definition loadCommandsFromDirectory (entries : list entry)
    (relativePath : string) (acc : loaded) : loaded :=
  fold_left (fun acc e => load_entry relativePath e acc) entries acc.

(** [loadSourceCommands]: [None] is a source directory that does not
    exist. *)
Definition loadSourceCommands (sourceDir : option (list entry)) : loaded :=
  match sourceDir with
  | None => {| commands := []; errors := [] |}
  | Some entries =>
      loadCommandsFromDirectory entries "" {| commands := []; errors := [] |}
  end.

End Loader.

(** ** The rule table of the specification, in its own words *)

Module Spec.

(** "transport has [httpUrl]: emit [{type:'http', url: httpUrl,
    ...extraFields}]", the extra fields being the fields of the transport
    other than [httpUrl]. *)
Definition http_fragment (transport : props json) (httpUrl : json) : json :=
  JObj (("type", JStr "http") :: ("url", httpUrl)
          :: Obj.without "httpUrl" transport).

(** "missing = requiredTokens not present (non-empty string) in tokens": a
    token is missing when the token set has no entry for it or an empty one. *)
Definition token_missing (tokens : props string) (token : string) : bool :=
  match Obj.get token tokens with
  | Some value => value =? ""
  | None => true
  end.

(** The entries of the [mcpServers] subsection of a configuration. *)
Definition servers_of (config : props json) : props json :=
  match Obj.get "mcpServers" config with
  | Some (JObj servers) => servers
  | _ => []
  end.

Definition selected (names : list string) (k : string) : bool :=
  existsb (String.eqb k) names.

(** The entries of a subsection whose key is not a selected server, in
    order. *)
Definition unselected (names : list string) (servers : props json)
  : props json :=
  filter (fun kv => negb (selected names (fst kv))) servers.

(** The entry a setup function writes for a server: the projection of the
    server for the client, with the tokens substituted. *)
Definition projected (mcpServers : Config.catalog) (setup : Setup.MCPSetup)
    (client serverName : string) (serverConfig : json) : Prop :=
  exists fragment,
    Setup.client_fragment mcpServers serverName client = Ok fragment /\
    Setup.substitute fragment (Setup.server_tokens setup serverName)
      = Ok serverConfig.

(** "[name] and [prompt] are mandatory". *)
Definition valid_document (o : props json) : bool :=
  Obj.has "name" o && Obj.has "prompt" o.

(** The documents of a source area: every file with a recognized extension,
    in traversal order, with its path from the root, the path of its
    directory and what [yaml.load] makes of it. *)
Record located : Type := mkLocated {
  path : string;
  subfolder : string;
  file : string;
  content : Loader.document
}.

Fixpoint documents_of (relativePath : string) (e : Loader.entry)
  : list located :=
  let currentRelativePath name :=
    if relativePath =? "" then name else Loader.join relativePath name in
  match e with
  | Loader.File name content =>
      if Loader.ends_with ".yaml" name || Loader.ends_with ".yml" name
      then [ {| path := currentRelativePath name; subfolder := relativePath;
                file := name; content := content |} ]
      else []
  | Loader.Directory name entries =>
      flat_map (documents_of (currentRelativePath name)) entries
  | Loader.Other _ => []
  end.

Definition documents (entries : list Loader.entry) : list located :=
  flat_map (documents_of "") entries.

(** The command a document is loaded as, when [yaml.load] returns an object
    or an array for it. *)
Definition command_of (d : located) : option Loader.command :=
  match content d with
  | Loader.Mapping o => Some (Loader.tag (path d) (subfolder d) (file d) o)
  | Loader.Sequence l =>
      Some (Loader.tag (path d) (subfolder d) (file d) (Setup.indexed 0 l))
  | Loader.Malformed | Loader.Primitive => None
  end.

Definition loaded (docs : list located) : list Loader.command :=
  flat_map (fun d => match command_of d with Some c => [c] | None => [] end)
    docs.

Definition reported (docs : list located) : list string :=
  flat_map (fun d => match command_of d with Some _ => [] | None => [path d] end)
    docs.

End Spec.

(** ** Sample inputs *)

Module Samples.

Definition sse_transport : props json :=
  [("url", JStr "https://x")].

Definition http_transport : props json :=
  [ ("httpUrl", JStr "https://x");
    ("headers", JObj [("Authorization", JStr "Bearer ${KEY}")]) ].

Definition command_transport : props json :=
  [ ("command", JStr "npx"); ("args", JArr [JStr "my-mcp-server"]) ].

Definition descriptor (requiredTokens : list string)
    (transport : option (props json)) : Config.server :=
  {| Config.name := "My Server";
     Config.description := "My custom MCP server";
     Config.type := "npm";
     Config.requiredTokens := Some requiredTokens;
     Config.config := None;
     Config.transport := transport;
     Config.customGenerators := None |}.

(** A catalog with one server that requires the tokens [A] and [B]. *)
Definition ab_catalog : Config.catalog :=
  [("srv", descriptor ["A"; "B"] None)].

(** A catalog with one server that requires a token named [constructor]. *)
Definition odd_catalog : Config.catalog :=
  [("srv", descriptor ["constructor"] None)].

(** A Claude Desktop file with a preference and one server, written
    without white space, and a setup that selects the [linear] server. *)
Definition desktop_config : props json :=
  [ ("theme", JStr "dark");
    ("mcpServers", JObj [("old", JObj [("command", JStr "old-server")])]) ].

Definition desktop_file : Setup.file :=
  Setup.Present (Json.stringify (JObj desktop_config)).

(** A Gemini settings file without servers, as [fs.writeJson] leaves it. *)
Definition gemini_settings : props json :=
  [ ("theme", JStr "GitHub"); ("selectedAuthType", JStr "oauth-personal") ].

Definition gemini_file : Setup.file :=
  Setup.Present (Setup.writeJson (JObj gemini_settings)).




(** The VS Code fragment of the shipped [github] server, and tokens for
    it; a token whose value holds its own placeholder. *)
Definition bearer_fragment : json :=
  JObj [ ("url", JStr "https://api.githubcopilot.com/mcp/");
         ("authorization_token",
          JStr "Bearer ${GITHUB_PERSONAL_ACCESS_TOKEN}") ].

Definition github_tokens : props string :=
  [("GITHUB_PERSONAL_ACCESS_TOKEN", "ghp_0123456789")].

Definition growing_tokens : props string := [("A", "${A}!")].

Definition workspace_tokens : props string :=
  [("WORKSPACE_FOLDER", "/home/me/project")].

(** A token whose value holds the placeholder of an input; a fragment with
    a token and an input. *)
Definition input_tokens : props string := [("A", "{{X}}")].

Definition prompting_fragment : json :=
  JObj [ ("url", JStr "https://example.com/${REGION}/mcp");
         ("headers", JObj [("Authorization", JStr "Bearer {{api_key}}")]) ].

Definition region_tokens : props string := [("REGION", "eu")].

Definition linear_setup : Setup.MCPSetup :=
  {| Setup.tokens := [];
     Setup.selectedServers := ["linear"];
     Setup.dryRun := false;
     Setup.workspaceFolder := "/tmp" |}.

Definition linear_merged : props json :=
  [ ("theme", JStr "dark");
    ("mcpServers",
     JObj [ ("old", JObj [("command", JStr "old-server")]);
            ("linear",
             JObj [ ("type", JStr "sse");
                    ("url", JStr "https://mcp.linear.app/sse") ]) ]) ].

(** Three command documents, the second without a [prompt]; and three
    documents, the second not YAML. *)
Definition commit : props json :=
  [ ("name", JStr "commit"); ("prompt", JStr "Commit: $ARGUMENTS") ].

Definition review : props json :=
  [ ("name", JStr "review"); ("prompt", JStr "Review the changes") ].

Definition no_prompt : props json :=
  [ ("name", JStr "broken"); ("description", JStr "has no prompt") ].

Definition batch_without_prompt : list Loader.entry :=
  [ Loader.File "commit.yaml" (Loader.Mapping commit);
    Loader.File "broken.yaml" (Loader.Mapping no_prompt);
    Loader.Directory "git"
      [Loader.File "review.yml" (Loader.Mapping review)] ].

Definition batch_malformed : list Loader.entry :=
  [ Loader.File "commit.yaml" (Loader.Mapping commit);
    Loader.File "broken.yaml" Loader.Malformed;
    Loader.Directory "git"
      [Loader.File "review.yml" (Loader.Mapping review)] ].

End Samples.

(** ** Predicates of the statements *)

Section Predicates.
Local Open Scope string_scope.

(** The text holds no occurrence of the character. *)
Definition lacks (c : ascii) (s : string) : bool :=
  Text.all (fun x => negb (Ascii.eqb x c)) s.

Definition no_dollar (s : string) : bool := lacks Text.dollar s.

(** A character [JSON.stringify] writes as it is. *)
Definition verbatim (c : ascii) : bool :=
  ((32 <=? Text.code c) && negb (Text.code c =? 34)
   && negb (Text.code c =? 92))%N.

(** A token value that brings no syntax of its own: neither a quote, a
    backslash or a control character, nor a dollar sign. *)
Definition plain (s : string) : bool :=
  Text.all (fun c => verbatim c && negb (Ascii.eqb c Text.dollar)) s.

(** A token whose name is made of word characters and whose value is
    plain. *)
Definition token_ok (entry : string * string) : bool :=
  Text.all Text.word_char (fst entry) && plain (snd entry).

(** The substitution of the tokens, one after the other, in a string. *)
Definition substitute_string (tokens : props string) (s : string) : string :=
  fold_left
    (fun s entry =>
       Text.replace_all (Config.placeholder (fst entry)) (snd entry) s)
    tokens s.

(** A value whose numbers are integers of the safe range. *)
Fixpoint representable (v : json) : bool :=
  match v with
  | JNum n => (Z.abs n <=? Json.max_safe_integer)%Z
  | JArr items => forallb representable items
  | JObj members => forallb (fun kv => representable (snd kv)) members
  | _ => true
  end.

(** A value as [JSON.parse] builds them: the keys of every object are
    distinct and in enumeration order. *)
Fixpoint well_formed (v : json) : bool :=
  match v with
  | JArr items => forallb well_formed items
  | JObj members =>
      Obj.ordered (Obj.keys members)
      && forallb (fun kv => well_formed (snd kv)) members
  | _ => true
  end.

(** The strings of a value, keys included, and its keys alone. *)
Fixpoint strings_of (v : json) : list string :=
  match v with
  | JStr s => [s]
  | JArr items => flat_map strings_of items
  | JObj members =>
      flat_map (fun kv => fst kv :: strings_of (snd kv)) members
  | _ => []
  end.

Fixpoint keys_of (v : json) : list string :=
  match v with
  | JArr items => flat_map keys_of items
  | JObj members => flat_map (fun kv => fst kv :: keys_of (snd kv)) members
  | _ => []
  end.

(** Every dollar sign of the text begins the placeholder of one of the
    names. *)
Fixpoint covered (names : list string) (s : string) : bool :=
  match s with
  | EmptyString => true
  | String c s' =>
      (if Ascii.eqb c Text.dollar
       then existsb (fun name => prefix (Config.placeholder name) s) names
       else true)
      && covered names s'
  end.

(** A text without dollar sign or brace; a label is such a text made of
    characters [JSON.stringify] writes as they are. *)
Definition simple_char (c : ascii) : bool :=
  negb (Ascii.eqb c Text.dollar) && negb (Ascii.eqb c Text.lbrace)
  && negb (Ascii.eqb c Text.rbrace).

Definition simple (s : string) : bool := Text.all simple_char s.

Definition label (s : string) : bool :=
  Text.all (fun c => verbatim c && simple_char c) s.

(** A token for a VS Code fragment: its value holds no brace either. *)
Definition input_token_ok (entry : string * string) : bool :=
  token_ok entry && simple (snd entry).

(** The strings of a fragment, piece by piece: plain text, the placeholder
    [${name}] of a token and the placeholder [{{name}}] of an input. *)
Inductive segment : Type :=
| Lit (text : string)
| Tok (name : string)
| Inp (name : string).

Definition segment_ok (g : segment) : bool :=
  match g with
  | Lit text => simple text
  | Tok name => label name
  | Inp name => label name && negb (name =? "")
  end.

Definition segment_text (g : segment) : string :=
  match g with
  | Lit text => text
  | Tok name => Config.placeholder name
  | Inp name => "{{" ++ name ++ "}}"
  end.

Definition raw (t : list segment) : string :=
  fold_right (fun g s => segment_text g ++ s) "" t.

Definition templated (s : string) : Prop :=
  exists t, forallb segment_ok t = true /\ s = raw t.

(** A token resolved and an input rewritten, on the pieces. *)
Definition resolve (entry : string * string) (g : segment) : segment :=
  match g with
  | Tok name => if name =? fst entry then Lit (snd entry) else g
  | _ => g
  end.

Definition resolve_all (tokens : props string) (t : list segment)
  : list segment :=
  fold_left (fun t entry => map (resolve entry) t) tokens t.

Definition rewrite_input (g : segment) : segment :=
  match g with
  | Inp name => Tok ("input:" ++ name)
  | _ => g
  end.

(** The two rewritings done each on its own: the inputs of the string as
    it stands in the fragment are rewritten, the tokens are substituted. *)
Definition independent (tokens : props string) (s : string) : string :=
  substitute_string tokens (Text.convert_inputs s).

(** A text in front of which a number literal ends. *)
Definition boundary (rest : string) : bool :=
  match rest with
  | EmptyString => true
  | String c _ => negb (Json.number_char c)
  end.

Definition sign_or_digit (c : ascii) : bool :=
  Json.digit_char c || (Text.code c =? 45)%N.

(** The first character of the text of a value. *)
Definition opening (c : ascii) : bool :=
  negb (Json.is_ws c) && negb (Text.code c =? 93)%N
  && negb (Text.code c =? 125)%N.

Definition entry_text (kv : string * json) : string :=
  let (k, x) := kv in Json.quoted k ++ ":" ++ Json.stringify x.

Definition entry_normalize (kv : string * json) : string * json :=
  let (k, x) := kv in (k, Json.normalize x).

(** Facts about single characters, decided by running through the 256 of
    them. *)
Definition escape_char_check (c : ascii) : bool :=
  if verbatim c then Json.escape_char c =? String c ""
  else match Json.escape_char c with
       | String e r => Ascii.eqb e Text.backslash && no_dollar (String e r)
       | EmptyString => false
       end.

Definition word_char_check (c : ascii) : bool :=
  if Text.word_char c
  then verbatim c && negb (Ascii.eqb c Text.dollar)
       && negb (Ascii.eqb c Text.quote) && negb (Ascii.eqb c Text.rbrace)
       && negb (Ascii.eqb c Text.lbrace)
  else true.

Definition brace_check (c : ascii) : bool :=
  if Ascii.eqb c Text.lbrace then true
  else lacks Text.lbrace (Json.escape_char c).

Definition sign_or_digit_check (c : ascii) : bool :=
  if sign_or_digit c
  then negb (Ascii.eqb c Text.dollar) && Json.number_char c
       && negb (Json.is_ws c)
  else true.

Definition dispatch_check (c : ascii) : bool :=
  if sign_or_digit c
  then opening c && negb (Text.code c =? 123)%N && negb (Text.code c =? 91)%N
       && negb (Text.code c =? 34)%N && negb (Text.code c =? 110)%N
       && negb (Text.code c =? 116)%N && negb (Text.code c =? 102)%N
  else true.

(** An indentation: a text made of spaces. *)
Definition blank (s : string) : bool :=
  Text.all (fun c => (Text.code c =? 32)%N) s.

(** The line of a member in the indented text of an object. *)
Definition entry_line (indent : string) (kv : string * json) : string :=
  let (k, x) := kv in Json.quoted k ++ ": " ++ Json.indented indent x.

(** A value as [JSON.parse] returns them: numbers of the safe range, keys
    in enumeration order. *)
Definition sound (v : json) : bool := representable v && well_formed v.

End Predicates.

(** ** app/setup-mcp.js: the other clients, the tokens and the run *)

Module Clients.

(** The body of the loop of [setupClaudeCode]. *)
Definition add_claudeCode (mcpServers : Config.catalog)
    (setup : Setup.MCPSetup) (config : result (props json))
    (serverName : string) : result (props json) :=
  config <- config ;;
  fragment <- Setup.client_fragment mcpServers serverName "claudeCode" ;;
  serverConfig <-
    Setup.substitute fragment (Setup.server_tokens setup serverName) ;;
  Setup.assign_server config serverName serverConfig.

(** The [try] block of [setupClaudeCode]: the configuration starts from
    [{ mcpServers: {} }], whatever the file holds. *)
Definition claudeCode_config (mcpServers : Config.catalog)
    (setup : Setup.MCPSetup) : result json :=
  config <-
    fold_left (add_claudeCode mcpServers setup) (Setup.selectedServers setup)
      (Ok (Obj.literal [("mcpServers", JObj [])])) ;;
  Ok (JObj config).

Definition setupClaudeCode (mcpServers : Config.catalog)
    (setup : Setup.MCPSetup) (existing : Setup.file)
  : result (bool * Setup.file) :=
  Setup.finish setup existing (claudeCode_config mcpServers setup).

Definition setupVSCode (mcpServers : Config.catalog)
    (setup : Setup.MCPSetup) (existing : Setup.file)
  : result (bool * Setup.file) :=
  Setup.finish setup existing (Setup.vscode_config mcpServers setup).

(** [allRequiredTokens.add(token)]: a [Set] keeps the order of first
    insertion. *)
Definition add_token (seen : list string) (token : string) : list string :=
  if existsb (String.eqb token) seen then seen else seen ++ [token].

(** One turn of the first loop of [collectTokens].  Reading
    [requiredTokens] of [undefined] throws; an inherited member has no
    [requiredTokens]. *)
Definition add_required (mcpServers : Config.catalog)
    (seen : result (list string)) (serverName : string)
  : result (list string) :=
  seen <- seen ;;
  match Config.getServerConfig mcpServers serverName with
  | Own server =>
      match Config.requiredTokens server with
      | Some (token :: tokens) =>
          Ok (fold_left add_token (token :: tokens) seen)
      | _ => Ok seen
      end
  | Inherited => Ok seen
  | Undefined => Throws TypeError
  end.

(** [this.tokens[token] = value] for a string [value]: an assignment that
    goes to the setter of [Object.prototype] changes nothing, since the
    setter ignores a value that is not an object. *)
Definition assign_token (tokens : props string) (token value : string)
  : props string :=
  if to_setter token tokens then tokens else Obj.set token value tokens.

(** [collectTokens]: [answer] is what the prompt returns for a token. *)
Definition collectTokens (mcpServers : Config.catalog)
    (selectedServers : list string) (answer : string -> string)
    (tokens : props string) : result (props string) :=
  allRequiredTokens <-
    fold_left (add_required mcpServers) selectedServers (Ok []) ;;
  Ok (fold_left
        (fun tokens token => assign_token tokens token (answer token))
        allRequiredTokens tokens).

(** The four files the setup functions write, and the answers given to
    the prompts of a run: the two selections, the value of each token and
    the workspace folder entered for each client. *)
Record files : Type := mkFiles {
  claudeCodeFile : Setup.file;
  claudeDesktopFile : Setup.file;
  vscodeFile : Setup.file;
  geminiFile : Setup.file
}.

Record answers : Type := mkAnswers {
  selectedServers : list string;
  selectedClients : list string;
  token : string -> string;
  workspaceFolder : string -> string
}.

Definition includes (x : string) (l : list string) : bool :=
  existsb (String.eqb x) l.

(** [if (this.selectedClients.includes(client)) results[client] = await
    this.setup...()]. *)
Definition configure (selected : list string) (client : string)
    (call : Setup.file -> result (bool * Setup.file))
    (get : files -> Setup.file) (put : Setup.file -> files -> files)
    (state : result (props bool * files)) : result (props bool * files) :=
  state <- state ;;
  if includes client selected then
    r <- call (get (snd state)) ;;
    Ok (Obj.set client (fst r) (fst state), put (snd r) (snd state))
  else Ok state.

(** [run]: the entries of [results], or [None] when the validation of the
    tokens stops the run, and the files left behind. *)
Definition run (os : Setup.platform) (mcpServers : Config.catalog)
    (dryRun : bool) (a : answers) (f : files)
  : result (option (props bool) * files) :=
  tokens <- collectTokens mcpServers (selectedServers a) (token a) [] ;;
  let setup client :=
    {| Setup.tokens := tokens;
       Setup.selectedServers := selectedServers a;
       Setup.dryRun := dryRun;
       Setup.workspaceFolder := workspaceFolder a client |} in
  let allValid :=
    forallb
      (fun serverName =>
         Config.valid (Config.validateServerTokens mcpServers serverName tokens))
      (selectedServers a) in
  if negb allValid then Ok (None, f)
  else
    state <-
      configure (selectedClients a) "gemini"
        (Setup.setupGeminiCLI mcpServers (setup "gemini")) geminiFile
        (fun x f =>
           {| claudeCodeFile := claudeCodeFile f;
              claudeDesktopFile := claudeDesktopFile f;
              vscodeFile := vscodeFile f; geminiFile := x |})
        (configure (selectedClients a) "vscode"
           (setupVSCode mcpServers (setup "vscode")) vscodeFile
           (fun x f =>
              {| claudeCodeFile := claudeCodeFile f;
                 claudeDesktopFile := claudeDesktopFile f;
                 vscodeFile := x; geminiFile := geminiFile f |})
           (configure (selectedClients a) "claudeDesktop"
              (Setup.setupClaudeDesktop os mcpServers (setup "claudeDesktop"))
              claudeDesktopFile
              (fun x f =>
                 {| claudeCodeFile := claudeCodeFile f;
                    claudeDesktopFile := x;
                    vscodeFile := vscodeFile f; geminiFile := geminiFile f |})
              (configure (selectedClients a) "claudeCode"
                 (setupClaudeCode mcpServers (setup "claudeCode"))
                 claudeCodeFile
                 (fun x f =>
                    {| claudeCodeFile := x;
                       claudeDesktopFile := claudeDesktopFile f;
                       vscodeFile := vscodeFile f;
                       geminiFile := geminiFile f |})
                 (Ok ([], f))))) ;;
    Ok (Some (fst state), snd state).

End Clients.

(** ** commands/convert-commands.js: the three target formats *)

Module Convert.
Local Open Scope string_scope.

Definition nl : string := String "010"%char "".

(** [s.includes(t)]. *)
Fixpoint includes (t s : string) : bool :=
  prefix t s ||
  match s with
  | EmptyString => false
  | String _ s' => includes t s'
  end.

(** [s.toLowerCase()], for code units below 256: the letters A to Z and
    the capital letters of Latin-1. *)
Definition lower (c : ascii) : ascii :=
  let n := Text.code c in
  if ((65 <=? n) && (n <=? 90)
      || (192 <=? n) && (n <=? 222) && negb (n =? 215))%N
  then ascii_of_N (n + 32) else c.

Fixpoint toLowerCase (s : string) : string :=
  match s with
  | EmptyString => EmptyString
  | String c s' => String (lower c) (toLowerCase s')
  end.

(** The conversion of a value to a string, as a template literal and the
    [+] of a string do it.  An array is joined with commas, [null] counting
    for nothing in it; an object is [[object Object]], unless a property
    [toString] of its own, which is no function, stands in the way.  A
    number outside the safe integers is not written as its digits. *)
Fixpoint to_string (v : json) : result string :=
  match v with
  | JNull => Ok "null"
  | JBool b => Ok (if b then "true" else "false")
  | JNum n =>
      if (Z.abs n <=? Json.max_safe_integer)%Z then Ok (Json.number n)
      else Unmodelled
  | JStr s => Ok s
  | JArr items =>
      texts <-
        (fix each (l : list json) : result (list string) :=
           match l with
           | [] => Ok []
           | x :: l' =>
               text <- match x with JNull => Ok "" | _ => to_string x end ;;
               texts <- each l' ;;
               Ok (text :: texts)
           end) items ;;
      Ok (String.concat "," texts)
  | JObj o =>
      if Obj.has "toString" o then Throws TypeError
      else Ok "[object Object]"
  end.

(** The texts [Array.prototype.join] puts together. *)
Fixpoint element_texts (l : list json) : result (list string) :=
  match l with
  | [] => Ok []
  | x :: l' =>
      text <- match x with JNull => Ok "" | _ => to_string x end ;;
      texts <- element_texts l' ;;
      Ok (text :: texts)
  end.

(** A property that may be absent: [undefined] reads "undefined". *)
Definition text_of (v : option json) : result string :=
  match v with
  | Some x => to_string x
  | None => Ok "undefined"
  end.

(** [if (command.k) metadata.push(`<before>${command.k}<after>`)]. *)
Definition optional (before after : string) (v : option json)
  : result (list string) :=
  match v with
  | Some x =>
      if truthy x then text <- to_string x ;; Ok [before ++ text ++ after]
      else Ok []
  | None => Ok []
  end.

(** [command.tools && command.tools.length > 0], and what [join] or [map]
    is then called on: a non-empty array.  A non-empty string has a length
    but neither method; an object with a [length] of its own is outside
    this development. *)
Definition listed_tools (command : props json)
  : result (option (list json)) :=
  match Obj.get "tools" command with
  | Some (JArr (x :: l)) => Ok (Some (x :: l))
  | Some (JStr (String _ _)) => Throws TypeError
  | Some (JObj o) => if Obj.has "length" o then Unmodelled else Ok None
  | _ => Ok None
  end.

(** [command._subfolder] when it is truthy.  A truthy value that is no
    string makes [path.join], or the call of [replace], throw. *)
Definition subfolder (command : props json) : result (option string) :=
  match Obj.get "_subfolder" command with
  | Some (JStr s) => Ok (if s =? "" then None else Some s)
  | Some v => if truthy v then Throws TypeError else Ok None
  | None => Ok None
  end.

(** [metadata.length > 0]: the block between two lines of dashes. *)
Definition frontmatter (metadata : list string) : string :=
  match metadata with
  | [] => ""
  | _ => "---" ++ nl ++ String.concat nl metadata ++ nl ++ "---" ++ nl ++ nl
  end.

(** [command.prompt.replace(/\$ARGUMENTS/g, replacement)]: only a string
    has the method. *)
Definition converted_prompt (replacement : string) (command : props json)
  : result string :=
  match Obj.get "prompt" command with
  | Some (JStr prompt) =>
      Ok (Text.replace_all "$ARGUMENTS" replacement prompt)
  | _ => Throws TypeError
  end.

(** What a conversion hands to [fs.writeFileSync]: the path below the
    directory of the target, as it is displayed, and the content. *)
Record written : Type := mkWritten {
  path : string;
  content : string
}.

(** [`${command._subfolder}/${filename}`], or the file name alone. *)
Definition below (sub : option string) (filename : string) : string :=
  match sub with
  | Some s => s ++ "/" ++ filename
  | None => filename
  end.

Definition claude_content (command : props json) : result string :=
  tools <- listed_tools command ;;
  allowed <-
    match tools with
    | Some l =>
        texts <- element_texts l ;;
        Ok ["allowed-tools: " ++ String.concat ", " texts]
    | None => Ok []
    end ;;
  hint <- optional "argument-hint: " "" (Obj.get "arguments" command) ;;
  description <- optional "description: " "" (Obj.get "description" command) ;;
  model <- optional "model: " "" (Obj.get "model" command) ;;
  prompt <- text_of (Obj.get "prompt" command) ;;
  Ok (frontmatter (allowed ++ hint ++ description ++ model)%list ++ prompt).

Definition convertToClaudeFormat (command : props json) : result written :=
  content <- claude_content command ;;
  name <- text_of (Obj.get "name" command) ;;
  sub <- subfolder command ;;
  Ok {| path := below sub (name ++ ".md"); content := content |}.

(** The name Copilot gets for a tool.  An array has [includes] as well,
    which looks for an element, and no [toLowerCase]. *)
Definition is_text (t : string) (x : json) : bool :=
  match x with
  | JStr s => s =? t
  | _ => false
  end.

Definition copilot_tool (tool : json) : result string :=
  match tool with
  | JStr s =>
      Ok (if includes "Bash" s then "terminal"
          else if includes "Edit" s then "edit"
          else if includes "Read" s then "read"
          else toLowerCase s)
  | JArr l =>
      if existsb (is_text "Bash") l then Ok "terminal"
      else if existsb (is_text "Edit") l then Ok "edit"
      else if existsb (is_text "Read") l then Ok "read"
      else Throws TypeError
  | _ => Throws TypeError
  end.

Fixpoint copilot_tools (l : list json) : result (list string) :=
  match l with
  | [] => Ok []
  | x :: l' =>
      t <- copilot_tool x ;;
      ts <- copilot_tools l' ;;
      Ok (t :: ts)
  end.

Definition copilot_content (command : props json) : result string :=
  model <- optional "model: '" "'" (Obj.get "model" command) ;;
  tools <- listed_tools command ;;
  listed <-
    match tools with
    | Some l =>
        copilotTools <- copilot_tools l ;;
        let toolsString :=
          String.concat ", " (map (fun t => "'" ++ t ++ "'") copilotTools) in
        Ok ["tools: [" ++ toolsString ++ "]"]
    | None => Ok []
    end ;;
  description <-
    optional "description: '" "'" (Obj.get "description" command) ;;
  prompt <- converted_prompt "${args}" command ;;
  Ok (frontmatter ("mode: 'agent'" :: model ++ listed ++ description)%list
      ++ prompt).

(** The prefix of a Copilot file: [_subfolder.replace(/\//g, '_')]. *)
Definition copilot_name (sub : option string) (name : string) : string :=
  match sub with
  | Some s => Text.replace_all "/" "_" s ++ "_" ++ name ++ ".prompt.md"
  | None => name ++ ".prompt.md"
  end.

Definition convertToCopilotFormat (command : props json) : result written :=
  content <- copilot_content command ;;
  sub <- subfolder command ;;
  name <- text_of (Obj.get "name" command) ;;
  Ok {| path := copilot_name sub name; content := content |}.

Definition quotes : string :=
  String Text.quote (String Text.quote (String Text.quote "")).

Definition gemini_content (command : props json) : result string :=
  description <-
    optional ("description = " ++ String Text.quote "")
      (String Text.quote "" ++ nl ++ nl) (Obj.get "description" command) ;;
  prompt <- converted_prompt "{{args}}" command ;;
  Ok (String.concat "" description
      ++ "prompt = " ++ quotes ++ nl ++ prompt ++ nl ++ quotes).

Definition convertToGeminiFormat (command : props json) : result written :=
  content <- gemini_content command ;;
  name <- text_of (Obj.get "name" command) ;;
  sub <- subfolder command ;;
  Ok {| path := below sub (name ++ ".toml"); content := content |}.

(** One turn of the [try] block of [convertAll]: a conversion is made
    unless an earlier one has thrown; what it throws is caught after the
    block.  No target file exists yet, or the answer is to override. *)
Definition attempt (conversion : result written)
    (state : result (list written * option exn))
  : result (list written * option exn) :=
  state <- state ;;
  match snd state with
  | Some _ => Ok state
  | None =>
      match conversion with
      | Ok w => Ok ((fst state ++ [w])%list, None)
      | Throws e => Ok (fst state, Some e)
      | Unmodelled => Unmodelled
      end
  end.

Definition convert_command (command : props json)
  : result (list written * option exn) :=
  attempt (convertToGeminiFormat command)
    (attempt (convertToCopilotFormat command)
       (attempt (convertToClaudeFormat command) (Ok ([], None)))).

(** The loop of [convertAll]: the name of the command is logged before
    the [try] block. *)
Definition convertAll (commands : list (props json))
  : result (list written) :=
  fold_left
    (fun files command =>
       files <- files ;;
       _ <- text_of (Obj.get "name" command) ;;
       r <- convert_command command ;;
       Ok (files ++ fst r)%list)
    commands (Ok []).

(** The Copilot name [dryRun] announces: the prefix is
    [_subfolder.replace(/[/\\]/g, '_')]. *)
Definition flatten (c : ascii) : ascii :=
  if Ascii.eqb c "/"%char || Ascii.eqb c Text.backslash then "_"%char else c.

Fixpoint flattened (s : string) : string :=
  match s with
  | EmptyString => EmptyString
  | String c s' => String (flatten c) (flattened s')
  end.

Definition announced_copilot_name (sub : option string) (name : string)
  : string :=
  match sub with
  | Some s => flattened s ++ "_" ++ name ++ ".prompt.md"
  | None => name ++ ".prompt.md"
  end.

End Convert.

(** ** What [setupVSCode] does with a server *)

Module Outcome.

(** The entry written for a server: its VS Code fragment, when it has one
    that is not falsy, with the tokens substituted and the inputs
    rewritten. *)
Definition vscode_entry (mcpServers : Config.catalog)
    (tokens : props string) (serverName : string) (serverConfig : json)
  : Prop :=
  exists fragment,
    Setup.client_fragment mcpServers serverName "vscode" = Ok (Own fragment)
    /\ truthy fragment = true
    /\ Setup.vscode_server_config fragment tokens = Ok serverConfig.

(** A server passed over: it has no VS Code fragment, or a falsy one. *)
Definition vscode_skipped (mcpServers : Config.catalog)
    (serverName : string) : Prop :=
  Setup.client_fragment mcpServers serverName "vscode" = Ok Undefined \/
  exists fragment,
    Setup.client_fragment mcpServers serverName "vscode" = Ok (Own fragment)
    /\ truthy fragment = false.

(** The entry [setupGeminiCLI] writes for a server: its Gemini fragment,
    when it has one that is not falsy, with the tokens substituted; and a
    server it passes over. *)
Definition gemini_entry (mcpServers : Config.catalog)
    (setup : Setup.MCPSetup) (serverName : string) (serverConfig : json)
  : Prop :=
  exists fragment,
    Setup.client_fragment mcpServers serverName "gemini" = Ok (Own fragment)
    /\ truthy fragment = true
    /\ Setup.substitute (Own fragment) (Setup.server_tokens setup serverName)
       = Ok serverConfig.

Definition gemini_skipped (mcpServers : Config.catalog)
    (serverName : string) : Prop :=
  Setup.client_fragment mcpServers serverName "gemini" = Ok Undefined \/
  exists fragment,
    Setup.client_fragment mcpServers serverName "gemini" = Ok (Own fragment)
    /\ truthy fragment = false.

End Outcome.


(** ** More sample inputs *)

Module Examples.

Definition two_servers : Setup.MCPSetup :=
  {| Setup.tokens := Samples.github_tokens;
     Setup.selectedServers := ["github"; "filesystem"];
     Setup.dryRun := false;
     Setup.workspaceFolder := "/home/me/project" |}.

Definition unknown_server : Setup.MCPSetup :=
  {| Setup.tokens := Samples.github_tokens;
     Setup.selectedServers := ["github"; "nope"; "linear"];
     Setup.dryRun := false;
     Setup.workspaceFolder := "/home/me/project" |}.



End Examples.

(** * Properties *)

(** ** Ordinary objects *)

Section ObjFacts.
Context {A : Type}.
Implicit Types (o : props A) (k : string) (v : A).

Lemma get_app k o1 o2 :
  Obj.get k (o1 ++ o2) =
  match Obj.get k o1 with Some v => Some v | None => Obj.get k o2 end.
Proof.
  induction o1 as [|[k' v'] o1 IH]; simpl; [reflexivity|].
  destruct (k' =? k); [reflexivity|exact IH].
Qed.

Lemma get_replace k k' v o :
  Obj.get k' (Obj.replace k v o) =
  if k =? k' then match Obj.get k o with Some _ => Some v | None => None end
  else Obj.get k' o.
Proof.
  induction o as [|[k0 v0] o IH]; simpl.
  - destruct (k =? k'); reflexivity.
  - destruct (String.eqb_spec k0 k) as [->|Hk0]; simpl.
    + destruct (k =? k'); reflexivity.
    + rewrite IH. destruct (String.eqb_spec k k') as [->|Hkk'].
      * apply String.eqb_neq in Hk0. rewrite Hk0. reflexivity.
      * reflexivity.
Qed.

Lemma get_insert_index i k k' v o :
  Obj.get k o = None ->
  Obj.get k' (Obj.insert_index i k v o) =
  if k =? k' then Some v else Obj.get k' o.
Proof.
  induction o as [|[k0 v0] o IH]; simpl; [reflexivity|].
  destruct (String.eqb_spec k0 k) as [->|Hk0]; [discriminate|]. intros Hk.
  destruct (Obj.array_index k0) as [j|]; [destruct (j <=? i)%N|]; simpl;
    try reflexivity.
  rewrite IH by assumption.
  destruct (String.eqb_spec k0 k') as [->|]; [|reflexivity].
  apply String.eqb_neq in Hk0. rewrite String.eqb_sym, Hk0. reflexivity.
Qed.

Lemma get_set k k' v o :
  Obj.get k' (Obj.set k v o) = if k =? k' then Some v else Obj.get k' o.
Proof.
  unfold Obj.set, Obj.has. destruct (Obj.get k o) as [w|] eqn:Hk.
  - rewrite get_replace, Hk. reflexivity.
  - destruct (Obj.array_index k) as [i|].
    + apply get_insert_index, Hk.
    + rewrite get_app. simpl. destruct (String.eqb_spec k k') as [<-|].
      * rewrite Hk. reflexivity.
      * destruct (Obj.get k' o); reflexivity.
Qed.

Lemma get_set_same k v o : Obj.get k (Obj.set k v o) = Some v.
Proof. rewrite get_set, String.eqb_refl. reflexivity. Qed.

Lemma get_set_other k k' v o :
  k <> k' -> Obj.get k' (Obj.set k v o) = Obj.get k' o.
Proof.
  intros H. rewrite get_set. apply String.eqb_neq in H. rewrite H. reflexivity.
Qed.

Lemma filter_replace (p : string -> bool) k v o :
  p k = false ->
  filter (fun kv => p (fst kv)) (Obj.replace k v o)
  = filter (fun kv => p (fst kv)) o.
Proof.
  intros Hp. induction o as [|[k0 v0] o IH]; simpl; [reflexivity|].
  destruct (String.eqb_spec k0 k) as [->|]; simpl.
  - rewrite Hp. reflexivity.
  - rewrite IH. reflexivity.
Qed.

Lemma filter_insert_index (p : string -> bool) i k v o :
  p k = false ->
  filter (fun kv => p (fst kv)) (Obj.insert_index i k v o)
  = filter (fun kv => p (fst kv)) o.
Proof.
  intros Hp. induction o as [|[k0 v0] o IH]; simpl.
  - rewrite Hp. reflexivity.
  - destruct (Obj.array_index k0) as [j|]; [destruct (j <=? i)%N|]; simpl;
      rewrite ?Hp, ?IH; reflexivity.
Qed.

(** Assigning [k] leaves the properties a filter keeps, and their order, as
    they were, when the filter does not keep [k]. *)
Lemma filter_set (p : string -> bool) k v o :
  p k = false ->
  filter (fun kv => p (fst kv)) (Obj.set k v o)
  = filter (fun kv => p (fst kv)) o.
Proof.
  intros Hp. unfold Obj.set. destruct (Obj.has k o).
  - apply filter_replace, Hp.
  - destruct (Obj.array_index k).
    + apply filter_insert_index, Hp.
    + rewrite filter_app. simpl. rewrite Hp. apply app_nil_r.
Qed.

Lemma without_set k v o : Obj.without k (Obj.set k v o) = Obj.without k o.
Proof.
  apply (filter_set (fun k' => negb (k' =? k))).
  rewrite String.eqb_refl. reflexivity.
Qed.

Lemma filter_spread (p : string -> bool) (base entries : props A) :
  Forall (fun kv => p (fst kv) = false) entries ->
  filter (fun kv => p (fst kv)) (Obj.spread base entries)
  = filter (fun kv => p (fst kv)) base.
Proof.
  unfold Obj.spread. intros H. revert base.
  induction H as [|[k v] entries Hk _ IH]; intros base; simpl; [reflexivity|].
  rewrite IH. apply filter_set, Hk.
Qed.

Lemma get_without k k' o :
  k <> k' -> Obj.get k (Obj.without k' o) = Obj.get k o.
Proof.
  intros H. unfold Obj.without.
  induction o as [|[k0 v0] o IH]; simpl; [reflexivity|].
  destruct (String.eqb_spec k0 k') as [->|]; simpl.
  - apply String.eqb_neq in H. rewrite String.eqb_sym, H. exact IH.
  - rewrite IH. reflexivity.
Qed.

Lemma get_spread k (base src : props A) :
  Obj.get k (Obj.spread base src) =
  match Obj.get k (rev src) with
  | Some v => Some v
  | None => Obj.get k base
  end.
Proof.
  unfold Obj.spread. revert base.
  induction src as [|[k0 v0] src IH]; intros base; simpl; [reflexivity|].
  rewrite IH, get_app, get_set. simpl.
  destruct (Obj.get k (rev src)); [reflexivity|].
  destruct (k0 =? k); reflexivity.
Qed.

Lemma get_not_in k o : ~ In k (Obj.keys o) -> Obj.get k o = None.
Proof.
  induction o as [|[k0 v0] o IH]; simpl; intros H; [reflexivity|].
  destruct (String.eqb_spec k0 k) as [->|]; [tauto|]. apply IH. tauto.
Qed.

Lemma get_rev k o : NoDup (Obj.keys o) -> Obj.get k (rev o) = Obj.get k o.
Proof.
  induction o as [|[k0 v0] o IH]; simpl; intros H; [reflexivity|].
  inversion H as [|? ? Hnotin Hnd]; subst.
  rewrite get_app, IH by assumption. simpl.
  destruct (String.eqb_spec k0 k) as [->|].
  - rewrite get_not_in by assumption. reflexivity.
  - destruct (Obj.get k o); reflexivity.
Qed.

End ObjFacts.

(** ** The default projectors *)

(** C3.  A transport whose [command] is not populated and whose [url] is:
    the claudeCode, claudeDesktop and vscode generators return exactly
    [{type:'sse', url}] with that url, and the gemini generator returns
    exactly [{httpUrl: url}]; none of the four results is null.  (A field is
    populated when the generator's test of it succeeds, that is when it is
    present and truthy; whether [httpUrl] is populated plays no part.) *)
Theorem url_transport_projection (transport : props json) (url : json) :
  Config.populated transport "command" = None ->
  Config.populated transport "url" = Some url ->
  Config.claudeCode transport = Some (JObj [("type", JStr "sse"); ("url", url)]) /\
  Config.claudeDesktop transport = Some (JObj [("type", JStr "sse"); ("url", url)]) /\
  Config.vscode transport = Some (JObj [("type", JStr "sse"); ("url", url)]) /\
  Config.gemini transport = Some (JObj [("httpUrl", url)]).
Proof.
  intros Hcommand Hurl.
  unfold Config.claudeCode, Config.claudeDesktop, Config.vscode, Config.gemini.
  rewrite Hcommand, Hurl. repeat split; reflexivity.
Qed.

Lemma url_transport_projection_witness :
  Config.claudeCode Samples.sse_transport
    = Some (JObj [("type", JStr "sse"); ("url", JStr "https://x")]) /\
  Config.claudeDesktop Samples.sse_transport
    = Some (JObj [("type", JStr "sse"); ("url", JStr "https://x")]) /\
  Config.vscode Samples.sse_transport
    = Some (JObj [("type", JStr "sse"); ("url", JStr "https://x")]) /\
  Config.gemini Samples.sse_transport
    = Some (JObj [("httpUrl", JStr "https://x")]).
Proof.
  apply (url_transport_projection Samples.sse_transport (JStr "https://x"));
    reflexivity.
Defined.

(** A [url] that is present but empty is not populated: no projection. *)
Lemma empty_url_has_no_projection :
  Config.claudeCode [("url", JStr "")] = None /\
  Config.gemini [("url", JStr "")] = None.
Proof. split; reflexivity. Qed.

(** C4, as stated, fails: the three generators spread the whole transport
    over [{type:'http', url}], so the fragment also carries [httpUrl]. *)
Lemma http_fragment_keeps_httpUrl :
  Config.populated Samples.http_transport "command" = None /\
  Config.populated Samples.http_transport "url" = None /\
  Config.populated Samples.http_transport "httpUrl" = Some (JStr "https://x") /\
  Config.claudeCode Samples.http_transport =
    Some (JObj [ ("type", JStr "http"); ("url", JStr "https://x");
                 ("httpUrl", JStr "https://x");
                 ("headers", JObj [("Authorization", JStr "Bearer ${KEY}")]) ]) /\
  Config.claudeCode Samples.http_transport <>
    Some (Spec.http_fragment Samples.http_transport (JStr "https://x")).
Proof. repeat split; try reflexivity. discriminate. Qed.

(** C4, amended.  A transport (an object: its keys are distinct) whose
    [command] and [url] are not populated and whose [httpUrl] is: the
    claudeCode, claudeDesktop and vscode generators return one and the same
    object, [{type:'http', url: httpUrl}] overlaid with every field of the
    transport.  It holds each field of the transport with the transport's
    value, [httpUrl] among them, [type] and [url] with the generated values
    unless the transport has a field of that name, and nothing else.  The
    gemini generator returns an object with exactly the fields and values of
    the transport. *)
Theorem httpUrl_transport_projection (transport : props json) (httpUrl : json) :
  NoDup (Obj.keys transport) ->
  Config.populated transport "command" = None ->
  Config.populated transport "url" = None ->
  Config.populated transport "httpUrl" = Some httpUrl ->
  exists fragment gfragment : props json,
    Config.claudeCode transport = Some (JObj fragment) /\
    Config.claudeDesktop transport = Some (JObj fragment) /\
    Config.vscode transport = Some (JObj fragment) /\
    Config.gemini transport = Some (JObj gfragment) /\
    (forall k,
        Obj.get k fragment =
        match Obj.get k transport with
        | Some v => Some v
        | None => Obj.get k [("type", JStr "http"); ("url", httpUrl)]
        end) /\
    Obj.get "httpUrl" fragment = Some httpUrl /\
    (forall k, Obj.get k gfragment = Obj.get k transport).
Proof.
  intros Hnodup Hcommand Hurl Hhttp.
  assert (Hown : Obj.get "httpUrl" transport = Some httpUrl).
  { unfold Config.populated in Hhttp.
    destruct (Obj.get "httpUrl" transport) as [v|]; [|discriminate].
    destruct (truthy v); congruence. }
  unfold Config.claudeCode, Config.claudeDesktop, Config.vscode, Config.gemini.
  rewrite Hcommand, Hurl, Hhttp.
  eexists. eexists. repeat split.
  - intros k. rewrite get_spread, get_rev by assumption. reflexivity.
  - rewrite get_spread, get_rev, Hown by assumption. reflexivity.
  - intros k. rewrite get_spread, get_rev by assumption.
    destruct (Obj.get k transport) eqn:Hk; [reflexivity|].
    change (Obj.literal [("httpUrl", httpUrl)]) with [("httpUrl", httpUrl)].
    cbn [Obj.get].
    destruct (String.eqb_spec "httpUrl" k) as [<-|]; [congruence|reflexivity].
Qed.

Lemma httpUrl_transport_projection_witness :
  exists fragment gfragment : props json,
    Config.claudeCode Samples.http_transport = Some (JObj fragment) /\
    Config.claudeDesktop Samples.http_transport = Some (JObj fragment) /\
    Config.vscode Samples.http_transport = Some (JObj fragment) /\
    Config.gemini Samples.http_transport = Some (JObj gfragment) /\
    (forall k,
        Obj.get k fragment =
        match Obj.get k Samples.http_transport with
        | Some v => Some v
        | None => Obj.get k [("type", JStr "http"); ("url", JStr "https://x")]
        end) /\
    Obj.get "httpUrl" fragment = Some (JStr "https://x") /\
    (forall k, Obj.get k gfragment = Obj.get k Samples.http_transport).
Proof.
  apply (httpUrl_transport_projection Samples.http_transport (JStr "https://x")).
  - repeat constructor; simpl; intuition discriminate.
  - reflexivity.
  - reflexivity.
  - reflexivity.
Defined.

(** ** Token validation *)

Lemma token_absent_own (tokens : props string) (token : string) :
  Obj.inherited token = false ->
  Config.token_absent tokens token = Spec.token_missing tokens token.
Proof.
  intros H. unfold Config.token_absent, Spec.token_missing, js_get.
  destruct (Obj.get token tokens); [reflexivity|]. rewrite H. reflexivity.
Qed.

(** For a server of the catalog none of whose required tokens bears the name
    of an [Object.prototype] member, [missing] is [requiredTokens] filtered,
    in order, to the tokens with no entry or an empty entry in the token set,
    and [valid] says that [missing] is empty. *)
Lemma validate_known_server (mcpServers : Config.catalog) (serverName : string)
    (server : Config.server) (tokens : props string) :
  Obj.get serverName mcpServers = Some server ->
  let required :=
    match Config.requiredTokens server with Some l => l | None => [] end in
  let v := Config.validateServerTokens mcpServers serverName tokens in
  Forall (fun token => Obj.inherited token = false) required ->
  Config.missing v = filter (Spec.token_missing tokens) required /\
  (Config.valid v = true <-> Config.missing v = []).
Proof.
  intros Hget required v Hnames. subst v.
  unfold Config.validateServerTokens, js_get. rewrite Hget. cbn zeta.
  fold required. cbn [Config.missing Config.valid]. split.
  - clear Hget. induction Hnames as [|token l Htoken _ IH]; [reflexivity|].
    cbn [filter]. rewrite IH, (token_absent_own tokens token Htoken).
    reflexivity.
  - destruct (filter (Config.token_absent tokens) required); simpl;
      split; congruence.
Qed.

(** The example of the specification: [requiredTokens = ['A','B']] and
    [tokens = {A:'x'}] give [missing = ['B']]. *)
Lemma validate_example :
  Config.validateServerTokens Samples.ab_catalog "srv" [("A", "x")] =
  {| Config.valid := false; Config.missing := ["B"] |}.
Proof. reflexivity. Qed.

(** C7 at its failing input.  The server requires a token named
    [constructor] and the token set is empty: the token has no entry, so the
    claim puts it in [missing]; the read [tokens['constructor']] finds the
    member every object inherits, and the code reports nothing missing. *)
Theorem validate_inherited_token_name :
  Obj.get "srv" Samples.odd_catalog
    = Some (Samples.descriptor ["constructor"] None) /\
  filter (Spec.token_missing []) ["constructor"] = ["constructor"] /\
  Config.validateServerTokens Samples.odd_catalog "srv" [] =
  {| Config.valid := true; Config.missing := [] |}.
Proof. repeat split; reflexivity. Qed.

(** A name that is neither a key of the catalog nor the name of an
    [Object.prototype] member is reported invalid with nothing missing. *)
Lemma validate_unknown_server (mcpServers : Config.catalog)
    (serverName : string) (tokens : props string) :
  Obj.has serverName mcpServers = false ->
  Obj.inherited serverName = false ->
  Config.validateServerTokens mcpServers serverName tokens =
  {| Config.valid := false; Config.missing := [] |}.
Proof.
  unfold Obj.has, Config.validateServerTokens, js_get.
  destruct (Obj.get serverName mcpServers); [discriminate|].
  intros _ ->. reflexivity.
Qed.

(** C10 at its failing input.  [constructor] is not a key of the catalog,
    yet [mcpServers['constructor']] is the inherited member, which is truthy
    and has no [requiredTokens]: the call answers [valid: true]. *)
Theorem validate_inherited_server_name :
  Obj.has "constructor" Config.mcpServers = false /\
  Config.validateServerTokens Config.mcpServers "constructor" [] =
  {| Config.valid := true; Config.missing := [] |}.
Proof. split; reflexivity. Qed.

(** ** Registration *)

Lemma default_generators_truthy (transport : props json) (c : json) :
  (Config.claudeCode transport = Some c \/
   Config.claudeDesktop transport = Some c \/
   Config.vscode transport = Some c \/
   Config.gemini transport = Some c) ->
  truthy c = true.
Proof.
  unfold Config.claudeCode, Config.claudeDesktop, Config.vscode, Config.gemini.
  destruct (Config.populated transport "command"),
    (Config.populated transport "url"),
    (Config.populated transport "httpUrl");
    intros [H|[H|[H|H]]]; inversion H; reflexivity.
Qed.

(** Without custom generators, the configuration built from a transport
    holds, for each of the four clients, what the client's default generator
    returns, and no entry where it returns [null]. *)
Lemma buildConfig_default (transport : props json) :
  let c := Config.buildConfig transport None in
  Obj.get "claudeCode" c = Config.claudeCode transport /\
  Obj.get "claudeDesktop" c = Config.claudeDesktop transport /\
  Obj.get "vscode" c = Config.vscode transport /\
  Obj.get "gemini" c = Config.gemini transport.
Proof.
  pose proof (default_generators_truthy transport) as T.
  unfold Config.buildConfig.
  change (Config.all_generators None)
    with [ ("claudeCode", Config.claudeCode);
           ("claudeDesktop", Config.claudeDesktop);
           ("vscode", Config.vscode); ("gemini", Config.gemini) ].
  cbn [fold_left fst snd].
  change ("claudeCode" =? "__proto__") with false.
  change ("claudeDesktop" =? "__proto__") with false.
  change ("vscode" =? "__proto__") with false.
  change ("gemini" =? "__proto__") with false.
  cbv iota.
  destruct (Config.claudeCode transport) as [c1|];
    [rewrite (T c1) by tauto|];
    (destruct (Config.claudeDesktop transport) as [c2|];
     [rewrite (T c2) by tauto|]);
    (destruct (Config.vscode transport) as [c3|];
     [rewrite (T c3) by tauto|]);
    (destruct (Config.gemini transport) as [c4|];
     [rewrite (T c4) by tauto|]);
    repeat split; reflexivity.
Qed.

(** A command transport has no vscode projection: registration does not
    generate projections for all four clients. *)
Lemma addServer_command_transport_lacks_vscode :
  let d := Samples.descriptor ["MY_TOKEN"] (Some Samples.command_transport) in
  fst (Config.addServer Config.mcpServers "myServer" d) = Ok tt /\
  Config.getClientConfig
    (snd (Config.addServer Config.mcpServers "myServer" d)) "myServer" "claudeCode"
    = Config.Fragment (JObj Samples.command_transport) /\
  Config.getClientConfig
    (snd (Config.addServer Config.mcpServers "myServer" d)) "myServer" "vscode"
    = Config.Null.
Proof. repeat split; vm_compute; reflexivity. Qed.

(** A name that every object inherits is taken for a registered server,
    whatever the catalog holds. *)
Lemma addServer_inherited (mcpServers : Config.catalog) (name : string)
    (serverConfig : Config.server) :
  Obj.has name mcpServers = false ->
  Obj.inherited name = true ->
  Config.addServer mcpServers name serverConfig =
  (Throws (Error ("Server " ++ name ++ " already exists")), mcpServers).
Proof.
  unfold Config.addServer, js_get, Obj.has.
  destruct (Obj.get name mcpServers); [discriminate|].
  intros _ ->. reflexivity.
Qed.

(** C8 at its failing input.  [constructor] is not a key of the shipped
    catalog, so the claim has the registration succeed; the read
    [mcpServers['constructor']] finds the member every object inherits, and
    [addServer] throws "Server constructor already exists" and registers
    nothing. *)
Theorem addServer_inherited_server_name :
  Obj.has "constructor" Config.mcpServers = false /\
  Config.getAvailableServers Config.mcpServers =
    [ "github"; "notionApi"; "linear"; "figma"; "filesystem"; "context7";
      "slack"; "postgresql"; "puppeteer"; "sqlite"; "customServer" ] /\
  Config.addServer Config.mcpServers "constructor"
    (Samples.descriptor ["MY_TOKEN"] (Some Samples.command_transport)) =
  (Throws (Error "Server constructor already exists"), Config.mcpServers).
Proof. repeat split; reflexivity. Qed.

(** For a key that is not the name of an [Object.prototype] member:
    [addServer] throws "Server <key> already exists" exactly when the key is
    in the catalog, and then leaves the catalog as it was; otherwise it
    succeeds, the catalog maps the key to the stored descriptor and every
    other key to what it held.  The stored descriptor is the argument, except
    that a descriptor with a transport and no config gets the config
    [buildConfig(transport, customGenerators)]; without custom generators
    that config holds, for each of the four clients, the fragment the
    client's default generator returns for the transport, and no entry where
    the generator returns [null]. *)
Lemma addServer_registers (mcpServers : Config.catalog) (name : string)
    (serverConfig : Config.server) :
  Obj.inherited name = false ->
  match Config.config serverConfig, Config.transport serverConfig with
  | None, Some t =>
      Config.replaces_prototype t (Config.customGenerators serverConfig)
      = false
  | _, _ => True
  end ->
  let stored :=
    match Config.config serverConfig, Config.transport serverConfig with
    | None, Some t =>
        Config.with_config serverConfig
          (Config.buildConfig t (Config.customGenerators serverConfig))
    | _, _ => serverConfig
    end in
  (Obj.has name mcpServers = true ->
   Config.addServer mcpServers name serverConfig =
   (Throws (Error ("Server " ++ name ++ " already exists")), mcpServers)) /\
  (Obj.has name mcpServers = false ->
   Config.addServer mcpServers name serverConfig =
   (Ok tt, Obj.set name stored mcpServers) /\
   Obj.get name (Obj.set name stored mcpServers) = Some stored /\
   (forall k, k <> name ->
      Obj.get k (Obj.set name stored mcpServers) = Obj.get k mcpServers)) /\
  (forall t, Config.config serverConfig = None ->
     Config.transport serverConfig = Some t ->
     Config.customGenerators serverConfig = None ->
     exists c, Config.config stored = Some c /\
       Obj.get "claudeCode" c = Config.claudeCode t /\
       Obj.get "claudeDesktop" c = Config.claudeDesktop t /\
       Obj.get "vscode" c = Config.vscode t /\
       Obj.get "gemini" c = Config.gemini t).
Proof.
  intros Hname Hordinary stored. unfold Config.addServer, js_get, Obj.has.
  rewrite Hname. repeat split.
  - destruct (Obj.get name mcpServers); [reflexivity|discriminate].
  - destruct (Obj.get name mcpServers); [discriminate|].
    subst stored.
    destruct (Config.config serverConfig); [reflexivity|].
    destruct (Config.transport serverConfig); [|reflexivity].
    rewrite Hordinary. reflexivity.
  - apply get_set_same.
  - intros k Hk. apply get_set_other. congruence.
  - intros t Hc Ht Hg. subst stored. rewrite Hc, Ht, Hg.
    eexists. split; [reflexivity|]. apply buildConfig_default.
Qed.

(** ** Reading the properties of an object *)

Lemma js_get_own {A : Type} (o : props A) (k : string) (a : A) :
  js_get o k = Own a -> Obj.get k o = Some a.
Proof.
  unfold js_get. destruct (Obj.get k o); [congruence|].
  destruct (Obj.inherited k); discriminate.
Qed.

Lemma get_in {A : Type} (k : string) (v : A) (o : props A) :
  Obj.get k o = Some v -> In (k, v) o.
Proof.
  induction o as [|[k0 v0] o IH]; simpl; [discriminate|].
  destruct (String.eqb_spec k0 k) as [->|].
  - intros [= ->]. left. reflexivity.
  - intros H. right. apply IH, H.
Qed.

Lemma selected_in (names : list string) (k : string) :
  Spec.selected names k = true <-> In k names.
Proof.
  unfold Spec.selected. rewrite existsb_exists. split.
  - intros [x [Hin Hx]]. apply String.eqb_eq in Hx. subst. exact Hin.
  - intros H. exists k. split; [exact H|apply String.eqb_refl].
Qed.

Lemma without_get_other {A : Type} (k : string) (o o' : props A) :
  Obj.without k o = Obj.without k o' ->
  forall k', k' <> k -> Obj.get k' o = Obj.get k' o'.
Proof.
  intros H k' Hk'.
  rewrite <- (get_without k' k o), <- (get_without k' k o') by assumption.
  rewrite H. reflexivity.
Qed.

(** ** Loading command documents *)

Lemma load_entry_spec (e : Loader.entry) :
  forall relativePath acc,
  Loader.load_entry relativePath e acc =
  {| Loader.commands :=
       Loader.commands acc ++ Spec.loaded (Spec.documents_of relativePath e);
     Loader.errors :=
       Loader.errors acc ++ Spec.reported (Spec.documents_of relativePath e) |}.
Proof.
  induction e as [name content|name entries IH|name] using Loader.entry_ind;
    intros relativePath acc.
  - simpl.
    destruct (Loader.ends_with ".yaml" name || Loader.ends_with ".yml" name);
      [|destruct acc; simpl; rewrite !app_nil_r; reflexivity].
    destruct content; simpl; rewrite ?app_nil_r; reflexivity.
  - simpl.
    set (sub := if relativePath =? "" then name
                else Loader.join relativePath name).
    revert acc. induction IH as [|e entries He _ IHentries]; intros acc; simpl.
    + destruct acc; simpl; rewrite !app_nil_r; reflexivity.
    + rewrite IHentries, He. simpl. unfold Spec.loaded, Spec.reported.
      rewrite !flat_map_app, !app_assoc. reflexivity.
  - destruct acc; simpl; rewrite !app_nil_r; reflexivity.
Qed.

Lemma loadCommandsFromDirectory_spec (entries : list Loader.entry) :
  forall relativePath acc,
  Loader.loadCommandsFromDirectory entries relativePath acc =
  {| Loader.commands :=
       Loader.commands acc
       ++ Spec.loaded (flat_map (Spec.documents_of relativePath) entries);
     Loader.errors :=
       Loader.errors acc
       ++ Spec.reported (flat_map (Spec.documents_of relativePath) entries) |}.
Proof.
  unfold Loader.loadCommandsFromDirectory.
  induction entries as [|e entries IH]; intros relativePath acc; simpl.
  - destruct acc; simpl; rewrite !app_nil_r; reflexivity.
  - rewrite IH, load_entry_spec. simpl. unfold Spec.loaded, Spec.reported.
    rewrite !flat_map_app, !app_assoc. reflexivity.
Qed.

(** C6, as stated, fails: the loader does not look at [name] or [prompt].
    Of three documents, the second without a [prompt], all three are
    loaded, and no error is reported. *)
Lemma document_without_prompt_is_loaded :
  Spec.valid_document Samples.no_prompt = false /\
  Loader.commands (Loader.loadSourceCommands (Some Samples.batch_without_prompt))
  = [ Loader.tag "commit.yaml" "" "commit.yaml" Samples.commit;
      Loader.tag "broken.yaml" "" "broken.yaml" Samples.no_prompt;
      Loader.tag "git/review.yml" "git" "review.yml" Samples.review ] /\
  Loader.errors (Loader.loadSourceCommands (Some Samples.batch_without_prompt))
  = [].
Proof. repeat split; reflexivity. Qed.

(** C6, amended.  The loader returns one command for every document that
    [yaml.load] turns into an object or an array, whether or not it has a
    [name] or a [prompt], in traversal order and tagged with its place; it
    leaves out every document for which [yaml.load] throws or returns a
    primitive value, and reports exactly one error for each of them; no
    document aborts the batch: every document is either loaded or
    reported. *)
Theorem load_batch (entries : list Loader.entry) :
  let docs := Spec.documents entries in
  let batch := Loader.loadSourceCommands (Some entries) in
  Loader.commands batch = Spec.loaded docs /\
  Loader.errors batch = Spec.reported docs /\
  length (Loader.commands batch) + length (Loader.errors batch) = length docs.
Proof.
  cbn zeta. unfold Loader.loadSourceCommands.
  rewrite loadCommandsFromDirectory_spec. simpl.
  fold (Spec.documents entries). repeat split.
  unfold Spec.loaded, Spec.reported.
  induction (Spec.documents entries) as [|d docs IH]; simpl; [reflexivity|].
  rewrite !length_app, <- IH.
  destruct (Spec.command_of d); simpl; lia.
Qed.

(** The batch of the specification: of three documents, one malformed, the
    two others are loaded and one error is reported. *)
Lemma load_batch_malformed :
  Loader.loadSourceCommands (Some Samples.batch_malformed) =
  {| Loader.commands :=
       [ Loader.tag "commit.yaml" "" "commit.yaml" Samples.commit;
         Loader.tag "git/review.yml" "git" "review.yml" Samples.review ];
     Loader.errors := ["broken.yaml"] |}.
Proof. reflexivity. Qed.

(** ** Text *)

Section TextFacts.
Local Open Scope string_scope.
Implicit Types (s r pat : string) (c : ascii).

Lemma append_nil_r s : s ++ "" = s.
Proof. induction s as [|c s IH]; simpl; [reflexivity|rewrite IH; reflexivity]. Qed.

Lemma append_assoc s1 s2 s3 : (s1 ++ s2) ++ s3 = s1 ++ (s2 ++ s3).
Proof. induction s1 as [|c s1 IH]; simpl; [reflexivity|rewrite IH; reflexivity]. Qed.

Lemma length_append s1 s2 :
  String.length (s1 ++ s2) = String.length s1 + String.length s2.
Proof. induction s1 as [|c s1 IH]; simpl; [reflexivity|rewrite IH; reflexivity]. Qed.

Lemma drop_append s r : Text.drop (String.length s) (s ++ r) = r.
Proof. induction s as [|c s IH]; simpl; [reflexivity|exact IH]. Qed.

Lemma length_drop n s : String.length (Text.drop n s) <= String.length s.
Proof.
  revert s. induction n as [|n IH]; intros [|c s]; simpl; try lia.
  specialize (IH s). lia.
Qed.

Lemma prefix_append pat r : prefix pat (pat ++ r) = true.
Proof.
  induction pat as [|c pat IH]; simpl; [destruct r; reflexivity|].
  destruct (ascii_dec c c); [exact IH|contradiction].
Qed.

Lemma prefix_split pat s :
  prefix pat s = true -> s = pat ++ Text.drop (String.length pat) s.
Proof.
  revert s. induction pat as [|c pat IH]; intros [|d s]; simpl; try reflexivity;
    try discriminate.
  destruct (ascii_dec c d) as [->|]; [|discriminate].
  intros H. rewrite <- (IH _ H). reflexivity.
Qed.

Lemma prefix_cons c pat d s :
  prefix (String c pat) (String d s) = (Ascii.eqb c d && prefix pat s)%bool.
Proof.
  simpl. destruct (ascii_dec c d) as [->|Hne].
  - rewrite Ascii.eqb_refl. reflexivity.
  - apply Ascii.eqb_neq in Hne. rewrite Hne. reflexivity.
Qed.

Lemma all_append p s1 s2 :
  Text.all p (s1 ++ s2) = (Text.all p s1 && Text.all p s2)%bool.
Proof.
  induction s1 as [|c s1 IH]; simpl; [reflexivity|].
  rewrite IH, andb_assoc. reflexivity.
Qed.

End TextFacts.

Lemma code_eqb (c d : ascii) :
  (Text.code c =? Text.code d)%N = Ascii.eqb c d.
Proof.
  destruct (Ascii.eqb_spec c d) as [->|Hne].
  - apply N.eqb_refl.
  - apply N.eqb_neq. intros H. apply Hne.
    rewrite <- (ascii_N_embedding c), <- (ascii_N_embedding d).
    unfold Text.code in H. rewrite H. reflexivity.
Qed.

Section PrefixFacts.
Local Open Scope string_scope.
Implicit Types (s r a b : string) (c : ascii).


Lemma prefix_weaken pat a b : prefix pat a = true -> prefix pat (a ++ b) = true.
Proof.
  intros H. rewrite (prefix_split _ _ H), append_assoc. apply prefix_append.
Qed.

(** A match that starts before a character the pattern does not hold ends
    before it. *)
Lemma prefix_before pat c a b :
  lacks c pat = true ->
  prefix pat (a ++ String c b) = true -> prefix pat a = true.
Proof.
  unfold lacks. revert a. induction pat as [|e pat IH]; intros a Hc H.
  - destruct a; reflexivity.
  - simpl in Hc. apply andb_prop in Hc. destruct Hc as [He Hpat].
    destruct a as [|d a].
    + simpl in H. destruct (ascii_dec e c) as [->|]; [|discriminate].
      rewrite Ascii.eqb_refl in He. discriminate.
    + simpl in H |- *. destruct (ascii_dec e d); [|discriminate].
      apply IH; assumption.
Qed.

Lemma prefix_head p pat c s :
  Ascii.eqb p c = false -> prefix (String p pat) (String c s) = false.
Proof.
  intros H. simpl. destruct (ascii_dec p c) as [->|]; [|reflexivity].
  rewrite Ascii.eqb_refl in H. discriminate.
Qed.

End PrefixFacts.

(** *** Replacement of a literal pattern by a text without dollar signs *)

Section ReplaceFacts.
Local Open Scope string_scope.
Implicit Types (s r : string) (c : ascii).


Lemma get_substitution_plain matched before after replacement :
  no_dollar replacement = true ->
  Text.get_substitution matched before after replacement = replacement.
Proof.
  unfold no_dollar, lacks.
  induction replacement as [|c r IH]; simpl; [reflexivity|].
  intros H. apply andb_prop in H. destruct H as [Hc Hr].
  change 36%N with (Text.code Text.dollar). rewrite code_eqb.
  destruct (Ascii.eqb c Text.dollar); [discriminate|].
  rewrite IH by assumption. reflexivity.
Qed.

Variables pat rep : string.
Hypothesis rep_plain : no_dollar rep = true.

Lemma replace_from_skip s :
  forall before before' k,
  Text.replace_from pat rep before k s
  = Text.replace_from pat rep before' 0 (Text.drop k s).
Proof.
  induction s as [|c s IH]; intros before before' k.
  - destruct k; reflexivity.
  - destruct k as [|k].
    + simpl. rewrite !get_substitution_plain by assumption.
      rewrite (IH (before ++ String c "") (before' ++ String c "")
                 (String.length pat - 1)).
      rewrite (IH (before ++ String c "") (before' ++ String c "") 0).
      rewrite (IH (before' ++ String c "") (before' ++ String c "")
                 (String.length pat - 1)).
      reflexivity.
    + simpl. apply IH.
Qed.

Lemma replace_all_nil : Text.replace_all pat rep "" = "".
Proof. reflexivity. Qed.

Lemma replace_all_match s :
  pat <> "" -> prefix pat s = true ->
  Text.replace_all pat rep s
  = rep ++ Text.replace_all pat rep (Text.drop (String.length pat) s).
Proof.
  intros Hpat H. destruct s as [|c s].
  - destruct pat; [contradiction|discriminate].
  - unfold Text.replace_all. cbn [Text.replace_from]. rewrite H.
    rewrite get_substitution_plain by assumption.
    rewrite (replace_from_skip s _ "" (String.length pat - 1)).
    destruct pat as [|p pat']; [contradiction|]. simpl.
    rewrite Nat.sub_0_r. reflexivity.
Qed.

Lemma replace_all_step c s :
  prefix pat (String c s) = false ->
  Text.replace_all pat rep (String c s) = String c (Text.replace_all pat rep s).
Proof.
  intros H. unfold Text.replace_all. cbn [Text.replace_from]. rewrite H.
  rewrite (replace_from_skip s _ "" 0). reflexivity.
Qed.

End ReplaceFacts.

Section DollarPattern.
Local Open Scope string_scope.
Implicit Types (s r a b : string) (c : ascii).

Variables body rep : string.
Hypothesis rep_plain : no_dollar rep = true.

Let pat : string := String Text.dollar body.
Let R : string -> string := Text.replace_all pat rep.

Lemma no_dollar_head c s :
  no_dollar (String c s) = true -> Ascii.eqb Text.dollar c = false.
Proof.
  unfold no_dollar, lacks. simpl. intros H.
  apply andb_prop in H. destruct H as [Hc _].
  apply negb_true_iff in Hc. rewrite Ascii.eqb_sym in Hc. exact Hc.
Qed.

(** No match starts in a text without dollar signs. *)
Lemma replace_all_plain a b :
  no_dollar a = true -> R (a ++ b) = a ++ R b.
Proof.
  induction a as [|c a IH]; intros H; [reflexivity|].
  simpl. unfold R. rewrite replace_all_step.
  - fold R. rewrite IH; [reflexivity|].
    unfold no_dollar, lacks in *. simpl in H. apply andb_prop in H. tauto.
  - assumption.
  - apply prefix_head, (no_dollar_head c a), H.
Qed.

Lemma replace_all_fixed a : no_dollar a = true -> R a = a.
Proof.
  intros H. rewrite <- (append_nil_r a) at 1.
  rewrite replace_all_plain by assumption. unfold R.
  rewrite replace_all_nil, append_nil_r. reflexivity.
Qed.

Lemma replace_all_hit b : R (pat ++ b) = rep ++ R b.
Proof.
  unfold R. rewrite replace_all_match.
  - rewrite drop_append. reflexivity.
  - assumption.
  - discriminate.
  - apply prefix_append.
Qed.

(** A character outside the body of the pattern separates the matches
    before it from the matches after it. *)
Lemma replace_all_separated c a b :
  lacks c body = true ->
  R (a ++ String c b) = R a ++ R (String c b).
Proof.
  intros Hc.
  assert (H : forall n a, String.length a <= n ->
              R (a ++ String c b) = R a ++ R (String c b)).
  { clear a. induction n as [|n IH]; intros a Hn.
    - destruct a; [reflexivity|simpl in Hn; lia].
    - destruct a as [|d a]; [reflexivity|].
      destruct (prefix pat (String d a ++ String c b)) eqn:Hp.
      + assert (Hpa : prefix pat (String d a) = true).
        { unfold pat in *. cbn [append] in Hp.
          rewrite prefix_cons in Hp |- *.
          apply andb_prop in Hp. destruct Hp as [-> Hp].
          eapply prefix_before; eassumption. }
        pose proof (prefix_split _ _ Hpa) as Ha.
        set (r := Text.drop (String.length pat) (String d a)) in *.
        assert (Hr : String.length r <= n).
        { apply (f_equal String.length) in Ha.
          rewrite length_append in Ha. unfold pat in Ha. simpl in Ha, Hn. lia. }
        rewrite Ha, append_assoc, !replace_all_hit, (IH r Hr), append_assoc.
        reflexivity.
      + assert (Hpa : prefix pat (String d a) = false).
        { destruct (prefix pat (String d a)) eqn:E; [|reflexivity].
          apply (prefix_weaken _ _ (String c b)) in E. congruence. }
        cbn [append] in Hp |- *. unfold R.
        rewrite !replace_all_step by assumption. fold R.
        rewrite IH by (simpl in Hn; lia). reflexivity. }
  apply (H (String.length a)). lia.
Qed.

Lemma replace_all_separator c a b :
  lacks c pat = true ->
  R (a ++ String c b) = R a ++ String c (R b).
Proof.
  intros Hc. unfold lacks, pat in Hc. simpl in Hc.
  apply andb_prop in Hc. destruct Hc as [Hhead Hbody].
  rewrite replace_all_separated by exact Hbody. f_equal.
  unfold R. apply replace_all_step; [assumption|].
  apply prefix_head. apply negb_true_iff in Hhead. exact Hhead.
Qed.

End DollarPattern.

(** ** JSON text *)





Section EscapeFacts.
Local Open Scope string_scope.
Implicit Types (s r a b : string) (c : ascii).


Lemma escape_char_checked c : escape_char_check c = true.
Proof. destruct c as [[] [] [] [] [] [] [] []]; vm_compute; reflexivity. Qed.

Lemma escape_char_verbatim c :
  verbatim c = true -> Json.escape_char c = String c "".
Proof.
  intros H. pose proof (escape_char_checked c) as E.
  unfold escape_char_check in E. rewrite H in E. apply String.eqb_eq, E.
Qed.

Lemma escape_char_escaped c :
  verbatim c = false ->
  exists r, Json.escape_char c = String Text.backslash r /\
            no_dollar (String Text.backslash r) = true.
Proof.
  intros H. pose proof (escape_char_checked c) as E.
  unfold escape_char_check in E. rewrite H in E.
  destruct (Json.escape_char c) as [|e r]; [discriminate|].
  apply andb_prop in E. destruct E as [He Hr].
  apply Ascii.eqb_eq in He. subst e. exists r. auto.
Qed.

Lemma escape_append a b : Json.escape (a ++ b) = Json.escape a ++ Json.escape b.
Proof.
  induction a as [|c a IH]; simpl; [reflexivity|].
  rewrite IH, append_assoc. reflexivity.
Qed.

Lemma escape_verbatim a : Text.all verbatim a = true -> Json.escape a = a.
Proof.
  induction a as [|c a IH]; simpl; [reflexivity|]. intros H.
  apply andb_prop in H. destruct H as [Hc Ha].
  rewrite escape_char_verbatim, IH by assumption. reflexivity.
Qed.

Lemma verbatim_not_backslash c :
  verbatim c = true -> Ascii.eqb c Text.backslash = false.
Proof.
  unfold verbatim. intros H. rewrite <- code_eqb.
  apply andb_prop in H. destruct H as [_ H]. apply negb_true_iff in H. exact H.
Qed.

(** A pattern of verbatim characters matches in the escaped text where it
    matches in the string. *)
Lemma prefix_escape pat s :
  Text.all verbatim pat = true ->
  prefix pat (Json.escape s) = prefix pat s.
Proof.
  revert s. induction pat as [|e pat IH]; intros s H.
  - destruct s, (Json.escape _); reflexivity.
  - simpl in H. apply andb_prop in H. destruct H as [He Hpat].
    destruct s as [|c s]; [reflexivity|].
    cbn [Json.escape]. destruct (verbatim c) eqn:Hc.
    + rewrite escape_char_verbatim by assumption. cbn [append].
      rewrite !prefix_cons, IH by assumption. reflexivity.
    + destruct (escape_char_escaped c Hc) as (r & -> & _). cbn [append].
      rewrite !prefix_cons, (verbatim_not_backslash e He).
      destruct (Ascii.eqb_spec e c) as [->|]; [congruence|reflexivity].
Qed.

End EscapeFacts.

Section PlaceholderFacts.
Local Open Scope string_scope.
Implicit Types (s r a b : string) (c : ascii).


Lemma word_char_checked c : word_char_check c = true.
Proof. destruct c as [[] [] [] [] [] [] [] []]; vm_compute; reflexivity. Qed.

Lemma all_impl (p q : ascii -> bool) s :
  (forall c, p c = true -> q c = true) ->
  Text.all p s = true -> Text.all q s = true.
Proof.
  intros Hpq. induction s as [|c s IH]; simpl; [reflexivity|].
  intros H. apply andb_prop in H. destruct H as [Hc Hs].
  rewrite (Hpq c Hc), IH by assumption. reflexivity.
Qed.

Lemma word_char_facts c :
  Text.word_char c = true ->
  verbatim c = true /\ Ascii.eqb c Text.dollar = false /\
  Ascii.eqb c Text.quote = false /\ Ascii.eqb c Text.rbrace = false /\
  Ascii.eqb c Text.lbrace = false.
Proof.
  intros H. pose proof (word_char_checked c) as E.
  unfold word_char_check in E. rewrite H in E.
  apply andb_prop in E. destruct E as [E H5].
  apply andb_prop in E. destruct E as [E H4].
  apply andb_prop in E. destruct E as [E H3].
  apply andb_prop in E. destruct E as [H1 H2].
  apply negb_true_iff in H2, H3, H4, H5. auto.
Qed.

Variable key : string.
Hypothesis key_word : Text.all Text.word_char key = true.

Let body : string := "{" ++ key ++ "}".

Lemma placeholder_body : Config.placeholder key = String Text.dollar body.
Proof. reflexivity. Qed.

Lemma all_body (p : ascii -> bool) :
  p "{"%char = true -> p "}"%char = true ->
  (forall c, Text.word_char c = true -> p c = true) ->
  Text.all p body = true.
Proof.
  intros H1 H2 H. unfold body. cbn [append Text.all].
  rewrite H1, all_append. cbn [Text.all]. rewrite H2.
  rewrite (all_impl _ _ _ H key_word). reflexivity.
Qed.

Lemma body_no_dollar : no_dollar body = true.
Proof.
  apply all_body; try reflexivity.
  intros c Hc. destruct (word_char_facts c Hc) as (_ & -> & _). reflexivity.
Qed.

Lemma placeholder_lacks_quote : lacks Text.quote (Config.placeholder key) = true.
Proof.
  rewrite placeholder_body. unfold lacks. cbn [Text.all].
  rewrite all_body; try reflexivity.
  intros c Hc. destruct (word_char_facts c Hc) as (_ & _ & -> & _). reflexivity.
Qed.

Lemma placeholder_verbatim : Text.all verbatim (Config.placeholder key) = true.
Proof.
  rewrite placeholder_body. cbn [Text.all].
  rewrite all_body; try reflexivity.
  intros c Hc. destruct (word_char_facts c Hc) as (-> & _). reflexivity.
Qed.

Variable value : string.
Hypothesis value_plain : plain value = true.

Lemma plain_no_dollar : no_dollar value = true.
Proof.
  eapply all_impl; [|exact value_plain]. intros c H.
  apply andb_prop in H. tauto.
Qed.

Lemma plain_verbatim : Text.all verbatim value = true.
Proof.
  eapply all_impl; [|exact value_plain]. intros c H.
  apply andb_prop in H. tauto.
Qed.

Let R : string -> string :=
  Text.replace_all (Config.placeholder key) value.

(** Replacing in the escaped text is escaping the replaced string. *)
Lemma replace_escape s : R (Json.escape s) = Json.escape (R s).
Proof.
  assert (H : forall n s, String.length s <= n ->
              R (Json.escape s) = Json.escape (R s)).
  { clear s. induction n as [|n IH]; intros s Hn.
    - destruct s; [reflexivity|simpl in Hn; lia].
    - destruct s as [|c s]; [reflexivity|].
      destruct (prefix (Config.placeholder key) (String c s)) eqn:Hp.
      + pose proof (prefix_split _ _ Hp) as Hs.
        set (r := Text.drop _ _) in Hs.
        assert (Hr : String.length r <= n).
        { apply (f_equal String.length) in Hs. rewrite length_append in Hs.
          simpl in Hs, Hn. lia. }
        rewrite Hs, escape_append, (escape_verbatim _ placeholder_verbatim).
        unfold R. rewrite placeholder_body.
        rewrite !(replace_all_hit _ _ plain_no_dollar).
        rewrite <- placeholder_body. fold R.
        rewrite (IH r Hr), escape_append, (escape_verbatim _ plain_verbatim).
        reflexivity.
      + unfold R at 2.
        rewrite (replace_all_step _ _ plain_no_dollar) by assumption.
        fold R. cbn [Json.escape]. rewrite <- (IH s) by (simpl in Hn; lia).
        destruct (verbatim c) eqn:Hc.
        * rewrite escape_char_verbatim by assumption. cbn [append].
          unfold R. apply (replace_all_step _ _ plain_no_dollar).
          rewrite <- Hp.
          change (String c (Json.escape s))
            with (String c "" ++ Json.escape s).
          rewrite <- (escape_char_verbatim c Hc).
          apply (prefix_escape _ (String c s) placeholder_verbatim).
        * destruct (escape_char_escaped c Hc) as (r & -> & Hr).
          unfold R. rewrite placeholder_body.
          apply (replace_all_plain _ _ plain_no_dollar). exact Hr. }
  apply (H (String.length s)). lia.
Qed.

Lemma replace_quoted s rest :
  R (Json.quoted s ++ rest) = Json.quoted (R s) ++ R rest.
Proof.
  unfold Json.quoted. cbn [append]. rewrite append_assoc. cbn [append].
  change (String Text.quote (Json.escape s ++ String Text.quote rest))
    with (String Text.quote "" ++ (Json.escape s ++ String Text.quote rest)).
  pose proof placeholder_lacks_quote as Hq. pose proof (replace_escape s) as He.
  unfold R in *. rewrite placeholder_body in *.
  rewrite (replace_all_plain _ _ plain_no_dollar) by reflexivity.
  rewrite (replace_all_separator _ _ plain_no_dollar) by exact Hq.
  rewrite He, append_assoc. reflexivity.
Qed.

End PlaceholderFacts.

Section NumberFacts.
Local Open Scope string_scope.


Lemma uint_digits d : Text.all Json.digit_char (NilEmpty.string_of_uint d) = true.
Proof. induction d; simpl; try rewrite IHd; reflexivity. Qed.

Lemma number_digits n : Text.all sign_or_digit (Json.number n) = true.
Proof.
  assert (H : forall d, Text.all sign_or_digit (NilZero.string_of_uint d) = true).
  { intros d. eapply all_impl with (p := Json.digit_char).
    - intros c Hc. unfold sign_or_digit. rewrite Hc. reflexivity.
    - destruct d; try apply uint_digits. reflexivity. }
  unfold Json.number. destruct (Z.to_int n); simpl; [apply H|].
  rewrite H. reflexivity.
Qed.


Lemma sign_or_digit_checked c : sign_or_digit_check c = true.
Proof. destruct c as [[] [] [] [] [] [] [] []]; vm_compute; reflexivity. Qed.

Lemma number_no_dollar n : no_dollar (Json.number n) = true.
Proof.
  eapply all_impl; [|apply number_digits]. intros c Hc.
  pose proof (sign_or_digit_checked c) as E.
  unfold sign_or_digit_check in E. rewrite Hc in E.
  apply andb_prop in E. destruct E as [E _].
  apply andb_prop in E. tauto.
Qed.

End NumberFacts.

Section ReplaceStringify.
Local Open Scope string_scope.

Variables key value : string.
Hypothesis key_word : Text.all Text.word_char key = true.
Hypothesis value_plain : plain value = true.

Let R : string -> string :=
  Text.replace_all (Config.placeholder key) value.

Lemma replace_structure a b : no_dollar a = true -> R (a ++ b) = a ++ R b.
Proof.
  unfold R. rewrite placeholder_body.
  apply replace_all_plain, plain_no_dollar, value_plain.
Qed.

Lemma replace_join close (texts texts' : list string) :
  no_dollar close = true ->
  Forall2 (fun t t' => forall rest, R (t ++ rest) = t' ++ R rest) texts texts' ->
  forall rest,
  R (Json.join close texts ++ rest) = Json.join close texts' ++ R rest.
Proof.
  intros Hclose H. induction H as [|t t' texts texts' Ht Hrest IH]; intros rest.
  - simpl. apply replace_structure, Hclose.
  - destruct Hrest as [|u u' texts texts' Hu Hrest].
    + simpl. rewrite !append_assoc, Ht. f_equal.
      apply replace_structure, Hclose.
    + change (Json.join close (t :: u :: texts))
        with (t ++ "," ++ Json.join close (u :: texts)).
      change (Json.join close (t' :: u' :: texts'))
        with (t' ++ "," ++ Json.join close (u' :: texts')).
      rewrite !append_assoc, Ht. f_equal.
      rewrite replace_structure by reflexivity. f_equal. apply IH.
Qed.

(** Replacing in the text of a value is replacing in its strings. *)
Lemma replace_stringify (v : json) :
  forall rest,
  R (Json.stringify v ++ rest)
  = Json.stringify (Json.map_strings R v) ++ R rest.
Proof.
  induction v as [|b|n|s|items IH|members IH] using json_ind; intros rest.
  - apply replace_structure. reflexivity.
  - destruct b; apply replace_structure; reflexivity.
  - apply replace_structure, number_no_dollar.
  - apply (replace_quoted key key_word value value_plain).
  - cbn [Json.stringify Json.map_strings]. rewrite !append_assoc.
    rewrite replace_structure by reflexivity. f_equal.
    apply replace_join; [reflexivity|].
    induction IH as [|x items Hx _ IHitems]; cbn [map]; constructor;
      assumption.
  - cbn [Json.stringify Json.map_strings]. rewrite !append_assoc.
    rewrite replace_structure by reflexivity. f_equal.
    apply replace_join; [reflexivity|].
    induction IH as [|[k x] members Hx _ IHmembers]; cbn [map]; constructor;
      [|assumption].
    cbn [snd] in Hx. intros rest'. rewrite !append_assoc.
    pose proof (replace_quoted key key_word value value_plain) as Q.
    fold R in Q. rewrite Q. f_equal.
    rewrite replace_structure by reflexivity. f_equal. apply Hx.
Qed.

End ReplaceStringify.

Section MapStrings.

Lemma map_strings_ext (f g : string -> string) (v : json) :
  (forall s, f s = g s) -> Json.map_strings f v = Json.map_strings g v.
Proof.
  intros Hfg.
  induction v as [|b|n|s|items IH|members IH] using json_ind; simpl;
    try reflexivity.
  - rewrite Hfg. reflexivity.
  - f_equal. induction IH as [|x items Hx _ IHitems]; simpl; congruence.
  - f_equal. induction IH as [|[k x] members Hx _ IHmembers]; simpl;
      [reflexivity|].
    simpl in Hx. rewrite Hfg, Hx, IHmembers. reflexivity.
Qed.

Lemma map_strings_id (v : json) : Json.map_strings (fun s => s) v = v.
Proof.
  induction v as [|b|n|s|items IH|members IH] using json_ind; simpl;
    try reflexivity.
  - f_equal. induction IH as [|x items Hx _ IHitems]; simpl; congruence.
  - f_equal. induction IH as [|[k x] members Hx _ IHmembers]; simpl;
      [reflexivity|].
    simpl in Hx. rewrite Hx, IHmembers. reflexivity.
Qed.

Lemma map_strings_compose (f g : string -> string) (v : json) :
  Json.map_strings g (Json.map_strings f v)
  = Json.map_strings (fun s => g (f s)) v.
Proof.
  induction v as [|b|n|s|items IH|members IH] using json_ind; simpl;
    try reflexivity.
  - f_equal. induction IH as [|x items Hx _ IHitems]; simpl; congruence.
  - f_equal. induction IH as [|[k x] members Hx _ IHmembers]; simpl;
      [reflexivity|].
    simpl in Hx. rewrite Hx, IHmembers. reflexivity.
Qed.

End MapStrings.

(** The loop of [substituteTokens] turns the text of a value into the text
    of the value with the tokens substituted in its strings. *)
Lemma substitute_text (tokens : props string) :
  forallb token_ok tokens = true ->
  forall v,
  fold_left Config.substitute_entry tokens (Ok (Json.stringify v))
  = Ok (Json.stringify (Json.map_strings (substitute_string tokens) v)).
Proof.
  induction tokens as [|[key value] tokens IH]; intros Hok v.
  - simpl. rewrite map_strings_id. reflexivity.
  - simpl in Hok. apply andb_prop in Hok. destruct Hok as [Hkv Hok].
    unfold token_ok in Hkv. apply andb_prop in Hkv. destruct Hkv as [Hk Hv].
    cbn [fst snd] in Hk, Hv.
    cbn [fold_left]. unfold Config.substitute_entry at 2. cbn [bind fst snd].
    rewrite Hk.
    pose proof (replace_stringify key value Hk Hv v "") as E.
    rewrite !append_nil_r in E. rewrite E, (IH Hok), map_strings_compose.
    reflexivity.
Qed.

(** ** Reading back what [JSON.stringify] wrote *)



Section ParseFacts.
Local Open Scope string_scope.
Implicit Types (s r rest : string) (c : ascii).

Lemma parse_escape_char c rest :
  Json.parse_string (Json.escape_char c ++ rest)
  = Json.push c (Json.parse_string rest).
Proof. destruct c as [[] [] [] [] [] [] [] []]; reflexivity. Qed.

Lemma parse_string_escape s rest :
  Json.parse_string (Json.escape s ++ String Text.quote rest) = Ok (s, rest).
Proof.
  induction s as [|c s IH]; [reflexivity|].
  cbn [Json.escape]. rewrite append_assoc, parse_escape_char, IH. reflexivity.
Qed.

Lemma span_number s rest :
  Text.all Json.number_char s = true -> boundary rest = true ->
  Json.span Json.number_char (s ++ rest) = (s, rest).
Proof.
  intros Hs Hrest. induction s as [|c s IH].
  - destruct rest as [|c rest]; [reflexivity|]. simpl in *.
    apply negb_true_iff in Hrest. rewrite Hrest. reflexivity.
  - simpl in Hs. apply andb_prop in Hs. destruct Hs as [Hc Hs].
    simpl. rewrite Hc, (IH Hs). reflexivity.
Qed.

Lemma uint_nonempty d : d <> Decimal.Nil -> NilEmpty.string_of_uint d <> "".
Proof. destruct d; simpl; congruence. Qed.

Lemma uint_not_zero d :
  d <> Decimal.Nil -> d <> Decimal.zero -> NilZero.string_of_uint d <> "0".
Proof.
  intros Hnil Hzero. destruct d; simpl; try congruence.
  intros [= E]. destruct d; try discriminate.
  apply Hzero. reflexivity.
Qed.

Lemma nz_uint_digits d : Text.all Json.digit_char (NilZero.string_of_uint d) = true.
Proof. destruct d; try apply uint_digits. reflexivity. Qed.

Lemma number_not_minus_zero n : (Json.number n =? "-0") = false.
Proof.
  apply String.eqb_neq. unfold Json.number.
  destruct n as [|p|p]; cbn [Z.to_int NilZero.string_of_int].
  - discriminate.
  - intros E. pose proof (nz_uint_digits (Pos.to_uint p)) as D.
    rewrite E in D. discriminate.
  - intros [= E]. revert E. apply uint_not_zero.
    + apply DecimalPos.Unsigned.to_uint_nonnil.
    + apply DecimalPos.Unsigned.to_uint_nonzero.
Qed.

Lemma number_read n :
  NilZero.int_of_string (Json.number n) = Some (Z.to_int n).
Proof.
  unfold Json.number. apply NilZero.isi.
  - destruct n as [|p|p]; simpl; try discriminate.
    intros [= E]. exact (DecimalPos.Unsigned.to_uint_nonnil p E).
  - destruct n as [|p|p]; simpl; try discriminate.
    intros [= E]. exact (DecimalPos.Unsigned.to_uint_nonnil p E).
Qed.

Lemma parse_number_number n rest :
  (Z.abs n <=? Json.max_safe_integer)%Z = true -> boundary rest = true ->
  Json.parse_number (Json.number n ++ rest) = Ok (JNum n, rest).
Proof.
  intros Hn Hrest. unfold Json.parse_number.
  rewrite span_number; [|
    eapply all_impl; [|apply number_digits]; intros c Hc;
    pose proof (sign_or_digit_checked c) as E;
    unfold sign_or_digit_check in E; rewrite Hc in E;
    apply andb_prop in E; destruct E as [E _];
    apply andb_prop in E; tauto |exact Hrest].
  fold sign_or_digit. rewrite number_digits, number_not_minus_zero, number_read.
  rewrite DecimalZ.of_to, String.eqb_refl, Hn. reflexivity.
Qed.

End ParseFacts.

Section ParseStringify.
Local Open Scope string_scope.
Implicit Types (s r rest : string) (c : ascii).



Lemma dispatch_checked c : dispatch_check c = true.
Proof. destruct c as [[] [] [] [] [] [] [] []]; vm_compute; reflexivity. Qed.

Lemma number_head n :
  exists c t, Json.number n = String c t /\ sign_or_digit c = true.
Proof.
  pose proof (number_digits n) as H.
  destruct (Json.number n) as [|c t] eqn:E.
  - exfalso. pose proof (number_read n) as R. rewrite E in R. discriminate.
  - exists c, t. split; [reflexivity|].
    simpl in H. apply andb_prop in H. tauto.
Qed.

Lemma stringify_opening v :
  exists c t, Json.stringify v = String c t /\ opening c = true.
Proof.
  destruct v as [|[|]|n|s|items|members]; try (eexists _, _; split; reflexivity).
  destruct (number_head n) as (c & t & E & Hc). exists c, t.
  split; [exact E|]. pose proof (dispatch_checked c) as D.
  unfold dispatch_check in D. rewrite Hc in D.
  do 6 (apply andb_prop in D; destruct D as [D _]). exact D.
Qed.

Lemma skip_ws_opening c t : opening c = true -> Json.skip_ws (String c t) = String c t.
Proof.
  unfold opening. intros H. apply andb_prop in H. destruct H as [H _].
  apply andb_prop in H. destruct H as [H _]. apply negb_true_iff in H.
  simpl. rewrite H. reflexivity.
Qed.

Lemma parse_value_number fuel c r :
  sign_or_digit c = true ->
  Json.parse_value (S fuel) (String c r) = Json.parse_number (String c r).
Proof.
  intros Hc. pose proof (dispatch_checked c) as D.
  unfold dispatch_check in D. rewrite Hc in D.
  apply andb_prop in D. destruct D as [D H102].
  apply andb_prop in D. destruct D as [D H116].
  apply andb_prop in D. destruct D as [D H110].
  apply andb_prop in D. destruct D as [D H34].
  apply andb_prop in D. destruct D as [D H91].
  apply andb_prop in D. destruct D as [D H123].
  apply negb_true_iff in H102, H116, H110, H34, H91, H123.
  cbn [Json.parse_value]. rewrite (skip_ws_opening c r D).
  cbn zeta. rewrite H123, H91, H34, H110, H116, H102.
  fold (sign_or_digit c). rewrite Hc. reflexivity.
Qed.

Lemma parse_value_array fuel d r :
  opening d = true ->
  Json.parse_value (S fuel) (String "[" (String d r))
  = (p <- Json.parse_elements fuel (String d r) ;; Ok (JArr (fst p), snd p)).
Proof.
  intros Hd. cbn [Json.parse_value].
  change (Json.skip_ws (String "[" (String d r))) with (String "[" (String d r)).
  cbn iota zeta.
  change (Text.code "[" =? 123)%N with false.
  change (Text.code "[" =? 91)%N with true. cbn iota.
  rewrite (skip_ws_opening d r Hd).
  unfold opening in Hd. apply andb_prop in Hd. destruct Hd as [Hd _].
  apply andb_prop in Hd. destruct Hd as [_ Hd]. apply negb_true_iff in Hd.
  rewrite Hd. reflexivity.
Qed.

Lemma parse_value_object fuel r :
  Json.parse_value (S fuel) (String "{" (String Text.quote r))
  = (p <- Json.parse_members fuel (String Text.quote r) ;;
     Ok (JObj (Obj.literal (fst p)), snd p)).
Proof. reflexivity. Qed.

Lemma expect_word word v rest :
  Json.expect word v (word ++ rest) = Ok (v, rest).
Proof. unfold Json.expect. rewrite prefix_append, drop_append. reflexivity. Qed.

Lemma parse_value_literal fuel rest :
  Json.parse_value (S fuel) ("null" ++ rest) = Ok (JNull, rest) /\
  Json.parse_value (S fuel) ("true" ++ rest) = Ok (JBool true, rest) /\
  Json.parse_value (S fuel) ("false" ++ rest) = Ok (JBool false, rest).
Proof.
  repeat split.
  - apply (expect_word "null").
  - apply (expect_word "true").
  - apply (expect_word "false").
Qed.



Lemma join_cons close t texts :
  Json.join close (t :: texts)
  = t ++ match texts with
         | [] => close
         | _ :: _ => "," ++ Json.join close texts
         end.
Proof. destruct texts; reflexivity. Qed.

Lemma parse_all fuel :
  (forall v rest,
      String.length (Json.stringify v) < fuel ->
      representable v = true -> boundary rest = true ->
      Json.parse_value fuel (Json.stringify v ++ rest)
      = Ok (Json.normalize v, rest)) /\
  (forall x items rest,
      String.length (Json.join "]" (map Json.stringify (x :: items))) < fuel ->
      forallb representable (x :: items) = true ->
      Json.parse_elements fuel
        (Json.join "]" (map Json.stringify (x :: items)) ++ rest)
      = Ok (map Json.normalize (x :: items), rest)) /\
  (forall kv members rest,
      String.length (Json.join "}" (map entry_text (kv :: members))) < fuel ->
      forallb (fun kv => representable (snd kv)) (kv :: members) = true ->
      Json.parse_members fuel
        (Json.join "}" (map entry_text (kv :: members)) ++ rest)
      = Ok (map entry_normalize (kv :: members), rest)).
Proof.
  induction fuel as [|n (IHv & IHe & IHm)].
  { repeat split; intros; lia. }
  split; [|split].
  - (* values *)
    intros v rest Hlen Hrep Hrest.
    destruct v as [|[|]|z|s|items|members];
      try apply (parse_value_literal n rest).
    + destruct (number_head z) as (c & t & E & Hc).
      cbn [Json.stringify]. rewrite E. cbn [append].
      rewrite (parse_value_number n c _ Hc).
      change (String c (t ++ rest)) with (String c t ++ rest).
      rewrite <- E. apply parse_number_number; assumption.
    + cbn [Json.stringify]. unfold Json.quoted. cbn [append].
      rewrite append_assoc. cbn [append].
      change (Json.parse_value (S n)
                (String Text.quote (Json.escape s ++ String Text.quote rest)))
        with (p <- Json.parse_string (Json.escape s ++ String Text.quote rest) ;;
              Ok (JStr (fst p), snd p)).
      rewrite parse_string_escape. reflexivity.
    + destruct items as [|x items]; [reflexivity|].
      cbn [Json.stringify] in Hlen |- *. cbn [append String.length] in Hlen |- *.
      assert (Hhead : exists c t,
                 Json.join "]" (map Json.stringify (x :: items)) ++ rest
                 = String c t /\ opening c = true).
      { cbn [map]. rewrite join_cons.
        destruct (stringify_opening x) as (c & t & -> & Hc).
        eexists c, _. split; [reflexivity|exact Hc]. }
      destruct Hhead as (c & t & E & Hc).
      rewrite E, (parse_value_array n c t Hc), <- E.
      rewrite IHe; [reflexivity|lia|exact Hrep].
    + destruct members as [|kv members]; [reflexivity|].
      change (Json.stringify (JObj (kv :: members)))
        with ("{" ++ Json.join "}" (map entry_text (kv :: members)))
        in Hlen |- *.
      cbn [append String.length] in Hlen |- *.
      assert (Hhead : exists t,
                 Json.join "}" (map entry_text (kv :: members)) ++ rest
                 = String Text.quote t).
      { cbn [map]. rewrite join_cons. destruct kv as [k x].
        eexists. reflexivity. }
      destruct Hhead as (t & E).
      rewrite E, parse_value_object, <- E.
      rewrite IHm; [|lia|exact Hrep]. reflexivity.
  - (* elements *)
    intros x items rest Hlen Hrep.
    cbn [forallb] in Hrep. apply andb_prop in Hrep. destruct Hrep as [Hx Hitems].
    cbn [Json.parse_elements]. destruct items as [|y items].
    + change (Json.join "]" (map Json.stringify [x]))
        with (Json.stringify x ++ "]") in Hlen |- *.
      rewrite length_append in Hlen. cbn [String.length] in Hlen.
      rewrite append_assoc, IHv; [reflexivity|lia|exact Hx|reflexivity].
    + change (Json.join "]" (map Json.stringify (x :: y :: items)))
        with (Json.stringify x ++ ","
              ++ Json.join "]" (map Json.stringify (y :: items))) in Hlen |- *.
      rewrite length_append in Hlen. cbn [String.length append] in Hlen.
      rewrite append_assoc, IHv; [|lia|exact Hx|reflexivity].
      cbn [bind snd fst append Json.skip_ws].
      change (Json.is_ws ",") with false. cbn iota.
      change (Text.code "," =? 44)%N with true. cbn iota.
      rewrite IHe; [reflexivity|lia|exact Hitems].
  - (* members *)
    intros [k x] members rest Hlen Hrep.
    cbn [forallb snd] in Hrep. apply andb_prop in Hrep.
    destruct Hrep as [Hx Hmembers].
    assert (Hentry : forall tail,
      Json.parse_members (S n) (entry_text (k, x) ++ tail)
      = (p <- Json.parse_value n (Json.stringify x ++ tail) ;;
         match Json.skip_ws (snd p) with
         | String e r'' =>
             if (Text.code e =? 44)%N then
               q <- Json.parse_members n (Json.skip_ws r'') ;;
               Ok ((k, fst p) :: fst q, snd q)
             else if (Text.code e =? 125)%N then Ok ([(k, fst p)], r'')
             else Throws SyntaxError
         | EmptyString => Throws SyntaxError
         end)).
    { intros tail. unfold entry_text, Json.quoted. cbn [append].
      rewrite !append_assoc. cbn [append Json.parse_members].
      change (Text.code Text.quote =? 34)%N with true. cbn iota.
      rewrite parse_string_escape. reflexivity. }
    assert (Hsize : String.length (Json.stringify x) + 3
                    <= String.length (entry_text (k, x))).
    { unfold entry_text, Json.quoted. cbn [String.length append].
      repeat (rewrite length_append; cbn [String.length]). lia. }
    destruct members as [|kv members].
    + change (Json.join "}" (map entry_text [(k, x)]))
        with (entry_text (k, x) ++ "}") in Hlen |- *.
      rewrite length_append in Hlen. cbn [String.length] in Hlen.
      rewrite append_assoc, Hentry, IHv; [reflexivity|lia|exact Hx|reflexivity].
    + change (Json.join "}" (map entry_text ((k, x) :: kv :: members)))
        with (entry_text (k, x) ++ ","
              ++ Json.join "}" (map entry_text (kv :: members))) in Hlen |- *.
      rewrite length_append in Hlen. cbn [String.length append] in Hlen.
      rewrite append_assoc, Hentry, IHv; [|lia|exact Hx|reflexivity].
      cbn [bind snd fst append Json.skip_ws].
      change (Json.is_ws ",") with false. cbn iota.
      change (Text.code "," =? 44)%N with true. cbn iota.
      assert (Hhead : exists t,
                 Json.join "}" (map entry_text (kv :: members)) ++ rest
                 = String Text.quote t).
      { cbn [map]. rewrite join_cons. destruct kv as [k' x'].
        eexists. reflexivity. }
      destruct Hhead as (t & E). rewrite E.
      change (Json.skip_ws (String Text.quote t)) with (String Text.quote t).
      rewrite <- E, IHm; [reflexivity|lia|exact Hmembers].
Qed.

End ParseStringify.

(** Reading back the text of a value gives the value, normalized. *)
Lemma parse_stringify (v : json) :
  representable v = true ->
  Json.parse (Json.stringify v) = Ok (Json.normalize v).
Proof.
  intros Hv. unfold Json.parse.
  destruct (parse_all (S (String.length (Json.stringify v)))) as (H & _ & _).
  specialize (H v EmptyString). rewrite append_nil_r in H.
  rewrite H; [reflexivity|lia|exact Hv|reflexivity].
Qed.

Lemma representable_map_strings (f : string -> string) (v : json) :
  representable (Json.map_strings f v) = representable v.
Proof.
  induction v as [|b|n|s|items IH|members IH] using json_ind; simpl;
    try reflexivity.
  - induction IH as [|x items Hx _ IHitems]; simpl; congruence.
  - induction IH as [|[k x] members Hx _ IHmembers]; simpl; [reflexivity|].
    simpl in Hx. rewrite Hx, IHmembers. reflexivity.
Qed.

(** What [substituteTokens] returns, for token names made of word
    characters and plain token values: the value with the tokens
    substituted in each of its strings, read back. *)
Lemma substituteTokens_spec (config : json) (tokens : props string) :
  forallb token_ok tokens = true ->
  representable config = true ->
  Config.substituteTokens config tokens
  = Ok (Json.normalize
          (Json.map_strings (substitute_string tokens) config)).
Proof.
  intros Htokens Hconfig. unfold Config.substituteTokens.
  rewrite substitute_text by assumption. cbn [bind].
  apply parse_stringify. rewrite representable_map_strings. exact Hconfig.
Qed.

(** ** Objects in enumeration order *)

Section OrderedFacts.
Context {A : Type}.
Implicit Types (o a b : props A) (k : string) (v : A).

Lemma keys_replace k v o : Obj.keys (Obj.replace k v o) = Obj.keys o.
Proof.
  induction o as [|[k0 v0] o IH]; simpl; [reflexivity|].
  destruct (k0 =? k); simpl; [reflexivity|]. rewrite IH. reflexivity.
Qed.

Lemma get_none_not_in k o : Obj.get k o = None -> ~ In k (Obj.keys o).
Proof.
  induction o as [|[k0 v0] o IH]; simpl; [tauto|].
  destruct (String.eqb_spec k0 k) as [->|Hne]; [discriminate|].
  intros H [E|Hin]; [contradiction|]. exact (IH H Hin).
Qed.

Lemma precedes_neq k1 k2 : Obj.precedes k1 k2 = true -> k1 <> k2.
Proof.
  unfold Obj.precedes. intros H. apply andb_prop in H. destruct H as [H _].
  apply negb_true_iff, String.eqb_neq in H. exact H.
Qed.

Lemma forallb_keys_insert (p : string -> bool) i k v o :
  forallb p (Obj.keys (Obj.insert_index i k v o))
  = p k && forallb p (Obj.keys o).
Proof.
  induction o as [|[k0 v0] o IH]; simpl; [reflexivity|].
  destruct (Obj.array_index k0) as [j|]; [destruct (j <=? i)%N|]; simpl;
    try reflexivity.
  rewrite IH. destruct (p k), (p k0); reflexivity.
Qed.

Lemma ordered_app_inv (ks1 ks2 : list string) k :
  Obj.ordered (ks1 ++ k :: ks2) = true ->
  Forall (fun k0 => Obj.precedes k0 k = true) ks1.
Proof.
  induction ks1 as [|k0 ks1 IH]; simpl; intros H; constructor.
  - apply andb_prop in H. destruct H as [H _].
    rewrite forallb_app in H. apply andb_prop in H. destruct H as [_ H].
    simpl in H. apply andb_prop in H. tauto.
  - apply IH. apply andb_prop in H. tauto.
Qed.

Lemma insert_index_last i k v o :
  Obj.array_index k = Some i ->
  Forall (fun k0 => Obj.precedes k0 k = true) (Obj.keys o) ->
  Obj.insert_index i k v o = o ++ [(k, v)].
Proof.
  intros Hk. induction o as [|[k0 v0] o IH]; simpl; intros H; [reflexivity|].
  inversion H as [|? ? Hk0 Ho]; subst.
  unfold Obj.precedes in Hk0. rewrite Hk in Hk0.
  apply andb_prop in Hk0. destruct Hk0 as [_ Hk0].
  destruct (Obj.array_index k0) as [j|]; [|discriminate].
  rewrite Hk0, (IH Ho). reflexivity.
Qed.

Lemma set_last k v o :
  Forall (fun k0 => Obj.precedes k0 k = true) (Obj.keys o) ->
  Obj.set k v o = o ++ [(k, v)].
Proof.
  intros H. unfold Obj.set, Obj.has.
  rewrite get_not_in.
  - destruct (Obj.array_index k) as [i|] eqn:Hk; [|reflexivity].
    apply insert_index_last; assumption.
  - intros Hin. rewrite Forall_forall in H.
    exact (precedes_neq _ _ (H _ Hin) eq_refl).
Qed.

(** Defining the properties of an ordered list one by one rebuilds it. *)
Lemma spread_ordered a b :
  Obj.ordered (Obj.keys (a ++ b)) = true -> Obj.spread a b = a ++ b.
Proof.
  unfold Obj.spread. revert a.
  induction b as [|[k v] b IH]; intros a H; simpl.
  - rewrite app_nil_r. reflexivity.
  - assert (Ha : Forall (fun k0 => Obj.precedes k0 k = true) (Obj.keys a)).
    { unfold Obj.keys in H. rewrite map_app in H.
      exact (ordered_app_inv _ _ _ H). }
    rewrite (set_last k v a Ha), IH, <- app_assoc; [reflexivity|].
    rewrite <- app_assoc. exact H.
Qed.

Lemma literal_ordered o :
  Obj.ordered (Obj.keys o) = true -> Obj.literal o = o.
Proof. apply (spread_ordered [] o). Qed.

Lemma ordered_snoc (ks : list string) k :
  Obj.ordered ks = true ->
  Forall (fun k0 => Obj.precedes k0 k = true) ks ->
  Obj.ordered (ks ++ [k]) = true.
Proof.
  induction ks as [|k0 ks IH]; simpl; intros Ho H; [reflexivity|].
  apply andb_prop in Ho. destruct Ho as [Hk0 Ho].
  inversion H as [|? ? Hp Hrest]; subst.
  rewrite forallb_app, Hk0, (IH Ho Hrest). simpl. rewrite Hp. reflexivity.
Qed.

Lemma ordered_insert i k v o :
  Obj.array_index k = Some i -> ~ In k (Obj.keys o) ->
  Obj.ordered (Obj.keys o) = true ->
  Obj.ordered (Obj.keys (Obj.insert_index i k v o)) = true.
Proof.
  intros Hk. induction o as [|[k0 v0] o IH]; simpl; intros Hin Ho;
    [reflexivity|].
  apply andb_prop in Ho. destruct Ho as [Hk0 Ho].
  assert (Hne : k <> k0) by (intros ->; apply Hin; left; reflexivity).
  assert (Hfresh : forall k', In k' (Obj.keys o) -> (k =? k') = false).
  { intros k' Hk'. apply String.eqb_neq. intros ->. apply Hin. right. exact Hk'. }
  assert (Hstop : Obj.precedes k k0 = true ->
                  Obj.ordered (k :: k0 :: Obj.keys o) = true).
  { intros Hp. cbn [Obj.ordered forallb]. rewrite Hp, Hk0, Ho.
    rewrite !andb_true_r. cbn [andb].
    apply forallb_forall. intros k' Hk'.
    rewrite forallb_forall in Hk0. specialize (Hk0 k' Hk').
    unfold Obj.precedes in *. rewrite Hk in *.
    rewrite (Hfresh k' Hk'). cbn [negb andb].
    apply andb_prop in Hp. destruct Hp as [_ Hp].
    apply andb_prop in Hk0. destruct Hk0 as [_ Hk0].
    destruct (Obj.array_index k0) as [j|], (Obj.array_index k') as [j'|];
      try reflexivity; try discriminate.
    apply N.leb_le in Hp, Hk0. apply N.leb_le. lia. }
  destruct (Obj.array_index k0) as [j|] eqn:Hj.
  - destruct (j <=? i)%N eqn:Hji; simpl.
    + rewrite forallb_keys_insert, Hk0, IH by tauto.
      unfold Obj.precedes. rewrite Hj, Hk, Hji.
      apply not_eq_sym, String.eqb_neq in Hne. rewrite Hne. reflexivity.
    + apply Hstop. unfold Obj.precedes. rewrite Hk, Hj.
      apply String.eqb_neq in Hne. rewrite Hne. cbn [negb andb].
      apply N.leb_gt in Hji. apply N.leb_le. lia.
  - simpl. apply Hstop. unfold Obj.precedes. rewrite Hk, Hj.
    apply String.eqb_neq in Hne. rewrite Hne. reflexivity.
Qed.

Lemma ordered_set k v o :
  Obj.ordered (Obj.keys o) = true ->
  Obj.ordered (Obj.keys (Obj.set k v o)) = true.
Proof.
  intros Ho. unfold Obj.set, Obj.has.
  destruct (Obj.get k o) eqn:Hget.
  - rewrite keys_replace. exact Ho.
  - apply get_none_not_in in Hget.
    destruct (Obj.array_index k) as [i|] eqn:Hk.
    + apply ordered_insert; assumption.
    + unfold Obj.keys. rewrite map_app. cbn [map fst].
      apply ordered_snoc; [exact Ho|].
      apply Forall_forall. intros k0 Hk0.
      assert (Hne : k0 <> k) by (intros ->; contradiction).
      apply String.eqb_neq in Hne. unfold Obj.precedes. rewrite Hne.
      destruct (Obj.array_index k0); rewrite Hk; reflexivity.
Qed.

Lemma ordered_spread (base l : props A) :
  Obj.ordered (Obj.keys base) = true ->
  Obj.ordered (Obj.keys (Obj.spread base l)) = true.
Proof.
  unfold Obj.spread. revert base.
  induction l as [|[k v] l IH]; intros base H; simpl; [exact H|].
  apply IH, ordered_set, H.
Qed.

(** An object literal is in enumeration order, and rebuilding it changes
    nothing. *)
Lemma ordered_literal (l : props A) :
  Obj.ordered (Obj.keys (Obj.literal l)) = true.
Proof. apply ordered_spread. reflexivity. Qed.

Lemma literal_idempotent (l : props A) :
  Obj.literal (Obj.literal l) = Obj.literal l.
Proof. apply literal_ordered, ordered_literal. Qed.

Lemma in_replace kv k v o :
  In kv (Obj.replace k v o) -> kv = (k, v) \/ In kv o.
Proof.
  induction o as [|[k0 v0] o IH]; simpl; [tauto|].
  destruct (String.eqb_spec k0 k) as [->|]; simpl.
  - intros [<-|H]; auto.
  - intros [<-|H]; auto. destruct (IH H); auto.
Qed.

Lemma in_insert_index kv i k v o :
  In kv (Obj.insert_index i k v o) -> kv = (k, v) \/ In kv o.
Proof.
  induction o as [|[k0 v0] o IH]; simpl; [intuition|].
  destruct (Obj.array_index k0) as [j|]; [destruct (j <=? i)%N|]; simpl;
    intuition.
Qed.

Lemma in_set kv k v o : In kv (Obj.set k v o) -> kv = (k, v) \/ In kv o.
Proof.
  unfold Obj.set. destruct (Obj.has k o).
  - apply in_replace.
  - destruct (Obj.array_index k).
    + apply in_insert_index.
    + rewrite in_app_iff. simpl. intuition.
Qed.

Lemma in_spread kv (base l : props A) :
  In kv (Obj.spread base l) -> In kv base \/ In kv l.
Proof.
  unfold Obj.spread. revert base.
  induction l as [|[k v] l IH]; intros base; simpl; [auto|].
  intros H. destruct (IH _ H) as [Hset|Hl]; [|auto].
  destruct (in_set _ _ _ _ Hset) as [->|Hb]; auto.
Qed.

Lemma in_literal kv (l : props A) : In kv (Obj.literal l) -> In kv l.
Proof. intros H. destruct (in_spread _ _ _ H) as [[]|Hl]. exact Hl. Qed.

End OrderedFacts.

(** ** Values read back *)

Section NormalizeFacts.

Lemma representable_normalize (v : json) :
  representable v = true -> representable (Json.normalize v) = true.
Proof.
  induction v as [|b|n|s|items IH|members IH] using json_ind; simpl;
    try (intros; assumption); try reflexivity.
  - intros H. rewrite forallb_forall in H. apply forallb_forall.
    intros y Hy. apply in_map_iff in Hy. destruct Hy as (x & <- & Hx).
    rewrite Forall_forall in IH. apply IH; auto.
  - intros H. rewrite forallb_forall in H. apply forallb_forall.
    intros kv Hkv. apply in_literal, in_map_iff in Hkv.
    destruct Hkv as ([k x] & <- & Hx). rewrite Forall_forall in IH.
    simpl. apply (IH _ Hx). apply (H _ Hx).
Qed.

Lemma well_formed_normalized (v : json) :
  well_formed (Json.normalize v) = true.
Proof.
  induction v as [|b|n|s|items IH|members IH] using json_ind; simpl;
    try reflexivity.
  - apply forallb_forall. intros y Hy. apply in_map_iff in Hy.
    destruct Hy as (x & <- & Hx). rewrite Forall_forall in IH. auto.
  - rewrite ordered_literal. apply forallb_forall.
    intros kv Hkv. apply in_literal, in_map_iff in Hkv.
    destruct Hkv as ([k x] & <- & Hx). rewrite Forall_forall in IH.
    apply (IH _ Hx).
Qed.

Lemma normalize_well_formed (v : json) :
  well_formed v = true -> Json.normalize v = v.
Proof.
  induction v as [|b|n|s|items IH|members IH] using json_ind; simpl;
    try reflexivity.
  - intros H. f_equal. rewrite forallb_forall in H.
    induction IH as [|x items Hx _ IHitems]; simpl; [reflexivity|].
    rewrite Hx, IHitems; [reflexivity| |]; intros; apply H; simpl; auto.
  - intros H. apply andb_prop in H. destruct H as [Hord Hall]. f_equal.
    assert (E : map (fun kv : string * json =>
                       let (k, x) := kv in (k, Json.normalize x)) members
                = members).
    { rewrite forallb_forall in Hall. clear Hord.
      induction IH as [|[k x] members Hx _ IHmembers]; simpl; [reflexivity|].
      simpl in Hx. rewrite Hx, IHmembers; [reflexivity| |].
      - intros kv Hkv. apply Hall. simpl. auto.
      - apply (Hall (k, x)). simpl. auto. }
    rewrite E. apply literal_ordered, Hord.
Qed.

(** Reading a value back twice is reading it back once. *)
Lemma normalize_idempotent (v : json) :
  Json.normalize (Json.normalize v) = Json.normalize v.
Proof. apply normalize_well_formed, well_formed_normalized. Qed.

Lemma strings_normalize (v : json) :
  incl (strings_of (Json.normalize v)) (strings_of v).
Proof.
  induction v as [|b|n|s|items IH|members IH] using json_ind; simpl;
    try apply incl_refl.
  - intros s Hs. apply in_flat_map in Hs. destruct Hs as (y & Hy & Hs).
    apply in_map_iff in Hy. destruct Hy as (x & <- & Hx).
    apply in_flat_map. exists x. split; [exact Hx|].
    rewrite Forall_forall in IH. exact (IH _ Hx _ Hs).
  - intros s Hs. apply in_flat_map in Hs. destruct Hs as (kv & Hkv & Hs).
    apply in_literal, in_map_iff in Hkv. destruct Hkv as ([k x] & <- & Hx).
    apply in_flat_map. exists (k, x). split; [exact Hx|].
    simpl in Hs |- *. destruct Hs as [Hs|Hs]; [auto|]. right.
    rewrite Forall_forall in IH. exact (IH _ Hx _ Hs).
Qed.

Lemma strings_map (f : string -> string) (v : json) :
  strings_of (Json.map_strings f v) = map f (strings_of v).
Proof.
  induction v as [|b|n|s|items IH|members IH] using json_ind; simpl;
    try reflexivity.
  - induction IH as [|x items Hx _ IHitems]; simpl; [reflexivity|].
    rewrite map_app, Hx, IHitems. reflexivity.
  - induction IH as [|[k x] members Hx _ IHmembers]; simpl; [reflexivity|].
    simpl in Hx. rewrite map_app, Hx, IHmembers. reflexivity.
Qed.

Lemma map_strings_fixed (f : string -> string) (v : json) :
  (forall s, In s (strings_of v) -> f s = s) -> Json.map_strings f v = v.
Proof.
  induction v as [|b|n|s|items IH|members IH] using json_ind; simpl;
    try reflexivity; intros H.
  - rewrite H by auto. reflexivity.
  - f_equal. induction IH as [|x items Hx _ IHitems]; simpl; [reflexivity|].
    rewrite Hx, IHitems; [reflexivity| |]; intros s Hs; apply H; simpl;
      apply in_or_app; auto.
  - f_equal. induction IH as [|[k x] members Hx _ IHmembers]; simpl;
      [reflexivity|].
    simpl in Hx, H. rewrite (H k), Hx, IHmembers; auto;
      intros s Hs; apply H; right; apply in_or_app; auto.
Qed.

Lemma keys_strings (v : json) : incl (keys_of v) (strings_of v).
Proof.
  induction v as [|b|n|s|items IH|members IH] using json_ind; simpl;
    try (intros t []).
  - intros s Hs. apply in_flat_map in Hs. destruct Hs as (x & Hx & Hs).
    apply in_flat_map. exists x. split; [exact Hx|].
    rewrite Forall_forall in IH. exact (IH _ Hx _ Hs).
  - intros s Hs. apply in_flat_map in Hs. destruct Hs as ([k x] & Hx & Hs).
    apply in_flat_map. exists (k, x). split; [exact Hx|].
    simpl in Hs |- *. destruct Hs as [Hs|Hs]; [auto|]. right.
    rewrite Forall_forall in IH. exact (IH _ Hx _ Hs).
Qed.

(** A map that leaves the keys alone keeps a value well formed. *)
Lemma well_formed_map (f : string -> string) (v : json) :
  (forall k, In k (keys_of v) -> f k = k) ->
  well_formed v = true -> well_formed (Json.map_strings f v) = true.
Proof.
  induction v as [|b|n|s|items IH|members IH] using json_ind; simpl;
    try reflexivity; intros Hf H.
  - rewrite forallb_forall in H. apply forallb_forall.
    intros y Hy. apply in_map_iff in Hy. destruct Hy as (x & <- & Hx).
    rewrite Forall_forall in IH. apply (IH _ Hx); [|apply H, Hx].
    intros k Hk. apply Hf, in_flat_map. exists x. auto.
  - apply andb_prop in H. destruct H as [Hord Hall].
    assert (E : Obj.keys
                  (map (fun kv : string * json =>
                          let (k, x) := kv in (f k, Json.map_strings f x))
                     members)
                = Obj.keys members).
    { unfold Obj.keys. rewrite map_map. apply map_ext_in.
      intros [k x] Hx. simpl. apply Hf, in_flat_map. exists (k, x).
      simpl. auto. }
    rewrite E, Hord. rewrite forallb_forall in Hall. apply forallb_forall.
    intros kv Hkv. apply in_map_iff in Hkv. destruct Hkv as ([k x] & <- & Hx).
    rewrite Forall_forall in IH. simpl.
    apply (IH _ Hx); [|apply (Hall _ Hx)].
    intros k' Hk'. apply Hf, in_flat_map. exists (k, x). simpl. auto.
Qed.

End NormalizeFacts.

(** ** Reading back what [fs.writeJson] wrote *)

Section ParsePretty.
Local Open Scope string_scope.
Implicit Types (s r rest indent : string) (c : ascii).

Lemma skip_ws_blank indent s :
  blank indent = true -> Json.skip_ws (indent ++ s) = Json.skip_ws s.
Proof.
  induction indent as [|c indent IH]; intros H; [reflexivity|].
  cbn [blank Text.all] in H. apply andb_prop in H. destruct H as [Hc H].
  apply N.eqb_eq in Hc. cbn [append Json.skip_ws]. unfold Json.is_ws.
  rewrite Hc. cbn. apply IH, H.
Qed.

Lemma skip_ws_line indent s :
  blank indent = true ->
  Json.skip_ws (String Text.newline (indent ++ s)) = Json.skip_ws s.
Proof. intros H. cbn [Json.skip_ws]. apply skip_ws_blank, H. Qed.

Lemma blank_inner indent : blank indent = true -> blank (indent ++ "  ") = true.
Proof.
  intros H. unfold blank in *. rewrite all_append, H. reflexivity.
Qed.

(** Parsing begins after the white space. *)
Lemma parse_value_skip fuel s s' :
  Json.skip_ws s = Json.skip_ws s' ->
  Json.parse_value fuel s = Json.parse_value fuel s'.
Proof.
  intros H. destruct fuel; [reflexivity|]. cbn [Json.parse_value].
  rewrite H. reflexivity.
Qed.

Lemma parse_elements_skip fuel s s' :
  Json.skip_ws s = Json.skip_ws s' ->
  Json.parse_elements fuel s = Json.parse_elements fuel s'.
Proof.
  intros H. destruct fuel; [reflexivity|]. cbn [Json.parse_elements].
  rewrite (parse_value_skip fuel s s' H). reflexivity.
Qed.

Lemma indented_opening indent v :
  exists c t, Json.indented indent v = String c t /\ opening c = true.
Proof.
  destruct v as [|[|]|n|s|items|members];
    try (eexists _, _; split; reflexivity).
  - destruct (stringify_opening (JNum n)) as (c & t & E & Hc). eauto.
  - destruct items; eexists _, _; split; reflexivity.
  - destruct members; eexists _, _; split; reflexivity.
Qed.

Lemma lines_cons separator close t texts :
  Json.lines separator close (t :: texts)
  = t ++ match texts with
         | [] => close
         | _ :: _ => separator ++ Json.lines separator close texts
         end.
Proof. destruct texts; reflexivity. Qed.

Lemma indented_array indent x items :
  Json.indented indent (JArr (x :: items))
  = "[" ++ String Text.newline ((indent ++ "  ") ++
      Json.lines ("," ++ String Text.newline (indent ++ "  "))
        (String Text.newline (indent ++ "]"))
        (map (Json.indented (indent ++ "  ")) (x :: items))).
Proof. reflexivity. Qed.

Lemma indented_object indent kv members :
  Json.indented indent (JObj (kv :: members))
  = "{" ++ String Text.newline ((indent ++ "  ") ++
      Json.lines ("," ++ String Text.newline (indent ++ "  "))
        (String Text.newline (indent ++ "}"))
        (map (entry_line (indent ++ "  ")) (kv :: members))).
Proof. reflexivity. Qed.

Lemma opening_not_ws c : opening c = true -> Json.is_ws c = false.
Proof.
  unfold opening. intros H. apply andb_prop in H. destruct H as [H _].
  apply andb_prop in H. destruct H as [H _]. apply negb_true_iff, H.
Qed.

Lemma parse_indented fuel :
  (forall indent v rest,
      blank indent = true ->
      String.length (Json.indented indent v) < fuel ->
      representable v = true -> boundary rest = true ->
      Json.parse_value fuel (Json.indented indent v ++ rest)
      = Ok (Json.normalize v, rest)) /\
  (forall indent x items rest,
      blank indent = true ->
      String.length
        (Json.lines ("," ++ String Text.newline (indent ++ "  "))
           (String Text.newline (indent ++ "]"))
           (map (Json.indented (indent ++ "  ")) (x :: items))) < fuel ->
      forallb representable (x :: items) = true ->
      Json.parse_elements fuel
        (Json.lines ("," ++ String Text.newline (indent ++ "  "))
           (String Text.newline (indent ++ "]"))
           (map (Json.indented (indent ++ "  ")) (x :: items)) ++ rest)
      = Ok (map Json.normalize (x :: items), rest)) /\
  (forall indent kv members rest,
      blank indent = true ->
      String.length
        (Json.lines ("," ++ String Text.newline (indent ++ "  "))
           (String Text.newline (indent ++ "}"))
           (map (entry_line (indent ++ "  ")) (kv :: members))) < fuel ->
      forallb (fun kv => representable (snd kv)) (kv :: members) = true ->
      Json.parse_members fuel
        (Json.lines ("," ++ String Text.newline (indent ++ "  "))
           (String Text.newline (indent ++ "}"))
           (map (entry_line (indent ++ "  ")) (kv :: members)) ++ rest)
      = Ok (map entry_normalize (kv :: members), rest)).
Proof.
  induction fuel as [|n (IHv & IHe & IHm)].
  { repeat split; intros; lia. }
  split; [|split].
  - (* values *)
    intros indent v rest Hindent Hlen Hrep Hrest.
    pose proof (blank_inner indent Hindent) as Hinner.
    destruct v as [|[|]|z|s|items|members].
    + apply (parse_value_literal n rest).
    + apply (parse_value_literal n rest).
    + apply (parse_value_literal n rest).
    + destruct (parse_all (S n)) as (H & _ & _).
      apply (H (JNum z) rest); assumption.
    + destruct (parse_all (S n)) as (H & _ & _).
      apply (H (JStr s) rest); assumption.
    + destruct items as [|x items]; [reflexivity|].
      rewrite indented_array in Hlen |- *.
      set (text := Json.lines _ _ _) in *.
      cbn [append String.length] in Hlen |- *.
      rewrite length_append in Hlen.
      destruct (indented_opening (indent ++ "  ") x) as (c & t & E & Hc).
      assert (Hhead : exists t', text ++ rest = String c t').
      { subst text. cbn [map]. rewrite lines_cons, E. cbn [append].
        eexists. reflexivity. }
      destruct Hhead as (t' & Ehead).
      cbn [Json.parse_value].
      change (Json.skip_ws (String "[" ?s)) with (String "[" s).
      cbn iota zeta.
      change (Text.code "[" =? 123)%N with false.
      change (Text.code "[" =? 91)%N with true. cbn iota.
      rewrite append_assoc.
      rewrite (skip_ws_line (indent ++ "  ") (text ++ rest) Hinner).
      rewrite Ehead. cbn [Json.skip_ws]. rewrite (opening_not_ws c Hc).
      assert (Hclose : (Text.code c =? 93)%N = false).
      { unfold opening in Hc. apply andb_prop in Hc. destruct Hc as [Hc _].
        apply andb_prop in Hc. destruct Hc as [_ Hc].
        apply negb_true_iff in Hc. exact Hc. }
      rewrite Hclose, <- Ehead.
      rewrite (parse_elements_skip n _ (text ++ rest))
        by (apply skip_ws_line, Hinner).
      subst text. rewrite IHe; [reflexivity|exact Hindent|lia|exact Hrep].
    + destruct members as [|kv members]; [reflexivity|].
      rewrite indented_object in Hlen |- *.
      set (text := Json.lines _ _ _) in *.
      cbn [append String.length] in Hlen |- *.
      rewrite length_append in Hlen.
      assert (Hhead : exists t', text ++ rest = String Text.quote t').
      { subst text. cbn [map]. rewrite lines_cons. destruct kv as [k x].
        eexists. reflexivity. }
      destruct Hhead as (t' & Ehead).
      cbn [Json.parse_value].
      change (Json.skip_ws (String "{" ?s)) with (String "{" s).
      cbn iota zeta.
      change (Text.code "{" =? 123)%N with true. cbn iota.
      rewrite append_assoc.
      rewrite (skip_ws_line (indent ++ "  ") (text ++ rest) Hinner).
      rewrite Ehead.
      change (Json.skip_ws (String Text.quote t')) with (String Text.quote t').
      change (Text.code Text.quote =? 125)%N with false. cbn iota.
      rewrite <- Ehead. subst text.
      rewrite IHm; [reflexivity|exact Hindent|lia|exact Hrep].
  - (* elements *)
    intros indent x items rest Hindent Hlen Hrep.
    pose proof (blank_inner indent Hindent) as Hinner.
    cbn [forallb] in Hrep. apply andb_prop in Hrep. destruct Hrep as [Hx Hitems].
    cbn [Json.parse_elements]. destruct items as [|y items].
    + change (Json.lines ("," ++ String Text.newline (indent ++ "  "))
                (String Text.newline (indent ++ "]"))
                (map (Json.indented (indent ++ "  ")) [x]))
        with (Json.indented (indent ++ "  ") x
              ++ String Text.newline (indent ++ "]")) in Hlen |- *.
      rewrite length_append in Hlen. cbn [String.length] in Hlen.
      assert (Hl : String.length (Json.indented (indent ++ "  ") x) < n)
        by lia.
      rewrite append_assoc.
      rewrite (IHv _ _ _ Hinner Hl Hx) by reflexivity.
      cbn [bind snd fst append]. rewrite append_assoc.
      rewrite (skip_ws_line indent _ Hindent). reflexivity.
    + change (Json.lines ("," ++ String Text.newline (indent ++ "  "))
                (String Text.newline (indent ++ "]"))
                (map (Json.indented (indent ++ "  ")) (x :: y :: items)))
        with (Json.indented (indent ++ "  ") x
              ++ String ","
                   (String Text.newline
                      ((indent ++ "  ")
                       ++ Json.lines
                            ("," ++ String Text.newline (indent ++ "  "))
                            (String Text.newline (indent ++ "]"))
                            (map (Json.indented (indent ++ "  "))
                               (y :: items))))) in Hlen |- *.
      set (tail := Json.lines _ _ (map _ (y :: items))) in *.
      rewrite length_append in Hlen. cbn [String.length] in Hlen.
      rewrite length_append in Hlen.
      assert (Hl : String.length (Json.indented (indent ++ "  ") x) < n)
        by lia.
      rewrite append_assoc.
      rewrite (IHv _ _ _ Hinner Hl Hx) by reflexivity.
      cbn [bind snd fst append Json.skip_ws].
      change (Json.is_ws ",") with false. cbn iota.
      change (Text.code "," =? 44)%N with true. cbn iota.
      rewrite append_assoc.
      rewrite (parse_elements_skip n _ (tail ++ rest))
        by (apply skip_ws_line, Hinner).
      subst tail.
      rewrite IHe; [reflexivity|exact Hindent|lia|exact Hitems].
  - (* members *)
    intros indent [k x] members rest Hindent Hlen Hrep.
    pose proof (blank_inner indent Hindent) as Hinner.
    cbn [forallb snd] in Hrep. apply andb_prop in Hrep.
    destruct Hrep as [Hx Hmembers].
    assert (Hentry : forall tail,
      Json.parse_members (S n) (entry_line (indent ++ "  ") (k, x) ++ tail)
      = (p <- Json.parse_value n
                (Json.indented (indent ++ "  ") x ++ tail) ;;
         match Json.skip_ws (snd p) with
         | String e r'' =>
             if (Text.code e =? 44)%N then
               q <- Json.parse_members n (Json.skip_ws r'') ;;
               Ok ((k, fst p) :: fst q, snd q)
             else if (Text.code e =? 125)%N then Ok ([(k, fst p)], r'')
             else Throws SyntaxError
         | EmptyString => Throws SyntaxError
         end)).
    { intros tail. unfold entry_line, Json.quoted. cbn [append].
      rewrite !append_assoc. cbn [append Json.parse_members].
      change (Text.code Text.quote =? 34)%N with true. cbn iota.
      rewrite parse_string_escape. cbn [bind fst snd Json.skip_ws].
      change (Json.is_ws ":") with false. cbn iota.
      change (Text.code ":" =? 58)%N with true. cbn iota.
      rewrite (parse_value_skip n (String " " _)
                 (Json.indented (indent ++ "  ") x ++ tail))
        by reflexivity.
      reflexivity. }
    assert (Hsize : String.length (Json.indented (indent ++ "  ") x) + 4
                    <= String.length (entry_line (indent ++ "  ") (k, x))).
    { unfold entry_line, Json.quoted. cbn [String.length append].
      repeat (rewrite length_append; cbn [String.length]). lia. }
    destruct members as [|kv members].
    + change (Json.lines ("," ++ String Text.newline (indent ++ "  "))
                (String Text.newline (indent ++ "}"))
                (map (entry_line (indent ++ "  ")) [(k, x)]))
        with (entry_line (indent ++ "  ") (k, x)
              ++ String Text.newline (indent ++ "}")) in Hlen |- *.
      rewrite length_append in Hlen. cbn [String.length] in Hlen.
      assert (Hl : String.length (Json.indented (indent ++ "  ") x) < n)
        by lia.
      rewrite append_assoc, Hentry.
      rewrite (IHv _ _ _ Hinner Hl Hx) by reflexivity.
      cbn [bind snd fst append]. rewrite append_assoc.
      rewrite (skip_ws_line indent _ Hindent). reflexivity.
    + change (Json.lines ("," ++ String Text.newline (indent ++ "  "))
                (String Text.newline (indent ++ "}"))
                (map (entry_line (indent ++ "  ")) ((k, x) :: kv :: members)))
        with (entry_line (indent ++ "  ") (k, x)
              ++ String ","
                   (String Text.newline
                      ((indent ++ "  ")
                       ++ Json.lines
                            ("," ++ String Text.newline (indent ++ "  "))
                            (String Text.newline (indent ++ "}"))
                            (map (entry_line (indent ++ "  "))
                               (kv :: members))))) in Hlen |- *.
      set (tail := Json.lines _ _ (map _ (kv :: members))) in *.
      rewrite length_append in Hlen. cbn [String.length] in Hlen.
      rewrite length_append in Hlen.
      assert (Hl : String.length (Json.indented (indent ++ "  ") x) < n)
        by lia.
      rewrite append_assoc, Hentry.
      rewrite (IHv _ _ _ Hinner Hl Hx) by reflexivity.
      cbn [bind snd fst append Json.skip_ws].
      change (Json.is_ws ",") with false. cbn iota.
      change (Text.code "," =? 44)%N with true. cbn iota.
      rewrite append_assoc.
      rewrite (skip_ws_line (indent ++ "  ") (tail ++ rest) Hinner).
      assert (Hhead : exists t', tail ++ rest = String Text.quote t').
      { subst tail. cbn [map]. rewrite lines_cons. destruct kv as [k' x'].
        eexists. reflexivity. }
      destruct Hhead as (t' & Ehead). rewrite Ehead.
      change (Json.skip_ws (String Text.quote t')) with (String Text.quote t').
      rewrite <- Ehead. subst tail.
      rewrite IHm; [reflexivity|exact Hindent|lia|exact Hmembers].
Qed.

End ParsePretty.

(** What [fs.writeJson] has written, [fs.readJson] reads back. *)
Lemma read_written (v : json) :
  representable v = true ->
  Setup.readJson (Setup.writeJson v) = Ok (Json.normalize v).
Proof.
  intros Hv. unfold Setup.readJson, Setup.writeJson, Json.parse, Json.pretty.
  destruct (parse_indented
              (S (String.length
                    (Json.indented "" v ++ String Text.newline ""))))
    as (H & _ & _).
  rewrite H; [reflexivity|reflexivity| |exact Hv|reflexivity].
  rewrite length_append. cbn [String.length]. lia.
Qed.

(** ** What [JSON.parse] returns *)

Section ParseSound.

Lemma sound_object (l : props json) :
  forallb (fun kv => sound (snd kv)) l = true ->
  sound (JObj (Obj.literal l)) = true.
Proof.
  intros H. rewrite forallb_forall in H. unfold sound. cbn.
  rewrite ordered_literal. cbn [andb]. apply andb_true_iff.
  split; apply forallb_forall; intros kv Hkv; apply in_literal in Hkv;
    specialize (H _ Hkv); unfold sound in H; apply andb_prop in H; tauto.
Qed.

Lemma sound_array (l : list json) :
  forallb sound l = true -> sound (JArr l) = true.
Proof.
  intros H. rewrite forallb_forall in H. unfold sound. cbn.
  apply andb_true_iff.
  split; apply forallb_forall; intros x Hx;
    specialize (H _ Hx); unfold sound in H; apply andb_prop in H; tauto.
Qed.

Lemma parse_sound fuel :
  (forall s v rest,
      Json.parse_value fuel s = Ok (v, rest) -> sound v = true) /\
  (forall s l rest,
      Json.parse_elements fuel s = Ok (l, rest) -> forallb sound l = true) /\
  (forall s l rest,
      Json.parse_members fuel s = Ok (l, rest) ->
      forallb (fun kv => sound (snd kv)) l = true).
Proof.
  induction fuel as [|n (IHv & IHe & IHm)].
  { repeat split; intros; discriminate. }
  split; [|split].
  - intros s v rest Hv. cbn [Json.parse_value] in Hv.
    destruct (Json.skip_ws s) as [|c r]; [discriminate|].
    cbn zeta in Hv.
    destruct (Text.code c =? 123)%N.
    { destruct (Json.skip_ws r) as [|d r'] eqn:Hr; [discriminate|].
      destruct (Text.code d =? 125)%N.
      - injection Hv as <- _. reflexivity.
      - destruct (Json.parse_members n (String d r')) as [[l rest']| |] eqn:Hl;
          try discriminate.
        cbn [bind fst snd] in Hv. injection Hv as <- _.
        apply sound_object. exact (IHm _ _ _ Hl). }
    destruct (Text.code c =? 91)%N.
    { destruct (Json.skip_ws r) as [|d r']; [discriminate|].
      destruct (Text.code d =? 93)%N.
      - injection Hv as <- _. reflexivity.
      - destruct (Json.parse_elements n r) as [[l rest']| |] eqn:Hl;
          try discriminate.
        cbn [bind fst snd] in Hv. injection Hv as <- _.
        apply sound_array. exact (IHe _ _ _ Hl). }
    destruct (Text.code c =? 34)%N.
    { destruct (Json.parse_string r) as [[l rest']| |]; try discriminate.
      cbn [bind fst snd] in Hv. injection Hv as <- _. reflexivity. }
    unfold Json.expect in Hv.
    destruct (Text.code c =? 110)%N.
    { destruct (prefix "null" (String c r)); [|discriminate].
      injection Hv as <- _. reflexivity. }
    destruct (Text.code c =? 116)%N.
    { destruct (prefix "true" (String c r)); [|discriminate].
      injection Hv as <- _. reflexivity. }
    destruct (Text.code c =? 102)%N.
    { destruct (prefix "false" (String c r)); [|discriminate].
      injection Hv as <- _. reflexivity. }
    destruct (Json.digit_char c || (Text.code c =? 45)%N); [|discriminate].
    unfold Json.parse_number in Hv.
    destruct (Json.span Json.number_char (String c r)) as [lit rest'].
    destruct (Text.all _ lit); [|discriminate].
    destruct (lit =? "-0"); [injection Hv as <- _; reflexivity|].
    destruct (NilZero.int_of_string lit) as [d|]; [|discriminate].
    destruct (lit =? _); [|discriminate].
    destruct (Z.abs (Z.of_int d) <=? Json.max_safe_integer)%Z eqn:Hd;
      [|discriminate].
    injection Hv as <- _. unfold sound. cbn. rewrite Hd. reflexivity.
  - intros s l rest Hl. cbn [Json.parse_elements] in Hl.
    destruct (Json.parse_value n s) as [[v r]| |] eqn:Hv; try discriminate.
    cbn [bind fst snd] in Hl. apply IHv in Hv.
    destruct (Json.skip_ws r) as [|c r']; [discriminate|].
    destruct (Text.code c =? 44)%N.
    + destruct (Json.parse_elements n r') as [[l' r'']| |] eqn:Hl';
        try discriminate.
      cbn [bind fst snd] in Hl. injection Hl as <- _.
      cbn [forallb]. rewrite Hv. exact (IHe _ _ _ Hl').
    + destruct (Text.code c =? 93)%N; [|discriminate].
      injection Hl as <- _. cbn [forallb]. rewrite Hv. reflexivity.
  - intros s l rest Hl. cbn [Json.parse_members] in Hl.
    destruct s as [|c r]; [discriminate|].
    destruct (Text.code c =? 34)%N; [|discriminate].
    destruct (Json.parse_string r) as [[k r1]| |]; try discriminate.
    cbn [bind fst snd] in Hl.
    destruct (Json.skip_ws r1) as [|d r2]; [discriminate|].
    destruct (Text.code d =? 58)%N; [|discriminate].
    destruct (Json.parse_value n r2) as [[v r3]| |] eqn:Hv; try discriminate.
    cbn [bind fst snd] in Hl. apply IHv in Hv.
    destruct (Json.skip_ws r3) as [|e r4]; [discriminate|].
    destruct (Text.code e =? 44)%N.
    + destruct (Json.parse_members n (Json.skip_ws r4)) as [[l' r5]| |] eqn:Hl';
        try discriminate.
      cbn [bind fst snd] in Hl. injection Hl as <- _.
      cbn [forallb snd]. rewrite Hv. exact (IHm _ _ _ Hl').
    + destruct (Text.code e =? 125)%N; [|discriminate].
      injection Hl as <- _. cbn [forallb snd]. rewrite Hv. reflexivity.
Qed.

End ParseSound.

(** A value [JSON.parse] returns has numbers of the safe range and objects
    with their keys in enumeration order. *)
Lemma parsed_sound (text : string) (v : json) :
  Json.parse text = Ok v -> sound v = true.
Proof.
  unfold Json.parse.
  destruct (Json.parse_value (S (String.length text)) text)
    as [[w rest]| |] eqn:Hw; try discriminate.
  cbn [bind fst snd]. destruct (Json.skip_ws rest); [|discriminate].
  intros [= <-]. destruct (parse_sound (S (String.length text))) as (H & _ & _).
  exact (H _ _ _ Hw).
Qed.

Lemma substituted_sound (config : json) (tokens : props string) (r : json) :
  Config.substituteTokens config tokens = Ok r -> sound r = true.
Proof.
  unfold Config.substituteTokens.
  destruct (fold_left Config.substitute_entry tokens _) as [text| |];
    try discriminate.
  cbn [bind]. apply parsed_sound.
Qed.

Lemma read_written_sound (v : json) :
  sound v = true -> Setup.readJson (Setup.writeJson v) = Ok v.
Proof.
  unfold sound. intros H. apply andb_prop in H. destruct H as [Hr Hw].
  rewrite read_written by exact Hr. rewrite normalize_well_formed by exact Hw.
  reflexivity.
Qed.

(** ** Merging into an existing configuration file *)

Lemma in_get {A : Type} (k : string) (v : A) (o : props A) :
  In (k, v) o -> exists v', Obj.get k o = Some v'.
Proof.
  induction o as [|[k0 v0] o IH]; simpl; [tauto|].
  destruct (String.eqb_spec k0 k) as [->|Hne]; [eauto|].
  intros [[= E _]|H]; [contradiction|auto].
Qed.

(** An object [JSON.parse] has built has its properties in enumeration
    order. *)
Lemma parsed_object (text : string) (o : props json) :
  Json.parse text = Ok (JObj o) -> Obj.literal o = o.
Proof.
  intros H. apply parsed_sound in H. unfold sound in H.
  apply andb_prop in H. destruct H as [_ H]. cbn [well_formed] in H.
  apply andb_prop in H. destruct H as [H _]. apply literal_ordered, H.
Qed.

Lemma sound_member (o : props json) (k : string) (v : json) :
  sound (JObj o) = true -> Obj.get k o = Some v -> sound v = true.
Proof.
  unfold sound. cbn [representable well_formed]. intros H Hk.
  apply get_in in Hk. apply andb_prop in H. destruct H as [Hr Hw].
  apply andb_prop in Hw. destruct Hw as [_ Hw].
  rewrite forallb_forall in Hr, Hw.
  apply andb_true_iff. split; [exact (Hr _ Hk)|exact (Hw _ Hk)].
Qed.

Lemma sound_set (o : props json) (k : string) (v : json) :
  sound (JObj o) = true -> sound v = true ->
  sound (JObj (Obj.set k v o)) = true.
Proof.
  unfold sound. cbn [representable well_formed]. intros H Hv.
  apply andb_prop in H. destruct H as [Hr Hw].
  apply andb_prop in Hw. destruct Hw as [Ho Hw].
  apply andb_prop in Hv. destruct Hv as [Hvr Hvw].
  rewrite forallb_forall in Hr, Hw.
  rewrite (ordered_set k v o Ho). cbn [andb]. apply andb_true_iff.
  split; apply forallb_forall; intros kv Hkv; apply in_set in Hkv;
    destruct Hkv as [->|Hkv]; auto.
Qed.

Section MergeLoop.

Variable step : result (props json) -> string -> result (props json).
Variable produced : string -> json -> Prop.
Variable passed : string -> Prop.

(** A turn of the loop passes the server over and leaves the configuration
    as it is, or assigns one entry of its [mcpServers] object. *)
Hypothesis step_spec : forall r s config',
  step r s = Ok config' ->
  exists config, r = Ok config /\
    ((passed s /\ config' = config) \/
     exists x servers,
       produced s x /\
       Obj.get "mcpServers" config = Some (JObj servers) /\
       config' = Obj.set "mcpServers" (JObj (Obj.set s x servers)) config).

Hypothesis produced_sound : forall s x, produced s x -> sound x = true.

Lemma loop_spec (names : list string) :
  forall r config',
  fold_left step names r = Ok config' ->
  exists config entries,
    r = Ok config /\
    Forall (fun kv => In (fst kv) names /\ produced (fst kv) (snd kv)) entries /\
    Forall (fun s => passed s \/ exists x, produced s x /\ In (s, x) entries)
      names /\
    Spec.servers_of config' = Obj.spread (Spec.servers_of config) entries /\
    Obj.without "mcpServers" config' = Obj.without "mcpServers" config /\
    (sound (JObj config) = true -> sound (JObj config') = true) /\
    ((exists mv, Obj.get "mcpServers" config = Some mv /\ truthy mv = true) ->
     exists mv, Obj.get "mcpServers" config' = Some mv /\ truthy mv = true).
Proof.
  induction names as [|s names IH]; simpl; intros r config' H.
  - exists config', [].
    repeat split; [exact H|constructor|constructor|auto|auto].
  - destruct (IH _ _ H)
      as (config1 & entries & Hstep & Hall & Hnames & Hservers & Htop & Hsound
          & Hsub).
    assert (Hweak : Forall (fun kv => (s = fst kv \/ In (fst kv) names)
                                      /\ produced (fst kv) (snd kv)) entries).
    { eapply Forall_impl; [|exact Hall]. intros kv [? ?]. auto. }
    destruct (step_spec _ _ _ Hstep) as (config & -> & [[Hpassed ->]|Hset]).
    + exists config, entries. repeat split; auto.
    + destruct Hset as (x & servers & Hx & Hget & ->).
      exists config, ((s, x) :: entries). split; [reflexivity|]. split.
      * constructor; [simpl; auto|exact Hweak].
      * split.
        -- constructor; [right; exists x; simpl; auto|].
           eapply Forall_impl; [|exact Hnames].
           intros s' [Hp|(x' & Hx' & Hin)]; [auto|].
           right. exists x'. simpl. auto.
        -- rewrite Hservers, Htop, without_set.
           split; [|split; [reflexivity|split]].
           ++ unfold Spec.servers_of. rewrite get_set_same, Hget. reflexivity.
           ++ intros Hc. apply Hsound, sound_set; [exact Hc|].
              apply sound_set; [|exact (produced_sound _ _ Hx)].
              exact (sound_member _ _ _ Hc Hget).
           ++ intros _. apply Hsub. eexists. rewrite get_set_same.
              split; reflexivity.
Qed.

End MergeLoop.

Lemma assign_object (servers : props json) (s : string) (x out : json) :
  Setup.assign (JObj servers) s x = Ok out ->
  out = JObj (Obj.set s x servers).
Proof.
  unfold Setup.assign, js_set. destruct (to_setter s servers); simpl;
    [discriminate|]. congruence.
Qed.

Lemma assign_server_spec (config : props json) (s : string) (x : json)
    (config' : props json) :
  Setup.assign_server config s x = Ok config' ->
  exists servers,
    Obj.get "mcpServers" config = Some (JObj servers) /\
    config' = Obj.set "mcpServers" (JObj (Obj.set s x servers)) config.
Proof.
  unfold Setup.assign_server.
  destruct (js_get config "mcpServers") as [servers| |] eqn:Hm;
    try discriminate.
  apply js_get_own in Hm.
  destruct (Setup.assign servers s x) as [out| |] eqn:Hout; try discriminate.
  cbn [bind]. intros [= <-].
  destruct servers as [| | | | |servers]; try discriminate.
  apply assign_object in Hout. subst out. eauto.
Qed.

Lemma add_claudeDesktop_spec mcpServers setup r s config' :
  Setup.add_claudeDesktop mcpServers setup r s = Ok config' ->
  exists config, r = Ok config /\
    ((False /\ config' = config) \/
     exists x servers,
       Spec.projected mcpServers setup "claudeDesktop" s x /\
       Obj.get "mcpServers" config = Some (JObj servers) /\
       config' = Obj.set "mcpServers" (JObj (Obj.set s x servers)) config).
Proof.
  unfold Setup.add_claudeDesktop.
  destruct r as [config| |]; simpl; try discriminate.
  destruct (Setup.client_fragment mcpServers s "claudeDesktop")
    as [fragment| |] eqn:Hf; simpl; try discriminate.
  destruct (Setup.substitute fragment (Setup.server_tokens setup s))
    as [x| |] eqn:Hx; simpl; try discriminate.
  intros H. apply assign_server_spec in H. destruct H as (servers & Hm & ->).
  exists config. split; [reflexivity|]. right.
  exists x, servers. split; [exists fragment; split; assumption|].
  split; [assumption|reflexivity].
Qed.

Lemma add_gemini_spec mcpServers setup r s config' :
  Setup.add_gemini mcpServers setup r s = Ok config' ->
  exists config, r = Ok config /\
    ((Outcome.gemini_skipped mcpServers s /\ config' = config) \/
     exists x servers,
       Outcome.gemini_entry mcpServers setup s x /\
       Obj.get "mcpServers" config = Some (JObj servers) /\
       config' = Obj.set "mcpServers" (JObj (Obj.set s x servers)) config).
Proof.
  unfold Setup.add_gemini.
  destruct r as [config| |]; simpl; try discriminate.
  destruct (Setup.client_fragment mcpServers s "gemini")
    as [fragment| |] eqn:Hf; simpl; try discriminate.
  destruct fragment as [v| |]; try discriminate.
  - destruct (truthy v) eqn:Hv.
    + destruct (Setup.substitute (Own v) (Setup.server_tokens setup s))
        as [x| |] eqn:Hx; simpl; try discriminate.
      intros H. apply assign_server_spec in H.
      destruct H as (servers & Hm & ->).
      exists config. split; [reflexivity|]. right.
      exists x, servers. split; [exists v; auto|].
      split; [assumption|reflexivity].
    + intros [= <-]. exists config. split; [reflexivity|]. left.
      split; [right; exists v; auto|reflexivity].
  - intros [= <-]. exists config. split; [reflexivity|]. left.
    split; [left; exact Hf|reflexivity].
Qed.

Lemma projected_sound mcpServers setup client s x :
  Spec.projected mcpServers setup client s x -> sound x = true.
Proof.
  intros (f & _ & Hx). unfold Setup.substitute in Hx.
  destruct f as [c| |]; try discriminate.
  - exact (substituted_sound _ _ _ Hx).
  - destruct (Setup.server_tokens setup s); discriminate.
Qed.

Lemma projected_functional mcpServers setup client s x y :
  Spec.projected mcpServers setup client s x ->
  Spec.projected mcpServers setup client s y -> x = y.
Proof. intros (f & Hf & Hx) (g & Hg & Hy). congruence. Qed.

Lemma gemini_entry_projected mcpServers setup s x :
  Outcome.gemini_entry mcpServers setup s x ->
  Spec.projected mcpServers setup "gemini" s x.
Proof. intros (v & Hf & _ & Hx). exists (Own v). auto. Qed.

Lemma gemini_entry_not_skipped mcpServers setup s x :
  Outcome.gemini_skipped mcpServers s ->
  Outcome.gemini_entry mcpServers setup s x -> False.
Proof.
  intros [H|(v & H & Hv)] (w & Hw & Hwt & _); congruence.
Qed.

(** What the loops of the two setup functions do to a configuration. *)
Lemma merged_entries (names : list string) (produced : string -> json -> Prop)
    (config0 config : props json) (entries : props json) :
  Forall (fun kv => In (fst kv) names /\ produced (fst kv) (snd kv)) entries ->
  Spec.servers_of config = Obj.spread (Spec.servers_of config0) entries ->
  Spec.unselected names (Spec.servers_of config)
    = Spec.unselected names (Spec.servers_of config0) /\
  (forall k, ~ In k names ->
     Obj.get k (Spec.servers_of config) = Obj.get k (Spec.servers_of config0)) /\
  (forall k x, Obj.get k (Spec.servers_of config) = Some x ->
     Obj.get k (Spec.servers_of config0) = Some x \/
     (In k names /\ produced k x)).
Proof.
  intros Hall ->. repeat split.
  - unfold Spec.unselected.
    apply (filter_spread (fun k => negb (Spec.selected names k))).
    eapply Forall_impl; [|exact Hall]. intros kv [Hin _].
    apply selected_in in Hin. rewrite Hin. reflexivity.
  - intros k Hk. rewrite get_spread.
    destruct (Obj.get k (rev entries)) as [v|] eqn:Hv; [|reflexivity].
    apply get_in, in_rev in Hv. rewrite Forall_forall in Hall.
    destruct (Hall _ Hv) as [Hin _]. contradiction.
  - intros k x. rewrite get_spread.
    destruct (Obj.get k (rev entries)) as [v|] eqn:Hv; [|auto].
    intros [= ->]. apply get_in, in_rev in Hv. rewrite Forall_forall in Hall.
    right. exact (Hall _ Hv).
Qed.

(** Every selected server has been passed over, and its entry is the
    existing one, or has the entry produced for it. *)
Lemma merged_written (names : list string) (produced : string -> json -> Prop)
    (passed : string -> Prop) (config0 config : props json)
    (entries : props json) :
  (forall s x y, produced s x -> produced s y -> x = y) ->
  (forall s x, passed s -> produced s x -> False) ->
  Forall (fun kv => In (fst kv) names /\ produced (fst kv) (snd kv)) entries ->
  Forall (fun s => passed s \/ exists x, produced s x /\ In (s, x) entries)
    names ->
  Spec.servers_of config = Obj.spread (Spec.servers_of config0) entries ->
  forall s, In s names ->
    (exists x, produced s x /\ Obj.get s (Spec.servers_of config) = Some x) \/
    (passed s /\
     Obj.get s (Spec.servers_of config) = Obj.get s (Spec.servers_of config0)).
Proof.
  intros Hfun Hexcl Hall Hnames -> s Hs.
  rewrite Forall_forall in Hall, Hnames. rewrite get_spread.
  destruct (Hnames _ Hs) as [Hp|(x & Hx & Hin)].
  - right. split; [exact Hp|].
    destruct (Obj.get s (rev entries)) as [v|] eqn:Hv; [|reflexivity].
    apply get_in, in_rev in Hv. destruct (Hall _ Hv) as [_ Hv'].
    destruct (Hexcl _ _ Hp Hv').
  - left. exists x. split; [exact Hx|].
    apply in_rev in Hin. destruct (in_get _ _ _ Hin) as (v & Hv).
    rewrite Hv. f_equal. apply get_in, in_rev in Hv.
    destruct (Hall _ Hv) as [_ Hv']. exact (Hfun _ _ _ Hv' Hx).
Qed.

Lemma initial_servers (o : props json) :
  Spec.servers_of
    (Obj.set "mcpServers" (Setup.or_empty (js_get o "mcpServers")) o)
  = Spec.servers_of o.
Proof.
  unfold Spec.servers_of. rewrite get_set_same. unfold js_get.
  destruct (Obj.get "mcpServers" o) as [[| | | | |]|]; simpl; try reflexivity.
  destruct b; reflexivity.
  destruct (negb (n =? 0)%Z); reflexivity.
  destruct (negb (s =? "")); reflexivity.
Qed.

Lemma claudeDesktop_config_spec mcpServers setup text existing out :
  Setup.readJson text = Ok (JObj existing) ->
  Setup.claudeDesktop_config mcpServers setup (Setup.Present text) = Ok out ->
  exists config0 config,
    out = JObj config /\
    fold_left (Setup.add_claudeDesktop mcpServers setup)
      (Setup.selectedServers setup) (Ok config0) = Ok config /\
    Obj.without "mcpServers" config0 = Obj.without "mcpServers" existing /\
    Spec.servers_of config0 = Spec.servers_of existing /\
    sound (JObj config0) = true /\
    (exists mv, Obj.get "mcpServers" config0 = Some mv /\ truthy mv = true).
Proof.
  unfold Setup.claudeDesktop_config. intros Hread H.
  pose proof (parsed_object _ _ Hread) as Hwf.
  pose proof (parsed_sound _ _ Hread) as Hsound.
  rewrite Hread in H. cbn [bind Setup.read_mcpServers Setup.own_properties] in H.
  change (Obj.spread [] existing) with (Obj.literal existing) in H.
  rewrite Hwf in H.
  match type of H with
  | bind ?f _ = _ => destruct f as [config| |] eqn:Hloop; try discriminate
  end.
  simpl in H. injection H as <-. eexists _, config.
  split; [reflexivity|]. split; [exact Hloop|]. split; [|split; [|split]].
  - apply without_set.
  - apply initial_servers.
  - apply sound_set; [exact Hsound|]. unfold Setup.or_empty, js_get.
    destruct (Obj.get "mcpServers" existing) as [mv|] eqn:Hm;
      [|destruct (Obj.inherited "mcpServers"); reflexivity].
    destruct (truthy mv); [|reflexivity].
    exact (sound_member _ _ _ Hsound Hm).
  - eexists. rewrite get_set_same. split; [reflexivity|].
    unfold Setup.or_empty, js_get.
    destruct (Obj.get "mcpServers" existing) as [mv|] eqn:Hm;
      [|destruct (Obj.inherited "mcpServers"); reflexivity].
    destruct (truthy mv) eqn:Hmv; [exact Hmv|reflexivity].
Qed.

Lemma gemini_config_spec mcpServers setup text existing out :
  Setup.readJson text = Ok (JObj existing) ->
  Setup.gemini_config mcpServers setup (Setup.Present text) = Ok out ->
  exists config0 config,
    out = JObj config /\
    fold_left (Setup.add_gemini mcpServers setup)
      (Setup.selectedServers setup) (Ok config0) = Ok config /\
    Obj.without "mcpServers" config0 = Obj.without "mcpServers" existing /\
    Spec.servers_of config0 = Spec.servers_of existing /\
    sound (JObj config0) = true /\
    (exists mv, Obj.get "mcpServers" config0 = Some mv /\ truthy mv = true).
Proof.
  unfold Setup.gemini_config. intros Hread H.
  assert (Hsub : exists mv,
            Obj.get "mcpServers" (Obj.set "mcpServers" (JObj []) existing)
            = Some mv /\ truthy mv = true).
  { eexists. rewrite get_set_same. split; reflexivity. }
  pose proof (parsed_sound _ _ Hread) as Hsound.
  assert (Hempty : sound (JObj (Obj.set "mcpServers" (JObj []) existing))
                   = true) by (apply sound_set; [exact Hsound|reflexivity]).
  assert (Hloop : forall config0,
    bind (fold_left (Setup.add_gemini mcpServers setup)
            (Setup.selectedServers setup) (Ok config0))
      (fun config => Ok (JObj config)) = Ok out ->
    exists config, out = JObj config /\
      fold_left (Setup.add_gemini mcpServers setup)
        (Setup.selectedServers setup) (Ok config0) = Ok config).
  { intros config0 E.
    destruct (fold_left _ _ _) as [config| |]; try discriminate.
    simpl in E. injection E as <-. exists config. auto. }
  assert (Hinit : forall o,
    Spec.servers_of (Obj.set "mcpServers" (JObj []) o) = []).
  { intros o. unfold Spec.servers_of. rewrite get_set_same. reflexivity. }
  assert (Hset : Setup.assign (JObj existing) "mcpServers" (JObj [])
                 = Ok (JObj (Obj.set "mcpServers" (JObj []) existing))).
  { reflexivity. }
  rewrite Hread in H. cbn [bind Setup.read_mcpServers] in H.
  unfold js_get in H.
  destruct (Obj.get "mcpServers" existing) as [mv|] eqn:Hm; cbn [bind] in H.
  - destruct (truthy mv) eqn:Hmv; [|rewrite Hset in H]; cbn [bind] in H;
      apply Hloop in H; destruct H as (config & -> & H);
      eexists _, config; (split; [reflexivity|]); (split; [exact H|]).
    + repeat split; [exact Hsound|]. eauto.
    + split; [apply without_set|]. split; [|split; [exact Hempty|exact Hsub]].
      rewrite Hinit.
      unfold Spec.servers_of. rewrite Hm.
      destruct mv; try reflexivity. discriminate.
  - assert (E : (if Obj.inherited "mcpServers"
                 then @Inherited json else Undefined) = Undefined)
      by reflexivity.
    rewrite E in H. rewrite Hset in H. cbn [bind] in H.
    apply Hloop in H. destruct H as (config & -> & H).
    eexists _, config. split; [reflexivity|]. split; [exact H|].
    split; [apply without_set|]. split; [|split; [exact Hempty|exact Hsub]].
    rewrite Hinit.
    unfold Spec.servers_of. rewrite Hm. reflexivity.
Qed.

(** A setup function reports a failure and leaves the file alone, or
    reports a success and, unless the run is a dry one, writes the
    configuration. *)
Lemma finish_spec setup existing config returned after :
  Setup.finish setup existing config = Ok (returned, after) ->
  (returned = false /\ after = existing) \/
  exists out,
    config = Ok out /\ returned = true /\
    after = if Setup.dryRun setup then existing
            else Setup.Present (Setup.writeJson out).
Proof.
  unfold Setup.finish. destruct config as [out| |]; try discriminate.
  - intros [= <- <-]. right. exists out. auto.
  - intros [= <- <-]. auto.
Qed.

Section WrittenText.
Local Open Scope string_scope.


End WrittenText.

(** What the loop of a setup function leaves in the configuration. *)
Lemma merge_loop (mcpServers : Config.catalog) (setup : Setup.MCPSetup)
    (client : string) (existing : props json)
    (step : result (props json) -> string -> result (props json))
    (produced : string -> json -> Prop) (passed : string -> Prop)
    (config0 config : props json) :
  (forall r s config',
     step r s = Ok config' ->
     exists config, r = Ok config /\
       ((passed s /\ config' = config) \/
        exists x servers,
          produced s x /\
          Obj.get "mcpServers" config = Some (JObj servers) /\
          config' = Obj.set "mcpServers" (JObj (Obj.set s x servers)) config)) ->
  (forall s x, produced s x -> Spec.projected mcpServers setup client s x) ->
  (forall s x, passed s -> produced s x -> False) ->
  (forall s, passed s ->
     client = "gemini" /\ Outcome.gemini_skipped mcpServers s) ->
  fold_left step (Setup.selectedServers setup) (Ok config0) = Ok config ->
  Obj.without "mcpServers" config0 = Obj.without "mcpServers" existing ->
  Spec.servers_of config0 = Spec.servers_of existing ->
  sound (JObj config0) = true ->
  (exists mv, Obj.get "mcpServers" config0 = Some mv /\ truthy mv = true) ->
  sound (JObj config) = true /\
  (exists mv, Obj.get "mcpServers" config = Some mv /\ truthy mv = true) /\
  Obj.without "mcpServers" config = Obj.without "mcpServers" existing /\
  (forall k, k <> "mcpServers" -> Obj.get k config = Obj.get k existing) /\
  Spec.unselected (Setup.selectedServers setup) (Spec.servers_of config)
    = Spec.unselected (Setup.selectedServers setup)
        (Spec.servers_of existing) /\
  (forall k, ~ In k (Setup.selectedServers setup) ->
     Obj.get k (Spec.servers_of config)
     = Obj.get k (Spec.servers_of existing)) /\
  (forall k x, Obj.get k (Spec.servers_of config) = Some x ->
     Obj.get k (Spec.servers_of existing) = Some x \/
     (In k (Setup.selectedServers setup) /\
      Spec.projected mcpServers setup client k x)) /\
  (forall s, In s (Setup.selectedServers setup) ->
     (exists x,
        Spec.projected mcpServers setup client s x /\
        Obj.get s (Spec.servers_of config) = Some x) \/
     (client = "gemini" /\ Outcome.gemini_skipped mcpServers s /\
      Obj.get s (Spec.servers_of config)
      = Obj.get s (Spec.servers_of existing))).
Proof.
  intros Hstep Hproj Hexcl Hpassed Hloop Htop Hservers Hsound0 Hsub0.
  assert (Hsound : forall s x, produced s x -> sound x = true).
  { intros s x Hx. exact (projected_sound _ _ _ _ _ (Hproj _ _ Hx)). }
  destruct (loop_spec step produced passed Hstep Hsound _ _ _ Hloop)
    as (c0 & entries & [= <-] & Hall & Hnames & Hspread & Hkeep & Hgood
        & Hsub).
  assert (Htop' : Obj.without "mcpServers" config
                  = Obj.without "mcpServers" existing) by congruence.
  assert (Hfun : forall s x y, produced s x -> produced s y -> x = y).
  { intros s x y Hx Hy.
    exact (projected_functional _ _ _ _ _ _ (Hproj _ _ Hx) (Hproj _ _ Hy)). }
  split; [exact (Hgood Hsound0)|]. split; [exact (Hsub Hsub0)|].
  split; [exact Htop'|]. split; [apply without_get_other, Htop'|].
  rewrite <- Hservers.
  destruct (merged_entries _ produced config0 config entries Hall Hspread)
    as (Hun & Hother & Hevery).
  split; [exact Hun|]. split; [exact Hother|]. split.
  - intros k x Hk. destruct (Hevery _ _ Hk) as [|[Hin Hx]]; auto.
  - intros s Hs.
    destruct (merged_written _ produced passed config0 config entries
                Hfun Hexcl Hall Hnames Hspread s Hs)
      as [(x & Hx & Hget)|[Hp Hget]].
    + left. exists x. auto.
    + right. destruct (Hpassed _ Hp). auto.
Qed.

(** What a run that succeeds, and is not a dry one, leaves in the file. *)
Lemma merged_config (os : Setup.platform) (mcpServers : Config.catalog)
    (setup : Setup.MCPSetup) (text : string) (existing : props json)
    (client : string) (after : Setup.file) :
  Setup.readJson text = Ok (JObj existing) ->
  Setup.dryRun setup = false ->
  (client = "claudeDesktop" /\
   Setup.setupClaudeDesktop os mcpServers setup (Setup.Present text)
     = Ok (true, after)) \/
  (client = "gemini" /\
   Setup.setupGeminiCLI mcpServers setup (Setup.Present text)
     = Ok (true, after)) ->
  exists config,
    after = Setup.Present (Setup.writeJson (JObj config)) /\
    sound (JObj config) = true /\
    (exists mv, Obj.get "mcpServers" config = Some mv /\ truthy mv = true) /\
    Obj.without "mcpServers" config = Obj.without "mcpServers" existing /\
    (forall k, k <> "mcpServers" -> Obj.get k config = Obj.get k existing) /\
    Spec.unselected (Setup.selectedServers setup) (Spec.servers_of config)
      = Spec.unselected (Setup.selectedServers setup)
          (Spec.servers_of existing) /\
    (forall k, ~ In k (Setup.selectedServers setup) ->
       Obj.get k (Spec.servers_of config)
       = Obj.get k (Spec.servers_of existing)) /\
    (forall k x, Obj.get k (Spec.servers_of config) = Some x ->
       Obj.get k (Spec.servers_of existing) = Some x \/
       (In k (Setup.selectedServers setup) /\
        Spec.projected mcpServers setup client k x)) /\
    (forall s, In s (Setup.selectedServers setup) ->
       (exists x,
          Spec.projected mcpServers setup client s x /\
          Obj.get s (Spec.servers_of config) = Some x) \/
       (client = "gemini" /\ Outcome.gemini_skipped mcpServers s /\
        Obj.get s (Spec.servers_of config)
        = Obj.get s (Spec.servers_of existing))).
Proof.
  intros Hread Hdry H.
  assert (Hfinish : forall config,
    Setup.finish setup (Setup.Present text) config = Ok (true, after) ->
    exists out, config = Ok out /\
      after = Setup.Present (Setup.writeJson out)).
  { intros config Hfin. apply finish_spec in Hfin.
    destruct Hfin as [[Hr _]|(out & Hc & _ & Ha)]; [discriminate|].
    rewrite Hdry in Ha. eauto. }
  destruct H as [[-> H]|[-> H]].
  - unfold Setup.setupClaudeDesktop in H.
    assert (Hfin : Setup.finish setup (Setup.Present text)
                     (Setup.claudeDesktop_config mcpServers setup
                        (Setup.Present text))
                   = Ok (true, after)).
    { destruct os; auto. discriminate. }
    apply Hfinish in Hfin. destruct Hfin as (out & Hout & ->).
    destruct (claudeDesktop_config_spec _ _ _ _ _ Hread Hout)
      as (config0 & config & -> & Hloop & Htop & Hservers & Hsound & Hsub).
    exists config. split; [reflexivity|].
    apply (merge_loop mcpServers setup "claudeDesktop" existing
             (Setup.add_claudeDesktop mcpServers setup)
             (Spec.projected mcpServers setup "claudeDesktop")
             (fun _ => False) config0 config); auto.
    + apply add_claudeDesktop_spec.
    + intros s [].
  - unfold Setup.setupGeminiCLI in H.
    apply Hfinish in H. destruct H as (out & Hout & ->).
    destruct (gemini_config_spec _ _ _ _ _ Hread Hout)
      as (config0 & config & -> & Hloop & Htop & Hservers & Hsound & Hsub).
    exists config. split; [reflexivity|].
    apply (merge_loop mcpServers setup "gemini" existing
             (Setup.add_gemini mcpServers setup)
             (Outcome.gemini_entry mcpServers setup)
             (Outcome.gemini_skipped mcpServers) config0 config); auto.
    + apply add_gemini_spec.
    + apply gemini_entry_projected.
    + intros s x Hs Hx. exact (gemini_entry_not_skipped _ _ _ _ Hs Hx).
Qed.




(** ** Placeholders of other names *)

Section CoveredFacts.
Local Open Scope string_scope.

Lemma covered_plain names a b :
  no_dollar a = true -> covered names (a ++ b) = covered names b.
Proof.
  induction a as [|c a IH]; [reflexivity|].
  intros H. pose proof (no_dollar_head _ _ H) as Hc.
  apply andb_prop in H. destruct H as [_ H].
  cbn [append covered]. rewrite Ascii.eqb_sym, Hc. apply IH, H.
Qed.

Lemma covered_suffix names a b :
  covered names (a ++ b) = true -> covered names b = true.
Proof.
  induction a as [|c a IH]; [auto|].
  cbn [append covered]. intros H. apply andb_prop in H. apply IH, H.
Qed.

Lemma covered_nil s : covered [] s = true -> no_dollar s = true.
Proof.
  induction s as [|c s IH]; [reflexivity|].
  cbn [covered existsb]. intros H. apply andb_prop in H. destruct H as [Hc H].
  unfold no_dollar, lacks. cbn [Text.all].
  destruct (Ascii.eqb c Text.dollar); [discriminate|]. apply IH, H.
Qed.

(** Two names closed by a brace at the same place are the same name. *)
Lemma closed_name k : forall m q,
  lacks Text.rbrace k = true -> lacks Text.rbrace m = true ->
  prefix (k ++ "}") (m ++ "}" ++ q) = true -> k = m.
Proof.
  induction k as [|c k IH]; intros [|d m] q Hk Hm H.
  - reflexivity.
  - cbn [append] in H. rewrite prefix_cons in H.
    apply andb_prop in Hm. destruct Hm as [Hd _].
    apply andb_prop in H. destruct H as [H _].
    apply Ascii.eqb_eq in H. subst d. discriminate.
  - cbn [append] in H. rewrite prefix_cons in H.
    apply andb_prop in Hk. destruct Hk as [Hc _].
    apply andb_prop in H. destruct H as [H _].
    apply Ascii.eqb_eq in H. subst c. discriminate.
  - cbn [append] in H. rewrite prefix_cons in H.
    apply andb_prop in H. destruct H as [Hcd H].
    apply Ascii.eqb_eq in Hcd. subst d.
    apply andb_prop in Hk. apply andb_prop in Hm.
    f_equal. apply (IH m q); tauto.
Qed.

Lemma word_lacks c key :
  (forall x, Text.word_char x = true -> Ascii.eqb x c = false) ->
  Text.all Text.word_char key = true -> lacks c key = true.
Proof.
  intros Hc. apply all_impl. intros x Hx. rewrite (Hc x Hx). reflexivity.
Qed.

Lemma word_no_rbrace key :
  Text.all Text.word_char key = true -> lacks Text.rbrace key = true.
Proof. apply word_lacks. intros x Hx. apply word_char_facts, Hx. Qed.

Lemma word_no_dollar key :
  Text.all Text.word_char key = true -> no_dollar key = true.
Proof. apply word_lacks. intros x Hx. apply word_char_facts, Hx. Qed.

Variables key value : string.
Hypothesis key_word : Text.all Text.word_char key = true.
Hypothesis value_plain : plain value = true.

Let R : string -> string :=
  Text.replace_all (Config.placeholder key) value.

(** The placeholder of another name stays where it is. *)
Lemma replace_other m q :
  no_dollar m = true -> lacks Text.rbrace m = true -> m <> key ->
  R (Config.placeholder m ++ q) = Config.placeholder m ++ R q.
Proof.
  intros Hm Hbrace Hneq.
  assert (E : forall r, Config.placeholder m ++ r
                        = String Text.dollar (("{" ++ m ++ "}") ++ r))
    by reflexivity.
  rewrite !E. unfold R. rewrite placeholder_body, replace_all_step.
  - f_equal.
    apply replace_all_plain; [apply plain_no_dollar, value_plain|].
    unfold no_dollar, lacks in *. cbn [append Text.all].
    rewrite all_append, Hm. reflexivity.
  - apply plain_no_dollar, value_plain.
  - cbn [append]. rewrite append_assoc, !prefix_cons.
    cbn [Ascii.eqb Text.dollar].
    destruct (prefix (key ++ "}") (m ++ "}" ++ q)) eqn:P; [|reflexivity].
    exfalso. apply Hneq. symmetry.
    apply (closed_name key m q); auto using word_no_rbrace.
Qed.

Lemma replace_key q : R (Config.placeholder key ++ q) = value ++ R q.
Proof.
  unfold R. rewrite placeholder_body.
  apply replace_all_hit, plain_no_dollar, value_plain.
Qed.

Variable names : list string.
Hypothesis names_word : Forall (fun m => Text.all Text.word_char m = true) names.

(** Once the placeholders of [key] are replaced, the dollar signs left are
    those of the placeholders of the other names. *)
Lemma covered_step n : forall s,
  String.length s <= n ->
  covered (key :: names) s = true -> covered names (R s) = true.
Proof.
  induction n as [|n IH]; intros [|c s] Hlen Hs; try reflexivity.
  - simpl in Hlen. lia.
  - simpl in Hlen. pose proof Hs as Hall. cbn [covered existsb] in Hs.
    apply andb_prop in Hs. destruct Hs as [Hhead Hs].
    destruct (Ascii.eqb c Text.dollar) eqn:Hc.
    + apply Ascii.eqb_eq in Hc. subst c. apply orb_prop in Hhead.
      destruct (prefix (Config.placeholder key) (String Text.dollar s))
        eqn:Hkey.
      * apply prefix_split in Hkey. rewrite Hkey, replace_key.
        rewrite covered_plain by (apply plain_no_dollar, value_plain).
        assert (L : String.length (String Text.dollar s)
                    = String.length (Config.placeholder key)
                      + String.length
                          (Text.drop (String.length (Config.placeholder key))
                             (String Text.dollar s))).
        { rewrite <- length_append, <- Hkey. reflexivity. }
        apply IH.
        -- assert (1 <= String.length (Config.placeholder key))
             by (rewrite placeholder_body; simpl; lia).
           change (String.length (String Text.dollar s))
             with (S (String.length s)) in L. lia.
        -- apply (covered_suffix _ (Config.placeholder key)).
           rewrite <- Hkey. exact Hall.
      * destruct Hhead as [Hhead|Hhead]; [discriminate|].
        apply existsb_exists in Hhead. destruct Hhead as (m & Hin & Hm).
        rewrite Forall_forall in names_word. pose proof (names_word m Hin).
        assert (Hneq : m <> key) by (intros ->; congruence).
        pose proof (prefix_split _ _ Hm) as E. rewrite E.
        rewrite replace_other by auto using word_no_dollar, word_no_rbrace.
        assert (L : String.length (String Text.dollar s)
                    = String.length (Config.placeholder m)
                      + String.length
                          (Text.drop (String.length (Config.placeholder m))
                             (String Text.dollar s))).
        { rewrite <- length_append, <- E. reflexivity. }
        assert (T : covered names
                      (R (Text.drop (String.length (Config.placeholder m))
                            (String Text.dollar s))) = true).
        { apply IH.
          - assert (1 <= String.length (Config.placeholder m))
              by (rewrite placeholder_body; simpl; lia).
            change (String.length (String Text.dollar s))
              with (S (String.length s)) in L. lia.
          - apply (covered_suffix _ (Config.placeholder m)).
            rewrite <- E. exact Hall. }
        set (b := R _) in *. rewrite placeholder_body.
        cbn [append covered]. cbn [Ascii.eqb Text.dollar].
        rewrite covered_plain, T.
        -- rewrite andb_true_r. apply existsb_exists. exists m.
           split; [exact Hin|]. rewrite placeholder_body.
           apply (prefix_append (String Text.dollar ("{" ++ m ++ "}")) b).
        -- unfold no_dollar, lacks. cbn [append Text.all].
           apply word_no_dollar in H. unfold no_dollar, lacks in H.
           rewrite all_append, H. reflexivity.
    + unfold R. rewrite replace_all_step.
      * cbn [covered]. rewrite Hc. apply IH; [lia|exact Hs].
      * apply plain_no_dollar, value_plain.
      * rewrite placeholder_body. apply prefix_head.
        rewrite Ascii.eqb_sym. exact Hc.
Qed.

End CoveredFacts.

Lemma substitute_covered (tokens : props string) :
  forallb token_ok tokens = true ->
  forall s, covered (Obj.keys tokens) s = true ->
  no_dollar (substitute_string tokens s) = true.
Proof.
  induction tokens as [|[k v] tokens IH]; intros Hok s Hs.
  - apply covered_nil, Hs.
  - cbn [forallb] in Hok. apply andb_prop in Hok. destruct Hok as [Hkv Hok].
    apply andb_prop in Hkv. destruct Hkv as [Hk Hv]. cbn [fst snd] in Hk, Hv.
    unfold substitute_string. cbn [fold_left fst snd].
    apply (IH Hok). apply (covered_step k v Hk Hv _) with (n := String.length s);
      [|lia|exact Hs].
    apply Forall_forall. intros m Hm. unfold Obj.keys in Hm.
    apply in_map_iff in Hm. destruct Hm as ([k' v'] & <- & Hin).
    rewrite forallb_forall in Hok. specialize (Hok _ Hin).
    apply andb_prop in Hok. apply Hok.
Qed.

Lemma substitute_fixed (tokens : props string) :
  forallb token_ok tokens = true ->
  forall s, no_dollar s = true -> substitute_string tokens s = s.
Proof.
  induction tokens as [|[k v] tokens IH]; intros Hok s Hs; [reflexivity|].
  cbn [forallb] in Hok. apply andb_prop in Hok. destruct Hok as [Hkv Hok].
  apply andb_prop in Hkv. destruct Hkv as [Hk Hv]. cbn [fst snd] in Hk, Hv.
  unfold substitute_string. cbn [fold_left fst snd].
  rewrite placeholder_body, replace_all_fixed by auto using plain_no_dollar.
  apply (IH Hok), Hs.
Qed.

(** C1, as stated, fails: the placeholder of a token whose value holds
    that placeholder is still there after a substitution, and the next one
    replaces it again. *)
Lemma substitution_repeats :
  forallb (covered (Obj.keys Samples.growing_tokens))
    (strings_of (JStr "${A}")) = true /\
  Config.substituteTokens (JStr "${A}") Samples.growing_tokens
    = Ok (JStr "${A}!") /\
  Config.substituteTokens (JStr "${A}!") Samples.growing_tokens
    = Ok (JStr "${A}!!") /\
  JStr "${A}!!" <> JStr "${A}!".
Proof. repeat split; try reflexivity. discriminate. Qed.

(** A replacement can also complete a placeholder around it, whatever
    the token values are made of. *)
Lemma substitution_completes_placeholder :
  Config.substituteTokens (JStr "${${A}}") [("B", "val"); ("A", "B")]
    = Ok (JStr "${B}") /\
  Config.substituteTokens (JStr "${B}") [("B", "val"); ("A", "B")]
    = Ok (JStr "val").
Proof. split; reflexivity. Qed.

(** C1, amended.  For token names made of word characters and token
    values that hold neither a dollar sign nor a character JSON escapes,
    and for a value in which every dollar sign begins the placeholder of
    one of the tokens: [substituteTokens] returns a result, none of whose
    strings (keys included) holds a dollar sign, and applied to that result
    with the same tokens it returns it again. *)
Theorem substitution_idempotent (config : json) (tokens : props string) :
  forallb token_ok tokens = true ->
  representable config = true ->
  forallb (covered (Obj.keys tokens)) (strings_of config) = true ->
  exists r,
    Config.substituteTokens config tokens = Ok r /\
    forallb no_dollar (strings_of r) = true /\
    Config.substituteTokens r tokens = Ok r.
Proof.
  intros Hok Hrep Hcov.
  set (f := substitute_string tokens).
  exists (Json.normalize (Json.map_strings f config)).
  assert (Hclean : forall s,
    In s (strings_of (Json.normalize (Json.map_strings f config))) ->
    no_dollar s = true).
  { intros s Hs. apply strings_normalize in Hs. rewrite strings_map in Hs.
    apply in_map_iff in Hs. destruct Hs as (s0 & <- & Hs0).
    apply substitute_covered; [exact Hok|].
    rewrite forallb_forall in Hcov. apply Hcov, Hs0. }
  split; [apply substituteTokens_spec; assumption|].
  split; [apply forallb_forall, Hclean|].
  rewrite substituteTokens_spec; auto.
  - fold f. rewrite map_strings_fixed; [rewrite normalize_idempotent; reflexivity|].
    intros s Hs. apply substitute_fixed; [exact Hok|]. apply Hclean, Hs.
  - apply representable_normalize. rewrite representable_map_strings.
    exact Hrep.
Qed.

Lemma substitution_idempotent_witness :
  exists r,
    Config.substituteTokens Samples.bearer_fragment Samples.github_tokens
      = Ok r /\
    forallb no_dollar (strings_of r) = true /\
    Config.substituteTokens r Samples.github_tokens = Ok r.
Proof. apply substitution_idempotent; reflexivity. Defined.

(** ** Placeholders without a token *)

Section UnresolvedFacts.
Local Open Scope string_scope.

Variable name : string.
Hypothesis name_word : Text.all Text.word_char name = true.

Lemma replace_keeps key value p q :
  Text.all Text.word_char key = true -> plain value = true -> name <> key ->
  Text.replace_all (Config.placeholder key) value
    (p ++ Config.placeholder name ++ q)
  = Text.replace_all (Config.placeholder key) value p
    ++ Config.placeholder name
    ++ Text.replace_all (Config.placeholder key) value q.
Proof.
  intros Hkey Hvalue Hneq.
  rewrite <- (replace_other key value Hkey Hvalue name q)
    by auto using word_no_dollar, word_no_rbrace.
  rewrite (placeholder_body key).
  change (Config.placeholder name ++ q)
    with (String Text.dollar (("{" ++ name ++ "}") ++ q)).
  apply replace_all_separated; [apply plain_no_dollar, Hvalue|].
  apply body_no_dollar, Hkey.
Qed.

Lemma substitute_keeps (tokens : props string) :
  forallb token_ok tokens = true -> Obj.get name tokens = None ->
  forall p q,
  substitute_string tokens (p ++ Config.placeholder name ++ q)
  = substitute_string tokens p ++ Config.placeholder name
    ++ substitute_string tokens q.
Proof.
  induction tokens as [|[k v] tokens IH]; intros Hok Hget p q; [reflexivity|].
  cbn [forallb] in Hok. apply andb_prop in Hok. destruct Hok as [Hkv Hok].
  apply andb_prop in Hkv. destruct Hkv as [Hk Hv]. cbn [fst snd] in Hk, Hv.
  cbn [Obj.get] in Hget. destruct (String.eqb_spec k name) as [|Hneq];
    [discriminate|].
  unfold substitute_string. cbn [fold_left fst snd].
  rewrite replace_keeps by auto. apply (IH Hok Hget).
Qed.

End UnresolvedFacts.

(** For a value as JavaScript has them whose keys hold no dollar sign,
    reading the text back changes nothing. *)
Lemma substituteTokens_well_formed (config : json) (tokens : props string) :
  forallb token_ok tokens = true ->
  representable config = true ->
  well_formed config = true ->
  forallb no_dollar (keys_of config) = true ->
  Config.substituteTokens config tokens
  = Ok (Json.map_strings (substitute_string tokens) config).
Proof.
  intros Hok Hrep Hwf Hkeys. rewrite substituteTokens_spec by assumption.
  rewrite normalize_well_formed; [reflexivity|].
  apply well_formed_map; [|exact Hwf].
  intros k Hk. apply substitute_fixed; [exact Hok|].
  rewrite forallb_forall in Hkeys. apply Hkeys, Hk.
Qed.

(** C2, as stated, fails: a key that a substitution turns into another
    key of the same object takes the place of that key's value,
    placeholder and all. *)
Lemma unresolved_placeholder_lost :
  Obj.get "N" [("B", "k")] = None /\
  Config.substituteTokens
    (JObj [("k", JStr "${N}"); ("${B}", JStr "z")]) [("B", "k")]
  = Ok (JObj [("k", JStr "z")]).
Proof. split; reflexivity. Qed.

(** A token value with a quote leaves a text that [JSON.parse] refuses:
    nothing is returned. *)
Lemma substitution_breaks_text :
  Config.substituteTokens (JStr "${N} ${A}") [("A", String Text.quote "")]
  = Throws SyntaxError.
Proof. reflexivity. Qed.

(** C2, amended.  For token names made of word characters and token
    values that hold neither a dollar sign nor a character JSON escapes,
    for a value whose keys hold no dollar sign, and for a name of word
    characters that is not among the tokens: [substituteTokens] returns
    the value with every string [s] replaced by its substitution, the keys
    as they were, and the substitution of a string leaves every occurrence
    of the placeholder of that name where it is, between the substitution
    of what comes before it and of what comes after it. *)
Theorem unresolved_tokens_preserved
    (config : json) (tokens : props string) (name : string) :
  forallb token_ok tokens = true ->
  representable config = true ->
  well_formed config = true ->
  forallb no_dollar (keys_of config) = true ->
  Text.all Text.word_char name = true ->
  Obj.get name tokens = None ->
  Config.substituteTokens config tokens
    = Ok (Json.map_strings (substitute_string tokens) config) /\
  (forall k, In k (keys_of config) -> substitute_string tokens k = k) /\
  forall p q : string,
    substitute_string tokens (p ++ Config.placeholder name ++ q)
    = (substitute_string tokens p ++ Config.placeholder name
       ++ substitute_string tokens q)%string.
Proof.
  intros Hok Hrep Hwf Hkeys Hname Hget. repeat split.
  - apply substituteTokens_well_formed; assumption.
  - intros k Hk. apply substitute_fixed; [exact Hok|].
    rewrite forallb_forall in Hkeys. apply Hkeys, Hk.
  - apply substitute_keeps; assumption.
Qed.

Lemma unresolved_tokens_preserved_witness :
  Config.substituteTokens Samples.bearer_fragment Samples.workspace_tokens
    = Ok (Json.map_strings (substitute_string Samples.workspace_tokens)
            Samples.bearer_fragment) /\
  (forall k, In k (keys_of Samples.bearer_fragment) ->
     substitute_string Samples.workspace_tokens k = k) /\
  forall p q : string,
    substitute_string Samples.workspace_tokens
      (p ++ Config.placeholder "GITHUB_PERSONAL_ACCESS_TOKEN" ++ q)
    = (substitute_string Samples.workspace_tokens p
       ++ Config.placeholder "GITHUB_PERSONAL_ACCESS_TOKEN"
       ++ substitute_string Samples.workspace_tokens q)%string.
Proof. apply unresolved_tokens_preserved; reflexivity. Defined.

(** ** Inputs of VS Code *)

Section ConvertFacts.
Local Open Scope string_scope.

Lemma convert_from_skip s : forall k,
  Text.convert_from k s = Text.convert_from 0 (Text.drop k s).
Proof.
  induction s as [|c s IH]; intros [|k]; try reflexivity.
  cbn [Text.convert_from Text.drop]. apply IH.
Qed.

Lemma match_input_head c s :
  Ascii.eqb c Text.lbrace = false -> Text.match_input (String c s) = None.
Proof.
  intros Hc. destruct s as [|d s]; [reflexivity|].
  cbn [Text.match_input].
  change 123%N with (Text.code Text.lbrace). rewrite code_eqb, Hc.
  reflexivity.
Qed.

Lemma match_input_second c d s :
  Ascii.eqb d Text.lbrace = false ->
  Text.match_input (String c (String d s)) = None.
Proof.
  intros Hd. cbn [Text.match_input].
  change 123%N with (Text.code Text.lbrace). rewrite !code_eqb, Hd.
  rewrite andb_false_r. reflexivity.
Qed.

Lemma convert_step c s :
  Text.match_input (String c s) = None ->
  Text.convert_inputs (String c s) = String c (Text.convert_inputs s).
Proof.
  intros H. unfold Text.convert_inputs. cbn [Text.convert_from].
  rewrite H. reflexivity.
Qed.

(** No input begins in a text without an opening brace. *)
Lemma convert_plain a b :
  lacks Text.lbrace a = true ->
  Text.convert_inputs (a ++ b) = a ++ Text.convert_inputs b.
Proof.
  induction a as [|c a IH]; [reflexivity|]. intros H.
  apply andb_prop in H. destruct H as [Hc H]. apply negb_true_iff in Hc.
  cbn [append]. rewrite convert_step by (apply match_input_head, Hc).
  rewrite IH by exact H. reflexivity.
Qed.

Lemma convert_fixed a :
  lacks Text.lbrace a = true -> Text.convert_inputs a = a.
Proof.
  intros H. rewrite <- (append_nil_r a) at 1.
  rewrite convert_plain by exact H. apply append_nil_r.
Qed.

(** Nor at a single opening brace. *)
Lemma convert_brace a b :
  lacks Text.lbrace a = true -> a <> "" ->
  Text.convert_inputs (String Text.lbrace (a ++ b))
  = String Text.lbrace (a ++ Text.convert_inputs b).
Proof.
  intros H Ha. destruct a as [|c a]; [congruence|].
  pose proof H as H'. apply andb_prop in H'. destruct H' as [Hc _].
  apply negb_true_iff in Hc. cbn [append].
  rewrite convert_step by (apply match_input_second, Hc).
  f_equal. apply (convert_plain (String c a)), H.
Qed.

Lemma span_open_run n : forall r,
  lacks Text.rbrace n = true ->
  Text.span_open (n ++ String Text.rbrace r) = (n, String Text.rbrace r).
Proof.
  induction n as [|c n IH]; intros r H; [reflexivity|].
  apply andb_prop in H. destruct H as [Hc H]. apply negb_true_iff in Hc.
  cbn [append Text.span_open].
  change 125%N with (Text.code Text.rbrace). rewrite code_eqb, Hc.
  rewrite IH by exact H. reflexivity.
Qed.

Lemma match_input_input n b :
  lacks Text.rbrace n = true -> n <> "" ->
  Text.match_input ("{{" ++ n ++ "}}" ++ b) = Some n.
Proof.
  intros H Hn.
  change ("{{" ++ n ++ "}}" ++ b)
    with (String Text.lbrace
            (String Text.lbrace (n ++ String Text.rbrace ("}" ++ b)))).
  cbn [Text.match_input].
  change (Text.code Text.lbrace =? 123)%N with true. cbn [andb].
  rewrite span_open_run by exact H.
  destruct n as [|c n]; [congruence|].
  change ("}" ++ b) with (String Text.rbrace b).
  change (Text.code Text.rbrace =? 125)%N with true. reflexivity.
Qed.

(** An input is rewritten, and the search goes on behind it. *)
Lemma convert_input n b :
  lacks Text.rbrace n = true -> n <> "" ->
  Text.convert_inputs ("{{" ++ n ++ "}}" ++ b)
  = "${input:" ++ n ++ "}" ++ Text.convert_inputs b.
Proof.
  intros H Hn. unfold Text.convert_inputs.
  pose proof (match_input_input n b H Hn) as M.
  assert (E : "{{" ++ n ++ "}}" ++ b = String "{" (("{" ++ n ++ "}}") ++ b))
    by (cbn [append]; rewrite append_assoc; reflexivity).
  rewrite E in M |- *.
  cbn [Text.convert_from]. rewrite M, convert_from_skip.
  replace (String.length n + 3) with (String.length ("{" ++ n ++ "}}"))
    by (cbn [append String.length]; rewrite length_append; simpl; lia).
  rewrite drop_append. reflexivity.
Qed.

End ConvertFacts.

(** ** Strings made of pieces *)

Section TemplateFacts.
Local Open Scope string_scope.

Lemma brace_checked (c : ascii) : brace_check c = true.
Proof. destruct c as [[] [] [] [] [] [] [] []]; vm_compute; reflexivity. Qed.

Lemma escape_lacks_brace s :
  lacks Text.lbrace s = true -> lacks Text.lbrace (Json.escape s) = true.
Proof.
  induction s as [|c s IH]; [reflexivity|]. intros H.
  apply andb_prop in H. destruct H as [Hc H]. apply negb_true_iff in Hc.
  cbn [Json.escape]. unfold lacks in *. rewrite all_append, IH by exact H.
  pose proof (brace_checked c) as B. unfold brace_check, lacks in B.
  rewrite Hc in B. rewrite B. reflexivity.
Qed.

Lemma simple_no_dollar s : simple s = true -> no_dollar s = true.
Proof.
  apply all_impl. intros c H. unfold simple_char in H.
  apply andb_prop in H. destruct H as [H _].
  apply andb_prop in H. apply H.
Qed.

Lemma simple_no_lbrace s : simple s = true -> lacks Text.lbrace s = true.
Proof.
  apply all_impl. intros c H. unfold simple_char in H.
  apply andb_prop in H. destruct H as [H _].
  apply andb_prop in H. apply H.
Qed.

Lemma simple_no_rbrace s : simple s = true -> lacks Text.rbrace s = true.
Proof.
  apply all_impl. intros c H. unfold simple_char in H.
  apply andb_prop in H. apply H.
Qed.

Lemma label_simple s : label s = true -> simple s = true.
Proof. apply all_impl. intros c H. apply andb_prop in H. apply H. Qed.

Lemma label_verbatim s : label s = true -> Text.all verbatim s = true.
Proof. apply all_impl. intros c H. apply andb_prop in H. apply H. Qed.

Lemma word_label s : Text.all Text.word_char s = true -> label s = true.
Proof.
  apply all_impl. intros c H. unfold simple_char.
  destruct (word_char_facts c H) as (-> & -> & _ & -> & ->). reflexivity.
Qed.

Section Encoded.

Variable enc : string -> string.
Hypothesis enc_append : forall a b, enc (a ++ b) = enc a ++ enc b.
Hypothesis enc_verbatim : forall s, Text.all verbatim s = true -> enc s = s.
Hypothesis enc_brace :
  forall s, lacks Text.lbrace s = true -> lacks Text.lbrace (enc s) = true.

(** The inputs of a string made of pieces are its [Inp] pieces, however
    the string is written and whatever follows it. *)
Lemma convert_template (t : list segment) :
  forallb segment_ok t = true ->
  forall rest,
  Text.convert_inputs (enc (raw t) ++ rest)
  = enc (raw (map rewrite_input t)) ++ Text.convert_inputs rest.
Proof.
  induction t as [|g t IH]; intros Hok rest.
  - cbn [raw fold_right map]. rewrite enc_verbatim by reflexivity.
    reflexivity.
  - cbn [forallb] in Hok. apply andb_prop in Hok. destruct Hok as [Hg Hok].
    change (raw (g :: t)) with (segment_text g ++ raw t).
    change (raw (map rewrite_input (g :: t)))
      with (segment_text (rewrite_input g) ++ raw (map rewrite_input t)).
    rewrite !enc_append, !append_assoc.
    destruct g as [text|name|name]; cbn [segment_ok segment_text rewrite_input] in *.
    + rewrite convert_plain by (apply enc_brace, simple_no_lbrace, Hg).
      rewrite IH by exact Hok. reflexivity.
    + assert (V : Text.all verbatim (Config.placeholder name) = true).
      { unfold Config.placeholder. rewrite !all_append.
        rewrite (label_verbatim _ Hg). reflexivity. }
      rewrite (enc_verbatim _ V).
      change (Config.placeholder name ++ enc (raw t) ++ rest)
        with ("$" ++ String Text.lbrace
                       ((name ++ "}") ++ enc (raw t) ++ rest)).
      rewrite convert_plain by reflexivity. rewrite convert_brace.
      * rewrite IH by exact Hok. reflexivity.
      * unfold lacks. rewrite all_append.
        pose proof (simple_no_lbrace _ (label_simple _ Hg)) as L.
        unfold lacks in L. rewrite L. reflexivity.
      * destruct name; discriminate.
    + apply andb_prop in Hg. destruct Hg as [Hl Hne].
      assert (V : Text.all verbatim ("{{" ++ name ++ "}}") = true).
      { rewrite !all_append. rewrite (label_verbatim _ Hl). reflexivity. }
      rewrite (enc_verbatim _ V).
      assert (W : Text.all verbatim (Config.placeholder ("input:" ++ name))
                  = true).
      { unfold Config.placeholder. rewrite !all_append.
        rewrite (label_verbatim _ Hl). reflexivity. }
      rewrite (enc_verbatim _ W).
      change (("{{" ++ name ++ "}}") ++ enc (raw t) ++ rest)
        with ("{{" ++ (name ++ "}}") ++ enc (raw t) ++ rest).
      rewrite (append_assoc name). rewrite convert_input.
      * rewrite IH by exact Hok. unfold Config.placeholder.
        cbn [append]. rewrite !append_assoc. reflexivity.
      * apply simple_no_rbrace, label_simple, Hl.
      * destruct name; [discriminate|congruence].
Qed.

End Encoded.

Lemma convert_escaped (t : list segment) :
  forallb segment_ok t = true ->
  forall rest,
  Text.convert_inputs (Json.escape (raw t) ++ rest)
  = Json.escape (raw (map rewrite_input t)) ++ Text.convert_inputs rest.
Proof.
  apply convert_template;
    auto using escape_append, escape_verbatim, escape_lacks_brace.
Qed.

Lemma convert_raw (t : list segment) :
  forallb segment_ok t = true ->
  Text.convert_inputs (raw t) = raw (map rewrite_input t).
Proof.
  intros Hok.
  pose proof (convert_template (fun s => s) (fun a b => eq_refl)
                (fun s _ => eq_refl) (fun s H => H) t Hok "") as C.
  cbn beta in C. rewrite !append_nil_r in C. exact C.
Qed.

Lemma rewrite_input_ok (t : list segment) :
  forallb segment_ok t = true ->
  forallb segment_ok (map rewrite_input t) = true.
Proof.
  intros H. rewrite forallb_forall in H. apply forallb_forall.
  intros g Hg. apply in_map_iff in Hg. destruct Hg as (g0 & <- & Hg0).
  specialize (H _ Hg0). destruct g0 as [text|name|name]; try exact H.
  cbn [segment_ok rewrite_input] in *. apply andb_prop in H.
  destruct H as [H _]. unfold label in *. rewrite all_append, H.
  reflexivity.
Qed.

End TemplateFacts.

Section ResolveFacts.
Local Open Scope string_scope.

Variables key value : string.
Hypothesis key_word : Text.all Text.word_char key = true.
Hypothesis value_plain : plain value = true.
Hypothesis value_simple : simple value = true.

Let R : string -> string :=
  Text.replace_all (Config.placeholder key) value.

(** Substituting a token in a string made of pieces resolves its [Tok]
    pieces of that name. *)
Lemma replace_template (t : list segment) :
  forallb segment_ok t = true ->
  forall rest,
  R (raw t ++ rest) = raw (map (resolve (key, value)) t) ++ R rest.
Proof.
  induction t as [|g t IH]; intros Hok rest; [reflexivity|].
  cbn [forallb] in Hok. apply andb_prop in Hok. destruct Hok as [Hg Hok].
  change (raw (g :: t)) with (segment_text g ++ raw t).
  change (raw (map (resolve (key, value)) (g :: t)))
    with (segment_text (resolve (key, value) g)
          ++ raw (map (resolve (key, value)) t)).
  rewrite !append_assoc.
  destruct g as [text|name|name]; cbn [segment_ok segment_text resolve fst snd] in *.
  - unfold R. rewrite replace_structure by auto using simple_no_dollar.
    f_equal. apply IH, Hok.
  - destruct (String.eqb_spec name key) as [->|Hneq]; cbn [segment_text].
    + unfold R. rewrite replace_key by assumption. f_equal. apply IH, Hok.
    + unfold R. rewrite replace_other;
        auto using simple_no_dollar, simple_no_rbrace, label_simple.
      f_equal. apply IH, Hok.
  - apply andb_prop in Hg. destruct Hg as [Hl _].
    unfold R. rewrite replace_structure.
    + f_equal. apply IH, Hok.
    + exact value_plain.
    + pose proof (simple_no_dollar _ (label_simple _ Hl)) as D.
      unfold no_dollar, lacks in *. rewrite !all_append, D. reflexivity.
Qed.

Lemma resolve_ok (t : list segment) :
  forallb segment_ok t = true ->
  forallb segment_ok (map (resolve (key, value)) t) = true.
Proof.
  intros H. rewrite forallb_forall in H. apply forallb_forall.
  intros g Hg. apply in_map_iff in Hg. destruct Hg as (g0 & <- & Hg0).
  specialize (H _ Hg0). destruct g0 as [text|name|name]; try exact H.
  cbn [resolve fst snd]. destruct (name =? key); [exact value_simple|exact H].
Qed.

(** The placeholder of an input is not the placeholder of a token. *)
Lemma resolve_rewrite (t : list segment) :
  map (resolve (key, value)) (map rewrite_input t)
  = map rewrite_input (map (resolve (key, value)) t).
Proof.
  rewrite !map_map. apply map_ext. intros [text|name|name]; cbn [rewrite_input resolve fst snd].
  - reflexivity.
  - destruct (name =? key); reflexivity.
  - destruct (String.eqb_spec ("input:" ++ name) key) as [E|_]; [|reflexivity].
    exfalso. rewrite <- E in key_word. rewrite all_append in key_word.
    discriminate.
Qed.

End ResolveFacts.

Lemma input_tokens_ok (tokens : props string) :
  forallb input_token_ok tokens = true -> forallb token_ok tokens = true.
Proof.
  intros H. rewrite forallb_forall in H. apply forallb_forall.
  intros e He. specialize (H e He). apply andb_prop in H. apply H.
Qed.

Lemma substitute_template (tokens : props string) :
  forallb input_token_ok tokens = true ->
  forall t, forallb segment_ok t = true ->
  substitute_string tokens (raw t) = raw (resolve_all tokens t) /\
  forallb segment_ok (resolve_all tokens t) = true.
Proof.
  induction tokens as [|[k v] tokens IH]; intros Hok t Ht; [auto|].
  cbn [forallb] in Hok. apply andb_prop in Hok. destruct Hok as [Hkv Hok].
  apply andb_prop in Hkv. destruct Hkv as [Hkv Hs].
  apply andb_prop in Hkv. destruct Hkv as [Hk Hv]. cbn [fst snd] in Hk, Hv, Hs.
  unfold substitute_string, resolve_all. cbn [fold_left fst snd].
  pose proof (replace_template k v Hk Hv t Ht "") as E.
  change (Text.replace_all (Config.placeholder k) v "") with "" in E.
  rewrite !append_nil_r in E. rewrite E.
  apply (IH Hok). apply resolve_ok; assumption.
Qed.

Lemma resolve_all_rewrite (tokens : props string) :
  forallb input_token_ok tokens = true ->
  forall t,
  resolve_all tokens (map rewrite_input t)
  = map rewrite_input (resolve_all tokens t).
Proof.
  induction tokens as [|[k v] tokens IH]; intros Hok t; [reflexivity|].
  cbn [forallb] in Hok. apply andb_prop in Hok. destruct Hok as [Hkv Hok].
  apply andb_prop in Hkv. destruct Hkv as [Hkv _].
  apply andb_prop in Hkv. destruct Hkv as [Hk _]. cbn [fst] in Hk.
  unfold resolve_all. cbn [fold_left]. rewrite resolve_rewrite by exact Hk.
  apply (IH Hok).
Qed.

(** On a string made of pieces the two rewritings commute: in either
    order, the tokens are resolved and the inputs rewritten. *)
Lemma pipeline_template (tokens : props string) (t : list segment) :
  forallb input_token_ok tokens = true ->
  forallb segment_ok t = true ->
  Text.convert_inputs (substitute_string tokens (raw t))
  = raw (map rewrite_input (resolve_all tokens t)).
Proof.
  intros Hok Ht. destruct (substitute_template tokens Hok t Ht) as [-> Hr].
  apply convert_raw, Hr.
Qed.

Lemma independent_template (tokens : props string) (t : list segment) :
  forallb input_token_ok tokens = true ->
  forallb segment_ok t = true ->
  independent tokens (raw t)
  = raw (map rewrite_input (resolve_all tokens t)).
Proof.
  intros Hok Ht. unfold independent. rewrite convert_raw by exact Ht.
  destruct (substitute_template tokens Hok _ (rewrite_input_ok t Ht))
    as [-> _].
  rewrite resolve_all_rewrite by exact Hok. reflexivity.
Qed.

(** ** The text of a fragment *)

Section ConvertStringify.
Local Open Scope string_scope.

Let conv : string -> string := Text.convert_inputs.

Lemma number_no_lbrace n : lacks Text.lbrace (Json.number n) = true.
Proof.
  eapply all_impl; [|apply number_digits]. intros c Hc.
  destruct (Ascii.eqb_spec c Text.lbrace) as [->|]; [discriminate Hc|].
  reflexivity.
Qed.

Lemma convert_quoted s rest :
  templated s ->
  conv (Json.quoted s ++ rest) = Json.quoted (conv s) ++ conv rest.
Proof.
  intros (t & Ht & ->). unfold conv. rewrite convert_raw by exact Ht.
  unfold Json.quoted.
  change (String Text.quote (Json.escape (raw t) ++ String Text.quote "")
          ++ rest)
    with (String Text.quote ""
          ++ (Json.escape (raw t) ++ String Text.quote "") ++ rest).
  rewrite convert_plain by reflexivity.
  rewrite append_assoc, convert_escaped by exact Ht.
  rewrite convert_plain by reflexivity.
  cbn [append]. rewrite append_assoc. reflexivity.
Qed.

Lemma convert_join close (texts texts' : list string) :
  lacks Text.lbrace close = true ->
  Forall2 (fun t t' => forall rest, conv (t ++ rest) = t' ++ conv rest)
    texts texts' ->
  forall rest,
  conv (Json.join close texts ++ rest) = Json.join close texts' ++ conv rest.
Proof.
  intros Hclose H. induction H as [|t t' texts texts' Ht Hrest IH]; intros rest.
  - simpl. apply convert_plain, Hclose.
  - destruct Hrest as [|u u' texts texts' Hu Hrest].
    + simpl. rewrite !append_assoc, Ht. f_equal.
      apply convert_plain, Hclose.
    + change (Json.join close (t :: u :: texts))
        with (t ++ "," ++ Json.join close (u :: texts)).
      change (Json.join close (t' :: u' :: texts'))
        with (t' ++ "," ++ Json.join close (u' :: texts')).
      rewrite !append_assoc, Ht. f_equal. unfold conv.
      rewrite convert_plain by reflexivity. f_equal. apply IH.
Qed.

(** The brace that opens an object is followed by a quote or by the
    closing brace. *)
Lemma convert_object (texts : list string) rest :
  Forall (fun t => exists r, t = String Text.quote r) texts ->
  conv (("{" ++ Json.join "}" texts) ++ rest)
  = "{" ++ conv (Json.join "}" texts ++ rest).
Proof.
  intros H.
  assert (E : exists c r, Json.join "}" texts ++ rest = String c r
                          /\ Ascii.eqb c Text.lbrace = false).
  { destruct H as [|t texts (r & ->) _]; [simpl; eauto|].
    exists Text.quote. destruct texts; cbn [Json.join append]; eauto. }
  destruct E as (c & r & E & Hc).
  change (("{" ++ Json.join "}" texts) ++ rest)
    with (String Text.lbrace (Json.join "}" texts ++ rest)).
  rewrite E. unfold conv. rewrite convert_step; [reflexivity|].
  apply match_input_second, Hc.
Qed.

(** Rewriting the inputs in the text of a value is rewriting them in its
    strings, when these are made of pieces. *)
Lemma convert_stringify (v : json) :
  Forall templated (strings_of v) ->
  forall rest,
  conv (Json.stringify v ++ rest)
  = Json.stringify (Json.map_strings conv v) ++ conv rest.
Proof.
  induction v as [|b|n|s|items IH|members IH] using json_ind;
    intros Hv rest.
  - apply convert_plain. reflexivity.
  - destruct b; apply convert_plain; reflexivity.
  - apply convert_plain, number_no_lbrace.
  - apply convert_quoted. inversion Hv. assumption.
  - cbn [Json.stringify Json.map_strings]. rewrite !append_assoc.
    unfold conv at 1. rewrite convert_plain by reflexivity. f_equal.
    apply convert_join; [reflexivity|].
    cbn [strings_of] in Hv. rewrite map_map.
    induction IH as [|x items Hx _ IHitems]; cbn [map]; constructor.
    + apply Hx. cbn [flat_map] in Hv. apply Forall_app in Hv. apply Hv.
    + apply IHitems. cbn [flat_map] in Hv. apply Forall_app in Hv. apply Hv.
  - cbn [Json.stringify Json.map_strings]. rewrite convert_object.
    + rewrite !append_assoc. f_equal. apply convert_join; [reflexivity|].
      cbn [strings_of] in Hv. rewrite map_map.
      induction IH as [|[k x] members Hx _ IHmembers]; cbn [map];
        constructor.
      * cbn [flat_map fst snd] in Hv. rewrite <- app_comm_cons in Hv.
        inversion Hv as [|? ? Hk Hv']. subst. apply Forall_app in Hv'.
        cbn [snd] in Hx. intros rest'. rewrite !append_assoc.
        rewrite convert_quoted by exact Hk. f_equal. unfold conv at 1.
        rewrite convert_plain by reflexivity. f_equal. apply Hx, Hv'.
      * apply IHmembers. cbn [flat_map fst snd] in Hv.
        rewrite <- app_comm_cons in Hv. inversion Hv as [|? ? _ Hv']. subst.
        apply Forall_app in Hv'. apply Hv'.
    + apply Forall_forall. intros t Ht. apply in_map_iff in Ht.
      destruct Ht as ([k x] & <- & _). unfold Json.quoted.
      cbn [append]. eauto.
Qed.

End ConvertStringify.

Section FragmentFacts.

Lemma keys_map (f : string -> string) (v : json) :
  keys_of (Json.map_strings f v) = map f (keys_of v).
Proof.
  induction v as [|b|n|s|items IH|members IH] using json_ind; simpl;
    try reflexivity.
  - induction IH as [|x items Hx _ IHitems]; simpl; [reflexivity|].
    rewrite map_app, Hx, IHitems. reflexivity.
  - induction IH as [|[k x] members Hx _ IHmembers]; simpl; [reflexivity|].
    simpl in Hx. rewrite map_app, Hx, IHmembers. reflexivity.
Qed.

Lemma map_strings_ext_in (f g : string -> string) (v : json) :
  (forall s, In s (strings_of v) -> f s = g s) ->
  Json.map_strings f v = Json.map_strings g v.
Proof.
  induction v as [|b|n|s|items IH|members IH] using json_ind; simpl;
    try reflexivity; intros H.
  - rewrite H by auto. reflexivity.
  - f_equal. induction IH as [|x items Hx _ IHitems]; simpl; [reflexivity|].
    rewrite Hx, IHitems; [reflexivity| |]; intros t Ht; apply H; simpl;
      apply in_or_app; auto.
  - f_equal. induction IH as [|[k x] members Hx _ IHmembers]; simpl;
      [reflexivity|].
    simpl in Hx, H. rewrite (H k), Hx, IHmembers; auto;
      intros t Ht; apply H; right; apply in_or_app; auto.
Qed.

End FragmentFacts.

Lemma simple_templated (s : string) : simple s = true -> templated s.
Proof.
  intros H. exists [Lit s]. cbn [forallb segment_ok raw fold_right segment_text].
  rewrite H, append_nil_r. auto.
Qed.

(** What [setupVSCode] stores for a server whose fragment is made of
    pieces: the fragment with, in each string, the tokens substituted and
    then the inputs rewritten. *)
Lemma vscode_server_config_spec (fragment : json) (tokens : props string) :
  forallb input_token_ok tokens = true ->
  representable fragment = true ->
  well_formed fragment = true ->
  forallb simple (keys_of fragment) = true ->
  Forall templated (strings_of fragment) ->
  Setup.vscode_server_config fragment tokens
  = Ok (Json.map_strings
          (fun s => Text.convert_inputs (substitute_string tokens s))
          fragment).
Proof.
  intros Hok Hrep Hwf Hkeys Hstr.
  pose proof (input_tokens_ok tokens Hok) as Hok'.
  rewrite forallb_forall in Hkeys.
  assert (Hfix : forall k, In k (keys_of fragment) ->
                           substitute_string tokens k = k).
  { intros k Hk. apply substitute_fixed; [exact Hok'|].
    apply simple_no_dollar, Hkeys, Hk. }
  unfold Setup.vscode_server_config.
  rewrite substituteTokens_well_formed; try assumption.
  2:{ apply forallb_forall. intros k Hk. apply simple_no_dollar, Hkeys, Hk. }
  cbn [bind]. set (w := Json.map_strings (substitute_string tokens) fragment).
  assert (Hw : Forall templated (strings_of w)).
  { unfold w. rewrite strings_map. apply Forall_forall. intros s Hs.
    apply in_map_iff in Hs. destruct Hs as (s0 & <- & Hs0).
    rewrite Forall_forall in Hstr. destruct (Hstr _ Hs0) as (t & Ht & ->).
    destruct (substitute_template tokens Hok t Ht) as [E Hr].
    exists (resolve_all tokens t). auto. }
  pose proof (convert_stringify w Hw EmptyString) as C.
  change (Text.convert_inputs EmptyString) with EmptyString in C.
  rewrite !append_nil_r in C. rewrite C.
  rewrite parse_stringify
    by (unfold w; rewrite !representable_map_strings; exact Hrep).
  rewrite normalize_well_formed.
  - unfold w. rewrite map_strings_compose. reflexivity.
  - apply well_formed_map.
    + unfold w. rewrite keys_map. intros k Hk. apply in_map_iff in Hk.
      destruct Hk as (k0 & <- & Hk0). rewrite (Hfix _ Hk0).
      apply convert_fixed, simple_no_lbrace, Hkeys, Hk0.
    + unfold w. apply well_formed_map; assumption.
Qed.

(** C9, as stated, fails: an input that a token value brings in is
    rewritten as well, though the fragment holds none. *)
Lemma vscode_rewrites_token_value :
  Setup.vscode_server_config (JStr "${A}") Samples.input_tokens
    = Ok (JStr "${input:X}") /\
  Json.map_strings (independent Samples.input_tokens) (JStr "${A}")
    = JStr "{{X}}".
Proof. split; reflexivity. Qed.

(** C9, amended.  For token names made of word characters and token
    values that hold no dollar sign, no brace and no character JSON
    escapes, and for a fragment whose keys hold no dollar sign or brace
    and whose strings are made of plain text without dollar sign or
    brace, token placeholders and input placeholders with a non-empty
    name: what [setupVSCode] stores is the fragment with, in each string,
    the inputs of the original string rewritten and the tokens
    substituted, each on its own; every input piece is turned into the
    placeholder of the input of that name, every token piece into the
    token value, or left as it is without a token of that name. *)
Theorem vscode_rewrites_independent
    (fragment : json) (tokens : props string) :
  forallb input_token_ok tokens = true ->
  representable fragment = true ->
  well_formed fragment = true ->
  forallb simple (keys_of fragment) = true ->
  Forall templated (strings_of fragment) ->
  Setup.vscode_server_config fragment tokens
    = Ok (Json.map_strings (independent tokens) fragment) /\
  forall t, forallb segment_ok t = true ->
    independent tokens (raw t)
    = raw (map rewrite_input (resolve_all tokens t)).
Proof.
  intros Hok Hrep Hwf Hkeys Hstr. split.
  - rewrite vscode_server_config_spec by assumption. f_equal.
    apply map_strings_ext_in. intros s Hs.
    rewrite Forall_forall in Hstr. destruct (Hstr _ Hs) as (t & Ht & ->).
    rewrite pipeline_template, independent_template by assumption.
    reflexivity.
  - intros t Ht. apply independent_template; assumption.
Qed.

(** The search for inputs runs over the whole text of the fragment: an
    opening [{{] is closed by the next [}}], in the same string or not. *)
Lemma vscode_input_across_strings :
  Setup.vscode_server_config
    (JObj [("a", JStr "{{x"); ("b", JStr "y}}")]) []
    = Ok (JObj [("a", JStr "${input:x"); ("b", JStr "y}")]) /\
  Setup.vscode_server_config (JObj [("a", JObj [("b", JStr "{{x")])]) []
    = Throws SyntaxError.
Proof. split; reflexivity. Qed.

Lemma vscode_rewrites_independent_witness :
  Setup.vscode_server_config Samples.prompting_fragment Samples.region_tokens
    = Ok (Json.map_strings (independent Samples.region_tokens)
            Samples.prompting_fragment) /\
  forall t, forallb segment_ok t = true ->
    independent Samples.region_tokens (raw t)
    = raw (map rewrite_input (resolve_all Samples.region_tokens t)).
Proof.
  apply vscode_rewrites_independent; try reflexivity.
  refine (Forall_cons _ (simple_templated "url" eq_refl)
         (Forall_cons _
            (ex_intro _ [Lit "https://example.com/"; Tok "REGION"; Lit "/mcp"]
               (conj eq_refl eq_refl))
         (Forall_cons _ (simple_templated "headers" eq_refl)
         (Forall_cons _ (simple_templated "Authorization" eq_refl)
         (Forall_cons _
            (ex_intro _ [Lit "Bearer "; Inp "api_key"] (conj eq_refl eq_refl))
            (Forall_nil _)))))).
Defined.

(** * Further properties of the code *)

(** ** The generators and [buildConfig] *)

Lemma ordered_nodup (ks : list string) : Obj.ordered ks = true -> NoDup ks.
Proof.
  induction ks as [|k ks IH]; intros H; [constructor|].
  cbn [Obj.ordered] in H. apply andb_prop in H. destruct H as [Hk H].
  constructor; [|apply IH, H].
  intros Hin. rewrite forallb_forall in Hk.
  apply (precedes_neq k k (Hk k Hin)). reflexivity.
Qed.

(** X1.  A transport with a command: Claude Code, Claude Desktop and Gemini get
    a copy of the transport, whatever else it holds; VS Code, which has no
    rule for commands, gets nothing unless a url or an httpUrl is there as
    well; so the configuration built has three entries. *)
Theorem command_transport_projection
    (transport : props json) (command : json) :
  Obj.ordered (Obj.keys transport) = true ->
  Config.populated transport "command" = Some command ->
  Config.claudeCode transport = Some (JObj transport) /\
  Config.claudeDesktop transport = Some (JObj transport) /\
  Config.gemini transport = Some (JObj transport) /\
  (Config.populated transport "url" = None ->
   Config.populated transport "httpUrl" = None ->
   Config.vscode transport = None /\
   Config.buildConfig transport None
   = [ ("claudeCode", JObj transport); ("claudeDesktop", JObj transport);
       ("gemini", JObj transport) ]).
Proof.
  intros Hobj Hcommand.
  assert (Hcopy : Obj.spread [] transport = transport)
    by (apply (literal_ordered transport), Hobj).
  assert (H1 : Config.claudeCode transport = Some (JObj transport))
    by (unfold Config.claudeCode; rewrite Hcommand, Hcopy; reflexivity).
  assert (H2 : Config.claudeDesktop transport = Some (JObj transport))
    by (unfold Config.claudeDesktop; rewrite Hcommand, Hcopy; reflexivity).
  assert (H3 : Config.gemini transport = Some (JObj transport))
    by (unfold Config.gemini; rewrite Hcommand, Hcopy; reflexivity).
  repeat split; try assumption.
  - unfold Config.vscode. rewrite H, H0. reflexivity.
  - assert (H4 : Config.vscode transport = None)
      by (unfold Config.vscode; rewrite H, H0; reflexivity).
    unfold Config.buildConfig.
    change (Config.all_generators None)
      with [ ("claudeCode", Config.claudeCode);
             ("claudeDesktop", Config.claudeDesktop);
             ("vscode", Config.vscode); ("gemini", Config.gemini) ].
    cbn [fold_left fst snd]. rewrite H1, H2, H3, H4. reflexivity.
Qed.

Lemma command_transport_projection_witness :
  Config.claudeCode Samples.command_transport
    = Some (JObj Samples.command_transport) /\
  Config.claudeDesktop Samples.command_transport
    = Some (JObj Samples.command_transport) /\
  Config.gemini Samples.command_transport
    = Some (JObj Samples.command_transport) /\
  (Config.populated Samples.command_transport "url" = None ->
   Config.populated Samples.command_transport "httpUrl" = None ->
   Config.vscode Samples.command_transport = None /\
   Config.buildConfig Samples.command_transport None
   = [ ("claudeCode", JObj Samples.command_transport);
       ("claudeDesktop", JObj Samples.command_transport);
       ("gemini", JObj Samples.command_transport) ]).
Proof.
  apply (command_transport_projection Samples.command_transport (JStr "npx"));
    reflexivity.
Defined.

Section BuildConfig.

Variable transport : props json.

Let step (config : props json) (entry : string * Config.generator)
  : props json :=
  match snd entry transport with
  | Some clientConfig =>
      if truthy clientConfig then
        if fst entry =? "__proto__" then config
        else Obj.set (fst entry) clientConfig config
      else config
  | None => config
  end.

Lemma build_get (generators : props Config.generator) :
  NoDup (Obj.keys generators) ->
  forall config client,
  client <> "__proto__" ->
  Obj.get client (fold_left step generators config) =
  match Obj.get client generators with
  | Some generate =>
      match generate transport with
      | Some c => if truthy c then Some c else Obj.get client config
      | None => Obj.get client config
      end
  | None => Obj.get client config
  end.
Proof.
  induction generators as [|[k g] generators IH];
    intros Hnodup config client Hclient; [reflexivity|].
  cbn [Obj.keys map fst] in Hnodup. inversion Hnodup as [|? ? Hk Hrest]. subst.
  cbn [fold_left Obj.get]. rewrite (IH Hrest) by exact Hclient.
  destruct (String.eqb_spec k client) as [->|Hneq].
  - rewrite (get_not_in client generators Hk).
    unfold step. cbn [fst snd]. destruct (g transport) as [c|]; [|reflexivity].
    apply String.eqb_neq in Hclient. rewrite Hclient.
    destruct (truthy c); [apply get_set_same|reflexivity].
  - assert (E : Obj.get client (step config (k, g)) = Obj.get client config).
    { unfold step. cbn [fst snd]. destruct (g transport) as [c|]; [|reflexivity].
      destruct (truthy c); [|reflexivity].
      destruct (k =? "__proto__"); [reflexivity|apply get_set_other, Hneq]. }
    rewrite E. reflexivity.
Qed.

Lemma build_no_proto (generators : props Config.generator) :
  forall config,
  Obj.get "__proto__" (fold_left step generators config)
  = Obj.get "__proto__" config.
Proof.
  induction generators as [|[k g] generators IH]; intros config;
    [reflexivity|].
  cbn [fold_left]. rewrite IH. unfold step. cbn [fst snd].
  destruct (g transport) as [c|]; [|reflexivity].
  destruct (truthy c); [|reflexivity].
  destruct (String.eqb_spec k "__proto__") as [->|Hneq]; [reflexivity|].
  apply get_set_other, Hneq.
Qed.

End BuildConfig.

(** X2.  The generator a client is given is the custom one when there is one,
    the default one otherwise, and the client has an entry exactly when
    that generator returns a value that is not falsy; a generator named
    [__proto__] gives no entry. *)
Theorem buildConfig_custom (transport : props json)
    (customGenerators : props Config.generator) (client : string) :
  Obj.ordered (Obj.keys customGenerators) = true ->
  Obj.get client (Config.buildConfig transport (Some customGenerators)) =
  if client =? "__proto__" then None
  else
    match
      match Obj.get client customGenerators with
      | Some generate => Some generate
      | None => Obj.get client Config.defaultConfigGenerators
      end
    with
    | Some generate =>
        match generate transport with
        | Some c => if truthy c then Some c else None
        | None => None
        end
    | None => None
    end.
Proof.
  intros Hobj. unfold Config.buildConfig, Config.all_generators.
  destruct (String.eqb_spec client "__proto__") as [->|Hclient].
  - apply (build_no_proto transport).
  - rewrite (build_get transport).
    + rewrite get_spread, get_rev by (apply ordered_nodup, Hobj).
      destruct (Obj.get client customGenerators) as [g|]; [reflexivity|].
      change (Obj.spread [] Config.defaultConfigGenerators)
        with Config.defaultConfigGenerators.
      destruct (Obj.get client Config.defaultConfigGenerators); reflexivity.
    + apply ordered_nodup, ordered_spread, ordered_spread. reflexivity.
    + exact Hclient.
Qed.

Lemma buildConfig_custom_witness :
  Obj.get "vscode"
    (Config.buildConfig Samples.command_transport
       (Some [("vscode", fun _ => Some (JObj [("type", JStr "special")]))]))
  = Some (JObj [("type", JStr "special")]).
Proof.
  exact (buildConfig_custom Samples.command_transport
           [("vscode", fun _ => Some (JObj [("type", JStr "special")]))]
           "vscode" eq_refl).
Defined.

(** ** Registration, listing and validation *)

Lemma set_new {A : Type} (k : string) (v : A) (o : props A) :
  Obj.has k o = false -> Obj.array_index k = None ->
  Obj.set k v o = o ++ [(k, v)].
Proof.
  intros Hhas Hindex. apply set_last. apply Forall_forall. intros k0 Hk0.
  unfold Obj.precedes. rewrite Hindex.
  assert (Hneq : k0 <> k).
  { intros ->. unfold Obj.has in Hhas.
    destruct (Obj.get k o) eqn:Hget; [discriminate|].
    exact (get_none_not_in k o Hget Hk0). }
  apply String.eqb_neq in Hneq. rewrite Hneq.
  destruct (Obj.array_index k0); reflexivity.
Qed.

(** X3.  A server registered under a new name (not an array index, not the
    name of a member of [Object.prototype]), no generator named [__proto__]
    replacing the prototype of the [config] built for it, is listed after
    the others and is what [getServerConfig] returns; registering the name
    again fails and changes nothing; and a descriptor without
    [requiredTokens] is valid with any tokens. *)
Theorem addServer_then (mcpServers : Config.catalog) (name : string)
    (serverConfig : Config.server) :
  Obj.has name mcpServers = false ->
  Obj.inherited name = false ->
  Obj.array_index name = None ->
  match Config.config serverConfig, Config.transport serverConfig with
  | None, Some t =>
      Config.replaces_prototype t (Config.customGenerators serverConfig)
      = false
  | _, _ => True
  end ->
  exists stored,
    Config.addServer mcpServers name serverConfig
      = (Ok tt, mcpServers ++ [(name, stored)]) /\
    Config.requiredTokens stored = Config.requiredTokens serverConfig /\
    Config.getAvailableServers (mcpServers ++ [(name, stored)])
      = Config.getAvailableServers mcpServers ++ [name] /\
    Config.getServerConfig (mcpServers ++ [(name, stored)]) name
      = Own stored /\
    (forall again,
       Config.addServer (mcpServers ++ [(name, stored)]) name again
       = (Throws (Error ("Server " ++ name ++ " already exists")),
          mcpServers ++ [(name, stored)])) /\
    (Config.requiredTokens serverConfig = None ->
     forall tokens,
       Config.validateServerTokens (mcpServers ++ [(name, stored)]) name tokens
       = {| Config.valid := true; Config.missing := [] |}).
Proof.
  intros Hhas Hname Hindex Hordinary.
  assert (Hget : Obj.get name mcpServers = None)
    by (unfold Obj.has in Hhas; destruct (Obj.get name mcpServers);
        [discriminate|reflexivity]).
  set (stored :=
         match Config.config serverConfig, Config.transport serverConfig with
         | None, Some t =>
             Config.with_config serverConfig
               (Config.buildConfig t (Config.customGenerators serverConfig))
         | _, _ => serverConfig
         end).
  assert (Hlook : Obj.get name (mcpServers ++ [(name, stored)]) = Some stored).
  { rewrite get_app, Hget. cbn [Obj.get]. rewrite String.eqb_refl.
    reflexivity. }
  exists stored. repeat split.
  - unfold Config.addServer, js_get. rewrite Hget, Hname.
    rewrite <- (set_new name stored mcpServers Hhas Hindex). unfold stored.
    destruct (Config.config serverConfig); [reflexivity|].
    destruct (Config.transport serverConfig); [|reflexivity].
    rewrite Hordinary. reflexivity.
  - unfold stored.
    destruct (Config.config serverConfig), (Config.transport serverConfig);
      reflexivity.
  - unfold Config.getAvailableServers, Obj.keys. rewrite map_app. reflexivity.
  - unfold Config.getServerConfig, js_get. rewrite Hlook. reflexivity.
  - intros again. unfold Config.addServer, js_get. rewrite Hlook. reflexivity.
  - intros Hnone tokens. unfold Config.validateServerTokens, js_get.
    rewrite Hlook.
    assert (E : Config.requiredTokens stored = None).
    { unfold stored.
      destruct (Config.config serverConfig), (Config.transport serverConfig);
        exact Hnone. }
    rewrite E. reflexivity.
Qed.

Lemma addServer_then_witness :
  exists stored,
    Config.addServer Config.mcpServers "myServer"
        (Samples.descriptor ["MY_TOKEN"] (Some Samples.command_transport))
      = (Ok tt, Config.mcpServers ++ [("myServer", stored)]) /\
    Config.requiredTokens stored = Some ["MY_TOKEN"] /\
    Config.getAvailableServers (Config.mcpServers ++ [("myServer", stored)])
      = Config.getAvailableServers Config.mcpServers ++ ["myServer"] /\
    Config.getServerConfig (Config.mcpServers ++ [("myServer", stored)])
        "myServer"
      = Own stored /\
    (forall again,
       Config.addServer (Config.mcpServers ++ [("myServer", stored)])
         "myServer" again
       = (Throws (Error ("Server " ++ "myServer" ++ " already exists")),
          Config.mcpServers ++ [("myServer", stored)])) /\
    (Config.requiredTokens
       (Samples.descriptor ["MY_TOKEN"] (Some Samples.command_transport))
     = None ->
     forall tokens,
       Config.validateServerTokens
         (Config.mcpServers ++ [("myServer", stored)]) "myServer" tokens
       = {| Config.valid := true; Config.missing := [] |}).
Proof.
  exact (addServer_then Config.mcpServers "myServer"
           (Samples.descriptor ["MY_TOKEN"] (Some Samples.command_transport))
           eq_refl eq_refl eq_refl eq_refl).
Defined.

(** ** Substitution: what a token value is taken for *)

(** X4.  Without tokens, [substituteTokens] returns a value equal to the one
    it is given. *)
Theorem substituteTokens_no_tokens (config : json) :
  representable config = true ->
  well_formed config = true ->
  Config.substituteTokens config [] = Ok config.
Proof.
  intros Hrep Hwf. rewrite substituteTokens_spec by auto.
  unfold substitute_string. cbn [fold_left].
  rewrite map_strings_id. rewrite normalize_well_formed by exact Hwf.
  reflexivity.
Qed.

Lemma substituteTokens_no_tokens_witness :
  Config.substituteTokens Samples.bearer_fragment [] = Ok Samples.bearer_fragment.
Proof. apply substituteTokens_no_tokens; reflexivity. Defined.

Section OnePlaceholder.
Local Open Scope string_scope.

Variables key p q : string.
Hypothesis key_word : Text.all Text.word_char key = true.
Hypothesis p_plain : plain p = true.
Hypothesis q_plain : plain q = true.

Let pat : string := Config.placeholder key.

Lemma no_dollar_escape w : no_dollar w = true -> no_dollar (Json.escape w) = true.
Proof.
  unfold no_dollar, lacks. induction w as [|c w IH]; [reflexivity|].
  cbn [Text.all Json.escape]. intros H. apply andb_prop in H.
  destruct H as [Hc H]. rewrite all_append, (IH H), andb_true_r.
  destruct (verbatim c) eqn:V.
  - rewrite (escape_char_verbatim c V). cbn [Text.all]. rewrite Hc. reflexivity.
  - destruct (escape_char_escaped c V) as (r & -> & Hr). exact Hr.
Qed.

Lemma one_placeholder_text :
  Json.stringify (JStr (p ++ pat ++ q))
  = String Text.quote p ++ pat ++ q ++ String Text.quote "".
Proof.
  cbn [Json.stringify]. unfold Json.quoted. rewrite escape_verbatim.
  - cbn [append]. rewrite !append_assoc. reflexivity.
  - rewrite !all_append. unfold pat.
    rewrite (plain_verbatim p p_plain), (plain_verbatim q q_plain).
    rewrite (placeholder_verbatim key key_word). reflexivity.
Qed.

Lemma quote_plain : no_dollar (String Text.quote p) = true.
Proof.
  unfold no_dollar, lacks. cbn [Text.all].
  apply (plain_no_dollar p p_plain).
Qed.

Lemma plain_quote : no_dollar (q ++ String Text.quote "") = true.
Proof.
  unfold no_dollar, lacks. rewrite all_append.
  pose proof (plain_no_dollar q q_plain) as H. unfold no_dollar, lacks in H.
  rewrite H. reflexivity.
Qed.

(** The text after the loop, for a value without dollar sign. *)
Lemma one_placeholder_replaced value :
  no_dollar value = true ->
  fold_left Config.substitute_entry [(key, value)]
    (Ok (Json.stringify (JStr (p ++ pat ++ q))))
  = Ok (String Text.quote p ++ value ++ q ++ String Text.quote "").
Proof.
  intros Hvalue. cbn [fold_left Config.substitute_entry bind fst snd].
  rewrite key_word, one_placeholder_text. unfold pat.
  rewrite placeholder_body.
  rewrite replace_all_plain by (exact Hvalue || apply quote_plain).
  rewrite replace_all_hit by exact Hvalue.
  rewrite replace_all_fixed by (exact Hvalue || apply plain_quote).
  reflexivity.
Qed.

(** X5.  The value of a token is taken for the inside of a JSON string: a
    value that is the JSON escape of a text puts that text in the place of
    the placeholder.  A plain value is its own escape. *)
Theorem substituteTokens_unescapes (w : string) :
  no_dollar w = true ->
  Config.substituteTokens (JStr (p ++ Config.placeholder key ++ q))
    [(key, Json.escape w)]
  = Ok (JStr (p ++ w ++ q)).
Proof.
  intros Hw. unfold Config.substituteTokens. fold pat.
  rewrite one_placeholder_replaced by (apply no_dollar_escape, Hw).
  cbn [bind].
  assert (E : String Text.quote p ++ Json.escape w ++ q ++ String Text.quote ""
              = Json.stringify (JStr (p ++ w ++ q))).
  { cbn [Json.stringify]. unfold Json.quoted.
    rewrite !escape_append.
    rewrite (escape_verbatim p (plain_verbatim p p_plain)).
    rewrite (escape_verbatim q (plain_verbatim q q_plain)).
    cbn [append]. rewrite !append_assoc. reflexivity. }
  rewrite E. apply parse_stringify. reflexivity.
Qed.



End OnePlaceholder.

Lemma substituteTokens_unescapes_witness :
  Config.substituteTokens (JStr "cd ${WORKSPACE_FOLDER}")
    [("WORKSPACE_FOLDER", "C:\\Users\\me")]
  = Ok (JStr "cd C:\Users\me").
Proof.
  apply (substituteTokens_unescapes "WORKSPACE_FOLDER" "cd " "" eq_refl eq_refl eq_refl "C:\Users\me" eq_refl).
Defined.


(** *** Replacement texts with dollar signs *)

Section AnyReplacement.
Local Open Scope string_scope.

Variables body rep : string.
Let pat : string := String Text.dollar body.

Lemma replace_from_plain u : forall before s,
  no_dollar u = true ->
  Text.replace_from pat rep before 0 (u ++ s)
  = u ++ Text.replace_from pat rep (before ++ u) 0 s.
Proof.
  induction u as [|c u IH]; intros before s H.
  - rewrite append_nil_r. reflexivity.
  - pose proof (no_dollar_head c u H) as Hc.
    apply andb_prop in H. destruct H as [_ H].
    cbn [append Text.replace_from].
    change (String c (u ++ s)) with (String c u ++ s) at 1.
    cbn [append]. unfold pat at 1. rewrite prefix_head by exact Hc.
    rewrite (IH _ _ H), append_assoc. reflexivity.
Qed.

Lemma replace_from_pass x : forall before s,
  Text.replace_from pat rep before (String.length x) (x ++ s)
  = Text.replace_from pat rep (before ++ x) 0 s.
Proof.
  induction x as [|c x IH]; intros before s.
  - rewrite append_nil_r. destruct s; reflexivity.
  - cbn [append String.length Text.replace_from].
    rewrite IH, append_assoc. reflexivity.
Qed.

Lemma replace_from_hit before s :
  Text.replace_from pat rep before 0 (pat ++ s)
  = Text.get_substitution pat before s rep
    ++ Text.replace_from pat rep (before ++ pat) 0 s.
Proof.
  unfold pat at 2. cbn [append Text.replace_from].
  change (String Text.dollar (body ++ s)) with (pat ++ s).
  rewrite prefix_append, drop_append. f_equal.
  replace (String.length pat - 1) with (String.length body)
    by (unfold pat; simpl; lia).
  rewrite replace_from_pass, append_assoc. reflexivity.
Qed.

(** One occurrence between two texts without dollar sign: it is replaced
    by what the replacement text stands for at that place. *)
Lemma replace_all_once u w :
  no_dollar u = true -> no_dollar w = true ->
  Text.replace_all pat rep (u ++ pat ++ w)
  = u ++ Text.get_substitution pat u w rep ++ w.
Proof.
  intros Hu Hw. unfold Text.replace_all.
  rewrite replace_from_plain by exact Hu. cbn [append].
  rewrite replace_from_hit. do 2 f_equal.
  rewrite <- (append_nil_r w) at 1.
  rewrite replace_from_plain by exact Hw. cbn [Text.replace_from].
  apply append_nil_r.
Qed.

End AnyReplacement.

Section SpecialPatterns.
Local Open Scope string_scope.

Variables matched before after : string.

Lemma get_substitution_prefix a r :
  no_dollar a = true ->
  Text.get_substitution matched before after (a ++ r)
  = a ++ Text.get_substitution matched before after r.
Proof.
  induction a as [|c a IH]; intros H; [reflexivity|].
  pose proof (no_dollar_head c a H) as Hc.
  apply andb_prop in H. destruct H as [_ H].
  cbn [append Text.get_substitution].
  change 36%N with (Text.code Text.dollar). rewrite code_eqb.
  rewrite Ascii.eqb_sym, Hc, (IH H). reflexivity.
Qed.

Lemma get_substitution_dollar a b :
  no_dollar a = true -> no_dollar b = true ->
  Text.get_substitution matched before after (a ++ "$$" ++ b)
  = a ++ "$" ++ b.
Proof.
  intros Ha Hb. rewrite get_substitution_prefix by exact Ha.
  cbn [append Text.get_substitution].
  change (Text.code "$" =? 36)%N with true. cbn iota.
  rewrite get_substitution_plain by exact Hb. reflexivity.
Qed.

Lemma get_substitution_matched a b :
  no_dollar a = true -> no_dollar b = true ->
  Text.get_substitution matched before after (a ++ "$&" ++ b)
  = a ++ matched ++ b.
Proof.
  intros Ha Hb. rewrite get_substitution_prefix by exact Ha.
  cbn [append Text.get_substitution].
  change (Text.code "$" =? 36)%N with true.
  change (Text.code "&" =? 36)%N with false.
  change (Text.code "&" =? 38)%N with true. cbn iota.
  rewrite get_substitution_plain by exact Hb. reflexivity.
Qed.

End SpecialPatterns.

Section DollarValues.
Local Open Scope string_scope.

Variables key p q a b : string.
Hypothesis key_word : Text.all Text.word_char key = true.
Hypothesis p_plain : plain p = true.
Hypothesis q_plain : plain q = true.
Hypothesis a_plain : plain a = true.
Hypothesis b_plain : plain b = true.

Lemma one_placeholder_substituted value :
  fold_left Config.substitute_entry [(key, value)]
    (Ok (Json.stringify (JStr (p ++ Config.placeholder key ++ q))))
  = Ok (String Text.quote p
        ++ Text.get_substitution (Config.placeholder key)
             (String Text.quote p) (q ++ String Text.quote "") value
        ++ q ++ String Text.quote "").
Proof.
  cbn [fold_left Config.substitute_entry bind fst snd].
  rewrite key_word, (one_placeholder_text key p q key_word p_plain q_plain).
  rewrite placeholder_body.
  rewrite replace_all_once
    by (apply quote_plain, p_plain || apply plain_quote, q_plain).
  reflexivity.
Qed.

Lemma plain_text_parsed s :
  Text.all verbatim s = true ->
  Json.parse (String Text.quote s ++ String Text.quote "") = Ok (JStr s).
Proof.
  intros H.
  rewrite <- (escape_verbatim s H) at 1.
  apply (parse_stringify (JStr s)). reflexivity.
Qed.

(** X7.  In a token value the two characters [$$] stand for one dollar sign,
    and [$&] for the placeholder itself: the value is a replacement
    pattern of [String.prototype.replace], not a text. *)
Theorem substituteTokens_dollar_patterns :
  Config.substituteTokens (JStr (p ++ Config.placeholder key ++ q))
    [(key, a ++ "$$" ++ b)]
  = Ok (JStr (p ++ a ++ "$" ++ b ++ q)) /\
  Config.substituteTokens (JStr (p ++ Config.placeholder key ++ q))
    [(key, a ++ "$&" ++ b)]
  = Ok (JStr (p ++ a ++ Config.placeholder key ++ b ++ q)).
Proof.
  pose proof (plain_no_dollar a a_plain) as Ha.
  pose proof (plain_no_dollar b b_plain) as Hb.
  pose proof (plain_verbatim p p_plain) as Vp.
  pose proof (plain_verbatim q q_plain) as Vq.
  pose proof (plain_verbatim a a_plain) as Va.
  pose proof (plain_verbatim b b_plain) as Vb.
  unfold Config.substituteTokens. rewrite !one_placeholder_substituted.
  rewrite get_substitution_dollar, get_substitution_matched by assumption.
  cbn [bind]. split.
  - rewrite <- (plain_text_parsed (p ++ a ++ "$" ++ b ++ q)).
    + f_equal. rewrite ?append_assoc. cbn [append].
      rewrite ?append_assoc. cbn [append]. rewrite ?append_assoc.
      reflexivity.
    + rewrite !all_append, Vp, Va, Vb, Vq. reflexivity.
  - rewrite <- (plain_text_parsed (p ++ a ++ Config.placeholder key ++ b ++ q)).
    + f_equal. rewrite ?append_assoc. cbn [append].
      rewrite ?append_assoc. cbn [append]. rewrite ?append_assoc.
      reflexivity.
    + rewrite !all_append, Vp, Va, Vb, Vq.
      rewrite (placeholder_verbatim key key_word). reflexivity.
Qed.

End DollarValues.

Lemma substituteTokens_dollar_patterns_witness :
  Config.substituteTokens (JStr "${PASSWORD}") [("PASSWORD", "pa$$word")]
  = Ok (JStr "pa$word") /\
  Config.substituteTokens (JStr "${PASSWORD}") [("PASSWORD", "pa$&word")]
  = Ok (JStr "pa${PASSWORD}word").
Proof.
  exact (substituteTokens_dollar_patterns "PASSWORD" "" "" "pa" "word"
           eq_refl eq_refl eq_refl eq_refl eq_refl).
Defined.

(** ** The order of the tokens *)

Section TokenOrder.








End TokenOrder.

(** ** The tokens asked for *)

Section RequiredTokens.

Lemma includes_in (x : string) (l : list string) :
  existsb (String.eqb x) l = true <-> In x l.
Proof.
  rewrite existsb_exists. split.
  - intros (y & Hy & E). apply String.eqb_eq in E. subst. exact Hy.
  - intros H. exists x. split; [exact H|apply String.eqb_refl].
Qed.

Lemma add_token_in (seen : list string) (token x : string) :
  In x (Clients.add_token seen token) <-> In x seen \/ x = token.
Proof.
  unfold Clients.add_token.
  destruct (existsb (String.eqb token) seen) eqn:E.
  - apply includes_in in E. split; [auto|]. intros [H| ->]; assumption.
  - rewrite in_app_iff. cbn [In]. intuition.
Qed.

Lemma add_tokens_in (l seen : list string) (x : string) :
  In x (fold_left Clients.add_token l seen) <-> In x seen \/ In x l.
Proof.
  revert seen. induction l as [|t l IH]; intros seen; cbn [fold_left In].
  - tauto.
  - rewrite IH, add_token_in. intuition.
Qed.

Variable mcpServers : Config.catalog.

(** The tokens a server requires. *)
Let requires (serverName token : string) : Prop :=
  exists server l,
    Obj.get serverName mcpServers = Some server /\
    Config.requiredTokens server = Some l /\ In token l.

Lemma add_required_own (seen : list string) (serverName : string) :
  Obj.has serverName mcpServers = true ->
  exists seen',
    Clients.add_required mcpServers (Ok seen) serverName = Ok seen' /\
    forall x, In x seen' <-> In x seen \/ requires serverName x.
Proof.
  unfold Obj.has, Clients.add_required, Config.getServerConfig, js_get, requires.
  destruct (Obj.get serverName mcpServers) as [server|]; [|discriminate].
  intros _. cbn [bind].
  destruct (Config.requiredTokens server) as [[|t l]|] eqn:Hl.
  - exists seen. split; [reflexivity|]. intros x. split; [auto|].
    intros [H|(s & l & [= <-] & Hs & Hin)]; [exact H|].
    rewrite Hl in Hs. injection Hs as <-. destruct Hin.
  - eexists. split; [reflexivity|]. intros x. rewrite add_tokens_in.
    split; (intros [H|H]; [auto|right]).
    + exists server, (t :: l). auto.
    + destruct H as (s & l' & [= <-] & Hs & Hin).
      rewrite Hl in Hs. injection Hs as <-. exact Hin.
  - exists seen. split; [reflexivity|]. intros x. split; [auto|].
    intros [H|(s & l & [= <-] & Hs & _)]; [exact H|congruence].
Qed.

Lemma required_loop (selected : list string) :
  Forall (fun s => Obj.has s mcpServers = true) selected ->
  forall seen,
  exists seen',
    fold_left (Clients.add_required mcpServers) selected (Ok seen) = Ok seen' /\
    forall x,
      In x seen' <->
      In x seen \/ exists s, In s selected /\ requires s x.
Proof.
  induction 1 as [|s selected Hs _ IH]; intros seen; cbn [fold_left].
  - exists seen. split; [reflexivity|]. intros x. split; [auto|].
    intros [H|(s & [] & _)]. exact H.
  - destruct (add_required_own seen s Hs) as (seen1 & -> & H1).
    destruct (IH seen1) as (seen' & -> & H').
    exists seen'. split; [reflexivity|]. intros x. rewrite H', H1.
    split.
    + intros [[H|H]|(s' & Hin & H)]; [auto| |].
      * right. exists s. cbn [In]. auto.
      * right. exists s'. cbn [In]. auto.
    + intros [H|(s' & [<-|Hin] & H)]; [auto|auto|].
      right. exists s'. auto.
Qed.

Variable answer : string -> string.

Let assign (tokens : props string) (token : string) : props string :=
  Clients.assign_token tokens token (answer token).

Lemma assign_get (tokens : props string) (token k : string) :
  Obj.has "__proto__" tokens = false ->
  Obj.get k (assign tokens token) =
  if (negb (token =? "__proto__") && (token =? k))%bool
  then Some (answer token) else Obj.get k tokens.
Proof.
  intros Hproto. unfold assign, Clients.assign_token, to_setter.
  destruct (String.eqb_spec token "__proto__") as [->|_].
  - rewrite Hproto. reflexivity.
  - cbn [negb andb]. apply get_set.
Qed.

Lemma assign_no_proto (tokens : props string) (token : string) :
  Obj.has "__proto__" tokens = false ->
  Obj.has "__proto__" (assign tokens token) = false.
Proof.
  intros Hproto. unfold Obj.has. rewrite (assign_get _ _ _ Hproto).
  destruct (String.eqb_spec token "__proto__") as [->|Hneq].
  - exact Hproto.
  - cbn [negb andb]. exact Hproto.
Qed.

Lemma assigned_get (l : list string) : forall tokens k,
  Obj.has "__proto__" tokens = false ->
  Obj.get k (fold_left assign l tokens) =
  if (negb (k =? "__proto__") && existsb (String.eqb k) l)%bool
  then Some (answer k) else Obj.get k tokens.
Proof.
  induction l as [|t l IH]; intros tokens k Hproto; cbn [fold_left existsb].
  - rewrite andb_false_r. reflexivity.
  - rewrite IH by (apply assign_no_proto, Hproto).
    rewrite (assign_get _ _ _ Hproto).
    destruct (String.eqb_spec k t) as [->|Hneq].
    + rewrite String.eqb_refl, andb_true_r. cbn [orb].
      destruct (negb (t =? "__proto__")); [|reflexivity].
      cbn [andb]. destruct (existsb (String.eqb t) l); reflexivity.
    + apply not_eq_sym, String.eqb_neq in Hneq. rewrite Hneq.
      rewrite andb_false_r. reflexivity.
Qed.

End RequiredTokens.

Lemma collectTokens_get (mcpServers : Config.catalog)
    (selected : list string) (answer : string -> string) :
  Forall (fun s => Obj.has s mcpServers = true) selected ->
  exists tokens required,
    Clients.collectTokens mcpServers selected answer [] = Ok tokens /\
    (forall x,
       In x required <->
       exists s server l,
         In s selected /\ Obj.get s mcpServers = Some server /\
         Config.requiredTokens server = Some l /\ In x l) /\
    (forall k,
       Obj.get k tokens =
       if (negb (k =? "__proto__") && existsb (String.eqb k) required)%bool
       then Some (answer k) else None).
Proof.
  intros Hselected.
  destruct (required_loop mcpServers _ Hselected [])
    as (required & Hloop & Hreq).
  exists (fold_left
            (fun tokens t => Clients.assign_token tokens t (answer t))
            required []), required.
  split; [|split].
  - unfold Clients.collectTokens. rewrite Hloop. reflexivity.
  - intros x. rewrite Hreq. split.
    + intros [[]|(s & Hs & server & l & H)]. exists s, server, l. tauto.
    + intros (s & server & l & Hs & H). right. exists s. split; [exact Hs|].
      exists server, l. exact H.
  - intros k. rewrite assigned_get by reflexivity. reflexivity.
Qed.

(** X9.  [collectTokens], for servers of the catalog and starting without
    tokens, returns a token set that holds, for every token one of the
    selected servers requires, what was answered for it, and nothing else;
    a token named [__proto__] is not stored. *)
Theorem collectTokens_exact (mcpServers : Config.catalog)
    (selected : list string) (answer : string -> string) :
  Forall (fun s => Obj.has s mcpServers = true) selected ->
  exists tokens,
    Clients.collectTokens mcpServers selected answer [] = Ok tokens /\
    forall t v,
      Obj.get t tokens = Some v <->
      t <> "__proto__" /\ v = answer t /\
      exists s server l,
        In s selected /\ Obj.get s mcpServers = Some server /\
        Config.requiredTokens server = Some l /\ In t l.
Proof.
  intros Hselected.
  destruct (collectTokens_get mcpServers selected answer Hselected)
    as (tokens & required & Hcollect & Hreq & Hget).
  exists tokens. split; [exact Hcollect|]. intros t v. rewrite Hget. split.
  - destruct (String.eqb_spec t "__proto__") as [->|Hneq]; [discriminate|].
    cbn [negb andb].
    destruct (existsb (String.eqb t) required) eqn:E; [|discriminate].
    intros [= <-]. apply includes_in, Hreq in E. auto.
  - intros (Hneq & -> & H). apply Hreq, includes_in in H. rewrite H.
    apply String.eqb_neq in Hneq. rewrite Hneq. reflexivity.
Qed.

Lemma collectTokens_exact_witness :
  exists tokens,
    Clients.collectTokens Config.mcpServers ["github"; "linear"; "notionApi"]
      (fun t => ("secret-" ++ t)%string) [] = Ok tokens /\
    forall t v,
      Obj.get t tokens = Some v <->
      t <> "__proto__" /\ v = ("secret-" ++ t)%string /\
      exists s server l,
        In s ["github"; "linear"; "notionApi"] /\
        Obj.get s Config.mcpServers = Some server /\
        Config.requiredTokens server = Some l /\ In t l.
Proof.
  apply (collectTokens_exact Config.mcpServers
           ["github"; "linear"; "notionApi"] (fun t => ("secret-" ++ t)%string)).
  repeat constructor.
Defined.

(** X10.  When the selected servers are servers of the catalog and no answer is
    empty, every selected server is valid with the tokens collected,
    nothing missing: the run does not stop at the validation. *)
Theorem collected_tokens_validate (os : Setup.platform)
    (mcpServers : Config.catalog) (dryRun : bool) (a : Clients.answers)
    (f : Clients.files) :
  Forall (fun s => Obj.has s mcpServers = true) (Clients.selectedServers a) ->
  (forall t, Clients.token a t <> "") ->
  exists tokens,
    Clients.collectTokens mcpServers (Clients.selectedServers a)
      (Clients.token a) [] = Ok tokens /\
    (forall s, In s (Clients.selectedServers a) ->
       Config.validateServerTokens mcpServers s tokens
       = {| Config.valid := true; Config.missing := [] |}) /\
    (forall f', Clients.run os mcpServers dryRun a f <> Ok (None, f')).
Proof.
  intros Hselected Hanswers.
  destruct (collectTokens_get mcpServers _ (Clients.token a) Hselected)
    as (tokens & required & Hcollect & Hreq & Hget).
  assert (Hvalid : forall s, In s (Clients.selectedServers a) ->
            Config.validateServerTokens mcpServers s tokens
            = {| Config.valid := true; Config.missing := [] |}).
  { intros s Hs. rewrite Forall_forall in Hselected.
    pose proof (Hselected s Hs) as Hhas. unfold Obj.has in Hhas.
    unfold Config.validateServerTokens, js_get.
    destruct (Obj.get s mcpServers) as [server|] eqn:Hserver; [|discriminate].
    assert (E : filter (Config.token_absent tokens)
                  match Config.requiredTokens server with
                  | Some l => l
                  | None => []
                  end = []).
    { destruct (Config.requiredTokens server) as [l|] eqn:Hl; [|reflexivity].
      assert (Hall : forall t, In t l -> Config.token_absent tokens t = false).
      { intros t Ht. unfold Config.token_absent, js_get. rewrite Hget.
        assert (Hin : existsb (String.eqb t) required = true).
        { apply includes_in, Hreq. exists s, server, l. auto. }
        rewrite Hin, andb_true_r.
        destruct (String.eqb_spec t "__proto__") as [->|_]; [reflexivity|].
        cbn [negb]. apply String.eqb_neq, Hanswers. }
      clear Hl. induction l as [|t l IHl]; [reflexivity|].
      cbn [filter]. rewrite (Hall t) by (left; reflexivity).
      apply IHl. intros t' Ht'. apply Hall. right. exact Ht'. }
    rewrite E. reflexivity. }
  exists tokens. split; [exact Hcollect|]. split; [exact Hvalid|].
  intros f'. unfold Clients.run. rewrite Hcollect. cbn [bind].
  assert (E : forallb
                (fun serverName =>
                   Config.valid
                     (Config.validateServerTokens mcpServers serverName tokens))
                (Clients.selectedServers a) = true).
  { apply forallb_forall. intros s Hs. rewrite (Hvalid s Hs). reflexivity. }
  rewrite E. cbn [negb].
  destruct (Clients.configure _ _ _ _ _ _) as [state| |]; cbn [bind];
    discriminate.
Qed.

Lemma collected_tokens_validate_witness :
  exists tokens,
    Clients.collectTokens Config.mcpServers ["github"; "filesystem"]
      (fun _ => "secret") [] = Ok tokens /\
    (forall s, In s ["github"; "filesystem"] ->
       Config.validateServerTokens Config.mcpServers s tokens
       = {| Config.valid := true; Config.missing := [] |}) /\
    (forall f',
       Clients.run Setup.Linux Config.mcpServers false
         {| Clients.selectedServers := ["github"; "filesystem"];
            Clients.selectedClients := ["claudeCode"];
            Clients.token := fun _ => "secret";
            Clients.workspaceFolder := fun _ => "/home/me/project" |}
         {| Clients.claudeCodeFile := Setup.Absent;
            Clients.claudeDesktopFile := Setup.Absent;
            Clients.vscodeFile := Setup.Absent;
            Clients.geminiFile := Setup.Absent |}
       <> Ok (None, f')).
Proof.
  apply (collected_tokens_validate Setup.Linux Config.mcpServers false
           {| Clients.selectedServers := ["github"; "filesystem"];
              Clients.selectedClients := ["claudeCode"];
              Clients.token := fun _ => "secret";
              Clients.workspaceFolder := fun _ => "/home/me/project" |}).
  - repeat constructor.
  - intros t. discriminate.
Defined.

(** ** The run of the setup *)

Section DryRun.

Variables (os : Setup.platform) (mcpServers : Config.catalog).
Variables (tokens : props string) (selected : list string) (folder : string).

Let setup (dryRun : bool) : Setup.MCPSetup :=
  {| Setup.tokens := tokens; Setup.selectedServers := selected;
     Setup.dryRun := dryRun; Setup.workspaceFolder := folder |}.

(** What a dry run of a setup function returns, from what the function
    returns otherwise. *)
Let restored (existing : Setup.file) (r : result (bool * Setup.file))
  : result (bool * Setup.file) :=
  match r with
  | Ok (returned, _) => Ok (returned, existing)
  | Throws e => Throws e
  | Unmodelled => Unmodelled
  end.

Lemma finish_dry (existing : Setup.file) (config : result json) :
  Setup.finish (setup true) existing config
  = restored existing (Setup.finish (setup false) existing config).
Proof. destruct config; reflexivity. Qed.

Lemma setupClaudeCode_dry existing :
  Clients.setupClaudeCode mcpServers (setup true) existing
  = restored existing (Clients.setupClaudeCode mcpServers (setup false) existing).
Proof. apply finish_dry. Qed.

Lemma setupClaudeDesktop_dry existing :
  Setup.setupClaudeDesktop os mcpServers (setup true) existing
  = restored existing
      (Setup.setupClaudeDesktop os mcpServers (setup false) existing).
Proof. destruct os; try apply finish_dry. reflexivity. Qed.

Lemma setupVSCode_dry existing :
  Clients.setupVSCode mcpServers (setup true) existing
  = restored existing (Clients.setupVSCode mcpServers (setup false) existing).
Proof. apply finish_dry. Qed.

Lemma setupGeminiCLI_dry existing :
  Setup.setupGeminiCLI mcpServers (setup true) existing
  = restored existing (Setup.setupGeminiCLI mcpServers (setup false) existing).
Proof. apply finish_dry. Qed.

End DryRun.

(** X11.  A dry run reports what the run would report and leaves the four files
    as they are. *)
Theorem dry_run_writes_nothing (os : Setup.platform)
    (mcpServers : Config.catalog) (a : Clients.answers) (f : Clients.files) :
  Clients.run os mcpServers true a f
  = match Clients.run os mcpServers false a f with
    | Ok (results, _) => Ok (results, f)
    | Throws e => Throws e
    | Unmodelled => Unmodelled
    end.
Proof.
  destruct f as [f1 f2 f3 f4]. unfold Clients.run.
  destruct (Clients.collectTokens mcpServers (Clients.selectedServers a)
              (Clients.token a) []) as [tokens| |]; cbn [bind];
    try reflexivity.
  destruct (negb _); [reflexivity|].
  unfold Clients.configure. cbn [bind fst snd Clients.claudeCodeFile].
  rewrite setupClaudeCode_dry.
  destruct (Clients.includes "claudeCode" (Clients.selectedClients a));
    [destruct (Clients.setupClaudeCode _ _ f1) as [[b1 g1]| |]|];
    cbn [bind fst snd Clients.claudeDesktopFile]; try reflexivity;
    rewrite setupClaudeDesktop_dry;
    (destruct (Clients.includes "claudeDesktop" (Clients.selectedClients a));
     [destruct (Setup.setupClaudeDesktop _ _ _ f2) as [[b2 g2]| |]|];
     cbn [bind fst snd Clients.vscodeFile]; try reflexivity;
     rewrite setupVSCode_dry;
     (destruct (Clients.includes "vscode" (Clients.selectedClients a));
      [destruct (Clients.setupVSCode _ _ f3) as [[b3 g3]| |]|];
      cbn [bind fst snd Clients.geminiFile]; try reflexivity;
      rewrite setupGeminiCLI_dry;
      (destruct (Clients.includes "gemini" (Clients.selectedClients a));
       [destruct (Setup.setupGeminiCLI _ _ f4) as [[b4 g4]| |]|];
       cbn [bind fst snd]; reflexivity))).
Qed.

(** X12.  The run reports on the selected clients among the four, in the order
    of the code whatever the order of the selection, and the file of a
    client that is not selected is left as it is. *)
Theorem run_selected_clients (os : Setup.platform)
    (mcpServers : Config.catalog) (dryRun : bool) (a : Clients.answers)
    (f : Clients.files) :
  match Clients.run os mcpServers dryRun a f with
  | Ok (Some results, f') =>
      Obj.keys results
      = filter (fun client => Clients.includes client (Clients.selectedClients a))
          ["claudeCode"; "claudeDesktop"; "vscode"; "gemini"] /\
      (Clients.includes "claudeCode" (Clients.selectedClients a) = false ->
       Clients.claudeCodeFile f' = Clients.claudeCodeFile f) /\
      (Clients.includes "claudeDesktop" (Clients.selectedClients a) = false ->
       Clients.claudeDesktopFile f' = Clients.claudeDesktopFile f) /\
      (Clients.includes "vscode" (Clients.selectedClients a) = false ->
       Clients.vscodeFile f' = Clients.vscodeFile f) /\
      (Clients.includes "gemini" (Clients.selectedClients a) = false ->
       Clients.geminiFile f' = Clients.geminiFile f)
  | Ok (None, f') => f' = f
  | _ => True
  end.
Proof.
  unfold Clients.run. cbn [filter].
  destruct (Clients.collectTokens mcpServers (Clients.selectedServers a)
              (Clients.token a) []) as [tokens| |]; cbn [bind]; try exact I.
  destruct (negb _); [reflexivity|].
  unfold Clients.configure. cbn [bind fst snd].
  destruct (Clients.includes "claudeCode" (Clients.selectedClients a));
    [destruct (Clients.setupClaudeCode _ _ _) as [[b1 g1]| |]|];
    cbn [bind fst snd]; try exact I;
    (destruct (Clients.includes "claudeDesktop" (Clients.selectedClients a));
     [destruct (Setup.setupClaudeDesktop _ _ _ _) as [[b2 g2]| |]|];
     cbn [bind fst snd]; try exact I;
     (destruct (Clients.includes "vscode" (Clients.selectedClients a));
      [destruct (Clients.setupVSCode _ _ _) as [[b3 g3]| |]|];
      cbn [bind fst snd]; try exact I;
      (destruct (Clients.includes "gemini" (Clients.selectedClients a));
       [destruct (Setup.setupGeminiCLI _ _ _) as [[b4 g4]| |]|];
       cbn [bind fst snd]; try exact I;
       repeat split; intros; try discriminate; reflexivity))).
Qed.

(** ** What the other setup functions write *)

Lemma set_single {A : Type} (k : string) (v v0 : A) :
  Obj.set k v [(k, v0)] = [(k, v)].
Proof.
  unfold Obj.set, Obj.has. cbn [Obj.get]. rewrite String.eqb_refl.
  cbn [Obj.replace]. rewrite String.eqb_refl. reflexivity.
Qed.

Lemma js_set_named {A : Type} (k : string) (v : A) (o : props A) :
  k <> "__proto__" -> js_set k v o = Ok (Obj.set k v o).
Proof.
  intros H. apply String.eqb_neq in H. unfold js_set, to_setter.
  rewrite H. reflexivity.
Qed.

Section ClaudeCode.

Variables (mcpServers : Config.catalog) (setup : Setup.MCPSetup).

Let holder (servers : props json) : props json :=
  [("mcpServers", JObj servers)].

Lemma add_claudeCode_projected servers s x :
  s <> "__proto__" ->
  Spec.projected mcpServers setup "claudeCode" s x ->
  Clients.add_claudeCode mcpServers setup (Ok (holder servers)) s
  = Ok (holder (Obj.set s x servers)).
Proof.
  intros Hs (fragment & Hf & Hx). unfold Clients.add_claudeCode.
  cbn [bind]. rewrite Hf. cbn [bind]. rewrite Hx. cbn [bind].
  unfold Setup.assign_server, js_get, holder. cbn [Obj.get].
  rewrite String.eqb_refl. cbn [Setup.assign].
  rewrite (js_set_named s x servers Hs). cbn [bind].
  rewrite set_single. reflexivity.
Qed.

Lemma add_claudeCode_throws e s :
  Clients.add_claudeCode mcpServers setup (Throws e) s = Throws e.
Proof. reflexivity. Qed.

Lemma claudeCode_thrown e (names : list string) :
  fold_left (Clients.add_claudeCode mcpServers setup) names (Throws e)
  = Throws e.
Proof. induction names as [|s names IH]; [reflexivity|exact IH]. Qed.

Lemma claudeCode_loop (names : list string) :
  ~ In "__proto__" names ->
  (forall s, In s names ->
     exists x, Spec.projected mcpServers setup "claudeCode" s x) ->
  forall servers0,
  exists servers,
    fold_left (Clients.add_claudeCode mcpServers setup) names
      (Ok (holder servers0)) = Ok (holder servers) /\
    forall k y,
      Obj.get k servers = Some y <->
      (In k names /\ Spec.projected mcpServers setup "claudeCode" k y) \/
      (~ In k names /\ Obj.get k servers0 = Some y).
Proof.
  induction names as [|s names IH]; intros Hproto Hall servers0.
  - exists servers0. split; [reflexivity|]. intros k y. cbn [In]. tauto.
  - destruct (Hall s) as (x & Hx); [left; reflexivity|].
    assert (Hs : s <> "__proto__") by (intros ->; apply Hproto; left; auto).
    destruct (IH (fun H => Hproto (or_intror H))
                (fun s' H => Hall s' (or_intror H)) (Obj.set s x servers0))
      as (servers & Hfold & Hget).
    exists servers. split.
    + cbn [fold_left]. rewrite (add_claudeCode_projected _ _ _ Hs Hx).
      exact Hfold.
    + intros k y. rewrite Hget, get_set. cbn [In].
      destruct (String.eqb_spec s k) as [->|Hneq].
      * split.
        -- intros [[Hin Hp]|[Hnot [= <-]]]; left; auto.
        -- intros [[_ Hp]|[Hnot _]]; [|exfalso; auto].
           destruct (in_dec string_dec k names) as [Hin|Hnot]; [left; auto|].
           right. split; [exact Hnot|]. f_equal.
           exact (projected_functional _ _ _ _ _ _ Hx Hp).
      * split.
        -- intros [[Hin Hp]|[Hnot Hy]]; [left; auto|right].
           split; [|exact Hy]. intros [E|Hin]; auto.
        -- intros [[[E|Hin] Hp]|[Hnot Hy]]; [contradiction|left; auto|right].
           split; [|exact Hy]. auto.
Qed.

(** X13.  When every selected server can be projected for Claude Code (and
    none is named [__proto__]), the file written holds one entry for each
    selected server, the projection of the server with the tokens
    substituted, and nothing else: what the file held before is not
    kept. *)
Theorem setupClaudeCode_writes (existing : Setup.file) :
  ~ In "__proto__" (Setup.selectedServers setup) ->
  (forall s, In s (Setup.selectedServers setup) ->
     exists x, Spec.projected mcpServers setup "claudeCode" s x) ->
  exists servers,
    Clients.setupClaudeCode mcpServers setup existing
    = Ok (true,
          if Setup.dryRun setup then existing
          else Setup.Present
                 (Setup.writeJson (JObj [("mcpServers", JObj servers)]))) /\
    forall s x,
      Obj.get s servers = Some x <->
      In s (Setup.selectedServers setup) /\
      Spec.projected mcpServers setup "claudeCode" s x.
Proof.
  intros Hproto Hall.
  destruct (claudeCode_loop _ Hproto Hall []) as (servers & Hfold & Hget).
  exists servers. split.
  - unfold Clients.setupClaudeCode, Clients.claudeCode_config.
    change (Obj.literal [("mcpServers", JObj [])]) with (holder []).
    rewrite Hfold. reflexivity.
  - intros s x. rewrite Hget. cbn [Obj.get]. split.
    + intros [H|[_ H]]; [exact H|discriminate].
    + auto.
Qed.

(** X14.  All or nothing: when a selected server cannot be projected (its
    projection throws) after servers that can, the function returns
    [false] and the file is left as it was. *)
Theorem setupClaudeCode_all_or_nothing
    (done rest : list string) (bad : string) (e : exn)
    (existing : Setup.file) :
  Setup.selectedServers setup = done ++ bad :: rest ->
  ~ In "__proto__" done ->
  (forall s, In s done ->
     exists x, Spec.projected mcpServers setup "claudeCode" s x) ->
  Setup.client_fragment mcpServers bad "claudeCode" = Throws e ->
  Clients.setupClaudeCode mcpServers setup existing = Ok (false, existing).
Proof.
  intros Hsel Hproto Hdone Hbad.
  destruct (claudeCode_loop _ Hproto Hdone []) as (servers & Hfold & _).
  unfold Clients.setupClaudeCode, Clients.claudeCode_config.
  change (Obj.literal [("mcpServers", JObj [])]) with (holder []).
  rewrite Hsel, fold_left_app, Hfold. cbn [fold_left].
  assert (E : Clients.add_claudeCode mcpServers setup (Ok (holder servers)) bad
              = Throws e).
  { unfold Clients.add_claudeCode. cbn [bind]. rewrite Hbad. reflexivity. }
  rewrite E, claudeCode_thrown. reflexivity.
Qed.

End ClaudeCode.

Section VSCode.

Variables (mcpServers : Config.catalog) (setup : Setup.MCPSetup).

Let entry := Outcome.vscode_entry mcpServers (Setup.tokens setup).
Let skipped := Outcome.vscode_skipped mcpServers.

Lemma vscode_entry_functional s x y : entry s x -> entry s y -> x = y.
Proof.
  intros (f & Hf & _ & Hx) (g & Hg & _ & Hy).
  rewrite Hf in Hg. injection Hg as <-. congruence.
Qed.

Lemma vscode_entry_not_skipped s x : entry s x -> skipped s -> False.
Proof.
  intros (f & Hf & Ht & _) [H|(g & Hg & Hg')]; rewrite Hf in *.
  - discriminate.
  - injection Hg as <-. congruence.
Qed.

Lemma add_vscode_entry servers s x :
  s <> "__proto__" ->
  entry s x ->
  Setup.add_vscode mcpServers setup (Ok servers) s
  = Ok (Obj.set s x servers).
Proof.
  intros Hs (f & Hf & Ht & Hx). unfold Setup.add_vscode. cbn [bind].
  rewrite Hf. cbn [bind]. rewrite Ht, Hx. cbn [bind].
  apply js_set_named, Hs.
Qed.

Lemma add_vscode_skipped servers s :
  skipped s -> Setup.add_vscode mcpServers setup (Ok servers) s = Ok servers.
Proof.
  intros [H|(f & Hf & Ht)]; unfold Setup.add_vscode; cbn [bind].
  - rewrite H. reflexivity.
  - rewrite Hf. cbn [bind]. rewrite Ht. reflexivity.
Qed.

Lemma vscode_loop (names : list string) :
  ~ In "__proto__" names ->
  (forall s, In s names -> skipped s \/ exists x, entry s x) ->
  forall servers0,
  exists servers,
    fold_left (Setup.add_vscode mcpServers setup) names (Ok servers0)
    = Ok servers /\
    forall k y,
      Obj.get k servers = Some y <->
      (In k names /\ entry k y) \/
      ((~ In k names \/ skipped k) /\ Obj.get k servers0 = Some y).
Proof.
  induction names as [|s names IH]; intros Hproto Hall servers0.
  - exists servers0. split; [reflexivity|]. intros k y. cbn [In]. tauto.
  - assert (Hname : s <> "__proto__")
      by (intros ->; apply Hproto; left; auto).
    destruct (Hall s) as [Hs|(x & Hx)]; [left; reflexivity| |].
    + destruct (IH (fun H => Hproto (or_intror H))
                  (fun s' H => Hall s' (or_intror H)) servers0)
        as (servers & Hfold & Hget).
      exists servers. split.
      * cbn [fold_left]. rewrite (add_vscode_skipped _ _ Hs). exact Hfold.
      * intros k y. rewrite Hget. cbn [In]. split.
        -- intros [[Hin Hp]|[[Hnot|Hk] Hy]]; [left; auto| |right; auto].
           destruct (String.eqb_spec s k) as [->|Hneq]; [right; auto|].
           right. split; [|exact Hy]. left. intros [E|Hin]; auto.
        -- intros [[[E|Hin] Hp]|[[Hnot|Hk] Hy]].
           ++ subst. exfalso. exact (vscode_entry_not_skipped _ _ Hp Hs).
           ++ left. auto.
           ++ right. split; [|exact Hy]. left. auto.
           ++ right. auto.
    + destruct (IH (fun H => Hproto (or_intror H))
                  (fun s' H => Hall s' (or_intror H)) (Obj.set s x servers0))
        as (servers & Hfold & Hget).
      exists servers. split.
      * cbn [fold_left]. rewrite (add_vscode_entry _ _ _ Hname Hx).
        exact Hfold.
      * intros k y. rewrite Hget, get_set. cbn [In].
        destruct (String.eqb_spec s k) as [->|Hneq].
        -- split.
           ++ intros [[Hin Hp]|[_ [= <-]]]; left; auto.
           ++ intros [[_ Hp]|[[Hnot|Hk] _]].
              ** destruct (in_dec string_dec k names) as [Hin|Hnot];
                   [left; auto|].
                 right. split; [left; exact Hnot|]. f_equal.
                 exact (vscode_entry_functional _ _ _ Hx Hp).
              ** exfalso. auto.
              ** exfalso. exact (vscode_entry_not_skipped _ _ Hx Hk).
        -- split.
           ++ intros [[Hin Hp]|[[Hnot|Hk] Hy]]; [left; auto| |right; auto].
              right. split; [|exact Hy]. left. intros [E|Hin]; auto.
           ++ intros [[[E|Hin] Hp]|[[Hnot|Hk] Hy]];
                [contradiction|left; auto| |right; auto].
              right. split; [|exact Hy]. left. auto.
Qed.

(** X15.  When every selected server has a VS Code entry or is passed over (and
    none is named [__proto__]), the file written holds an entry for exactly
    the selected servers that have a VS Code fragment, and nothing else: the
    servers without one are left out without a failure, and what the file
    held before is not kept. *)
Theorem setupVSCode_writes (existing : Setup.file) :
  ~ In "__proto__" (Setup.selectedServers setup) ->
  (forall s, In s (Setup.selectedServers setup) ->
     Outcome.vscode_skipped mcpServers s \/
     exists x, Outcome.vscode_entry mcpServers (Setup.tokens setup) s x) ->
  exists servers,
    Clients.setupVSCode mcpServers setup existing
    = Ok (true,
          if Setup.dryRun setup then existing
          else Setup.Present
                 (Setup.writeJson (JObj [("mcpServers", JObj servers)]))) /\
    forall s x,
      Obj.get s servers = Some x <->
      In s (Setup.selectedServers setup) /\
      Outcome.vscode_entry mcpServers (Setup.tokens setup) s x.
Proof.
  intros Hproto Hall.
  destruct (vscode_loop _ Hproto Hall []) as (servers & Hfold & Hget).
  exists servers. split.
  - unfold Clients.setupVSCode, Setup.vscode_config.
    match goal with
    | |- context [bind ?loop _] =>
        replace loop with (Ok servers : result (props json))
          by (symmetry; exact Hfold)
    end.
    reflexivity.
  - intros s x. rewrite Hget. cbn [Obj.get]. split.
    + intros [H|[_ H]]; [exact H|discriminate].
    + auto.
Qed.

End VSCode.

Lemma setupClaudeCode_writes_witness :
  exists servers,
    Clients.setupClaudeCode Config.mcpServers Examples.two_servers
      Samples.desktop_file
    = Ok (true,
          Setup.Present
            (Setup.writeJson (JObj [("mcpServers", JObj servers)]))) /\
    forall s x,
      Obj.get s servers = Some x <->
      In s ["github"; "filesystem"] /\
      Spec.projected Config.mcpServers Examples.two_servers "claudeCode" s x.
Proof.
  apply (setupClaudeCode_writes Config.mcpServers Examples.two_servers
           Samples.desktop_file).
  - intros [H|[H|[]]]; discriminate.
  - intros s [<-|[<-|[]]]; eexists; eexists; (split; [reflexivity|]);
      vm_compute; reflexivity.
Defined.

Lemma setupClaudeCode_all_or_nothing_witness :
  Clients.setupClaudeCode Config.mcpServers Examples.unknown_server
    Samples.desktop_file
  = Ok (false, Samples.desktop_file).
Proof.
  apply (setupClaudeCode_all_or_nothing Config.mcpServers
           Examples.unknown_server ["github"] ["linear"] "nope" TypeError).
  - reflexivity.
  - intros [H|[]]; discriminate.
  - intros s [<-|[]]. eexists. eexists. split; [reflexivity|].
    vm_compute. reflexivity.
  - reflexivity.
Defined.

Lemma setupVSCode_writes_witness :
  exists servers,
    Clients.setupVSCode Config.mcpServers Examples.two_servers Setup.Absent
    = Ok (true,
          Setup.Present
            (Setup.writeJson (JObj [("mcpServers", JObj servers)]))) /\
    forall s x,
      Obj.get s servers = Some x <->
      In s ["github"; "filesystem"] /\
      Outcome.vscode_entry Config.mcpServers Samples.github_tokens s x.
Proof.
  apply (setupVSCode_writes Config.mcpServers Examples.two_servers
           Setup.Absent).
  - intros [H|[H|[]]]; discriminate.
  - intros s [<-|[<-|[]]].
    + right. eexists. eexists. split; [reflexivity|]. split; [reflexivity|].
      vm_compute. reflexivity.
    + left. left. reflexivity.
Defined.

(** ** The prompts of the converted commands *)

(** *** A replacement text that stands for itself *)

Section InertReplacement.
Local Open Scope string_scope.

Variables pat rep : string.
Hypothesis rep_inert :
  forall matched before after,
    Text.get_substitution matched before after rep = rep.
Hypothesis pat_not_empty : pat <> "".

Let G : string -> string := Text.replace_all pat rep.

Lemma replace_from_before s : forall k before before',
  Text.replace_from pat rep before k s
  = Text.replace_from pat rep before' k s.
Proof.
  induction s as [|c s IH]; intros k before before'; [reflexivity|].
  destruct k as [|k]; cbn [Text.replace_from].
  - rewrite !rep_inert.
    rewrite (IH _ (before ++ String c "") (before' ++ String c "")).
    rewrite (IH 0 (before ++ String c "") (before' ++ String c "")).
    reflexivity.
  - apply IH.
Qed.

Lemma replace_from_drop s : forall k before,
  Text.replace_from pat rep before k s
  = Text.replace_from pat rep before 0 (Text.drop k s).
Proof.
  induction s as [|c s IH]; intros k before.
  - destruct k; reflexivity.
  - destruct k as [|k]; [reflexivity|]. cbn [Text.replace_from Text.drop].
    rewrite IH. apply replace_from_before.
Qed.

Lemma inert_hit s : G (pat ++ s) = rep ++ G s.
Proof.
  assert (E : exists c p, pat = String c p)
    by (destruct pat as [|c p]; [contradiction|eauto]).
  destruct E as (c & p & E). unfold G, Text.replace_all. rewrite E.
  cbn [append Text.replace_from].
  change (String c (p ++ s)) with (String c p ++ s).
  rewrite prefix_append, rep_inert. f_equal.
  replace (String.length (String c p) - 1) with (String.length p)
    by (simpl; lia).
  rewrite <- E, replace_from_drop, drop_append. apply replace_from_before.
Qed.

Lemma inert_step c s :
  prefix pat (String c s) = false -> G (String c s) = String c (G s).
Proof.
  intros H. unfold G, Text.replace_all. cbn [Text.replace_from]. rewrite H.
  f_equal. apply replace_from_before.
Qed.



End InertReplacement.

Section InertDollar.
Local Open Scope string_scope.

Variables body rep : string.
Hypothesis rep_inert :
  forall matched before after,
    Text.get_substitution matched before after rep = rep.
Hypothesis body_plain : no_dollar body = true.

Let pat : string := String Text.dollar body.
Let G : string -> string := Text.replace_all pat rep.


Lemma inert_plain u s : no_dollar u = true -> G (u ++ s) = u ++ G s.
Proof.
  induction u as [|c u IH]; intros H; [reflexivity|].
  pose proof (no_dollar_head c u H) as Hc.
  apply andb_prop in H. destruct H as [_ H].
  cbn [append]. unfold G. rewrite inert_step.
  - fold G. rewrite (IH H). reflexivity.
  - exact rep_inert.
  - apply prefix_head, Hc.
Qed.


Variables (head : ascii) (tail : string).
Hypothesis rep_head : rep = String head tail.
Hypothesis body_head : lacks head body = true.
Hypothesis rep_closed :
  forall t, Convert.includes pat (rep ++ t) = Convert.includes pat t.



End InertDollar.

Section Prompts.
Local Open Scope string_scope.





End Prompts.

(** ** The files of the converted commands *)

Section Conversions.
Local Open Scope string_scope.

Lemma optional_labels before after before' after' v l :
  Convert.optional before after v = Ok l ->
  exists l', Convert.optional before' after' v = Ok l'.
Proof.
  unfold Convert.optional. destruct v as [x|]; [|eauto].
  destruct (truthy x); [|eauto].
  destruct (Convert.to_string x); cbn [bind]; try discriminate. eauto.
Qed.

Lemma copilot_tool_result x :
  (exists t, Convert.copilot_tool x = Ok t) \/
  Convert.copilot_tool x = Throws TypeError.
Proof.
  destruct x as [|b|n|s|l|o]; cbn [Convert.copilot_tool]; eauto.
  destruct (existsb _ l); [eauto|].
  destruct (existsb _ l); [eauto|].
  destruct (existsb _ l); eauto.
Qed.

Lemma copilot_tools_result l :
  (exists ts, Convert.copilot_tools l = Ok ts) \/
  Convert.copilot_tools l = Throws TypeError.
Proof.
  induction l as [|x l IH]; cbn [Convert.copilot_tools]; [eauto|].
  destruct (copilot_tool_result x) as [(t & ->)| ->]; cbn [bind]; [|auto].
  destruct IH as [(ts & ->)| ->]; cbn [bind]; eauto.
Qed.

Lemma claude_content_ok (command : props json) (content : string) :
  Convert.claude_content command = Ok content ->
  exists tools metadata description model prompt,
    Convert.listed_tools command = Ok tools /\
    Convert.optional "description: " "" (Obj.get "description" command)
      = Ok description /\
    Convert.optional "model: " "" (Obj.get "model" command) = Ok model /\
    Convert.text_of (Obj.get "prompt" command) = Ok prompt /\
    content = Convert.frontmatter metadata ++ prompt.
Proof.
  unfold Convert.claude_content. intros H.
  destruct (Convert.listed_tools command) as [tools| |]; cbn [bind] in H;
    try discriminate.
  assert (A : exists m1,
            match tools with
            | Some l =>
                texts <- Convert.element_texts l ;;
                Ok ["allowed-tools: " ++ String.concat ", " texts]
            | None => Ok []
            end = Ok m1 \/ False).
  { destruct tools as [l|]; [|eauto].
    destruct (Convert.element_texts l); cbn [bind] in *; try discriminate.
    eauto. }
  destruct A as (m1 & [A|[]]). rewrite A in H. cbn [bind] in H.
  destruct (Convert.optional "argument-hint: " ""
              (Obj.get "arguments" command)) as [m2| |];
    cbn [bind] in H; try discriminate.
  destruct (Convert.optional "description: " ""
              (Obj.get "description" command)) as [m3| |];
    cbn [bind] in H; try discriminate.
  destruct (Convert.optional "model: " "" (Obj.get "model" command))
    as [m4| |]; cbn [bind] in H; try discriminate.
  destruct (Convert.text_of (Obj.get "prompt" command)) as [p| |];
    cbn [bind] in H; try discriminate.
  injection H as <-. exists tools, (m1 ++ m2 ++ m3 ++ m4)%list, m3, m4, p.
  auto.
Qed.

(** X17.  A command without a [prompt]: when the Claude file can be written, it
    is the only one that is; its body is the word "undefined", the Copilot
    conversion throws a [TypeError] and the Gemini conversion is not
    reached. *)
Theorem missing_prompt_converts_partly (command : props json)
    (w : Convert.written) :
  Obj.get "prompt" command = None ->
  Convert.convertToClaudeFormat command = Ok w ->
  Convert.convert_command command = Ok ([w], Some TypeError) /\
  exists header, Convert.content w = header ++ "undefined".
Proof.
  intros Hprompt Hclaude.
  assert (Hcontent : exists tools metadata description model,
            Convert.listed_tools command = Ok tools /\
            Convert.optional "description: " "" (Obj.get "description" command)
              = Ok description /\
            Convert.optional "model: " "" (Obj.get "model" command) = Ok model /\
            Convert.content w = Convert.frontmatter metadata ++ "undefined").
  { unfold Convert.convertToClaudeFormat in Hclaude.
    destruct (Convert.claude_content command) as [content| |] eqn:Hc;
      cbn [bind] in Hclaude; try discriminate.
    destruct (claude_content_ok _ _ Hc)
      as (tools & metadata & d & m & p & Ht & Hd & Hm & Hp & ->).
    rewrite Hprompt in Hp. injection Hp as <-.
    destruct (Convert.text_of (Obj.get "name" command)) as [name| |];
      cbn [bind] in Hclaude; try discriminate.
    destruct (Convert.subfolder command) as [sub| |];
      cbn [bind] in Hclaude; try discriminate.
    injection Hclaude as <-. exists tools, metadata, d, m. auto. }
  destruct Hcontent as (tools & metadata & d & m & Ht & Hd & Hm & Hw).
  assert (Hcopilot : Convert.convertToCopilotFormat command = Throws TypeError).
  { unfold Convert.convertToCopilotFormat, Convert.copilot_content.
    destruct (optional_labels _ _ "model: '" "'" _ _ Hm) as (m' & ->).
    destruct (optional_labels _ _ "description: '" "'" _ _ Hd) as (d' & ->).
    rewrite Ht. cbn [bind].
    assert (Hp : Convert.converted_prompt "${args}" command = Throws TypeError)
      by (unfold Convert.converted_prompt; rewrite Hprompt; reflexivity).
    destruct tools as [l|]; cbn [bind].
    - destruct (copilot_tools_result l) as [(ts & ->)| ->]; cbn [bind];
        [|reflexivity].
      rewrite Hp. reflexivity.
    - rewrite Hp. reflexivity. }
  split.
  - unfold Convert.convert_command. rewrite Hclaude, Hcopilot. reflexivity.
  - eauto.
Qed.

Lemma missing_prompt_converts_partly_witness :
  Convert.convert_command
    [("name", JStr "broken"); ("description", JStr "has no prompt")]
  = Ok ([ {| Convert.path := "broken.md";
             Convert.content :=
               "---" ++ Convert.nl ++ "description: has no prompt"
               ++ Convert.nl ++ "---" ++ Convert.nl ++ Convert.nl
               ++ "undefined" |} ],
        Some TypeError) /\
  exists header,
    "---" ++ Convert.nl ++ "description: has no prompt" ++ Convert.nl
    ++ "---" ++ Convert.nl ++ Convert.nl ++ "undefined"
    = header ++ "undefined".
Proof.
  exact (missing_prompt_converts_partly
           [("name", JStr "broken"); ("description", JStr "has no prompt")]
           _ eq_refl eq_refl).
Defined.

End Conversions.

Section CopilotNames.
Local Open Scope string_scope.

Lemma flat_replaced s :
  lacks "/" (Text.replace_all "/" "_" s) = true.
Proof.
  induction s as [|c s IH]; [reflexivity|].
  destruct (Ascii.eqb_spec c "/") as [->|Hneq].
  - change (String "/" s) with ("/" ++ s).
    rewrite (inert_hit "/" "_") by (reflexivity || discriminate).
    exact IH.
  - rewrite (inert_step "/" "_") by
      (reflexivity
       || (rewrite prefix_cons; apply not_eq_sym, Ascii.eqb_neq in Hneq;
           rewrite Hneq; reflexivity)).
    unfold lacks. cbn [Text.all]. apply Ascii.eqb_neq in Hneq.
    rewrite Hneq. exact IH.
Qed.

Lemma flattened_replaced s :
  lacks Text.backslash s = true ->
  Convert.flattened s = Text.replace_all "/" "_" s.
Proof.
  induction s as [|c s IH]; [reflexivity|]. intros H.
  apply andb_prop in H. destruct H as [Hc H].
  apply negb_true_iff in Hc. cbn [Convert.flattened].
  rewrite (IH H). unfold Convert.flatten. rewrite Hc, orb_false_r.
  destruct (Ascii.eqb_spec c "/") as [->|Hneq].
  - change (String "/" s) with ("/" ++ s).
    rewrite (inert_hit "/" "_") by (reflexivity || discriminate).
    reflexivity.
  - rewrite (inert_step "/" "_") by
      (reflexivity
       || (rewrite prefix_cons; apply not_eq_sym, Ascii.eqb_neq in Hneq;
           rewrite Hneq; reflexivity)).
    reflexivity.
Qed.

(** X18.  The Copilot files are flat: when the name of the command holds no
    slash, neither does the name of the file, whatever the subfolder; and
    the name a dry run announces is the name of the file when the
    subfolder holds no backslash. *)
Theorem copilot_name_flat (sub : option string) (name : string) :
  lacks "/" name = true ->
  lacks "/" (Convert.copilot_name sub name) = true /\
  (match sub with
   | Some s => lacks Text.backslash s
   | None => true
   end = true ->
   Convert.announced_copilot_name sub name = Convert.copilot_name sub name).
Proof.
  intros Hname. unfold lacks in Hname. split.
  - destruct sub as [s|]; unfold Convert.copilot_name, lacks;
      rewrite !all_append, Hname; [|reflexivity].
    pose proof (flat_replaced s) as F. unfold lacks in F. rewrite F.
    reflexivity.
  - destruct sub as [s|]; [|reflexivity]. intros H.
    unfold Convert.announced_copilot_name, Convert.copilot_name.
    rewrite (flattened_replaced s H). reflexivity.
Qed.

Lemma copilot_name_flat_witness :
  lacks "/" (Convert.copilot_name (Some "kiro/spec") "commit") = true /\
  (lacks Text.backslash "kiro/spec" = true ->
   Convert.announced_copilot_name (Some "kiro/spec") "commit"
   = Convert.copilot_name (Some "kiro/spec") "commit").
Proof.
  exact (copilot_name_flat (Some "kiro/spec") "commit" eq_refl).
Defined.

(** With a backslash in the subfolder the dry run announces another name
    than the one written. *)
Lemma announced_name_differs :
  Convert.announced_copilot_name (Some (String Text.backslash "a")) "c"
    = "_a_c.prompt.md" /\
  Convert.copilot_name (Some (String Text.backslash "a")) "c"
    = String Text.backslash "a_c.prompt.md".
Proof. split; reflexivity. Qed.

End CopilotNames.

(** ** From a loaded document to its files *)

Section FileNames.
Local Open Scope string_scope.

Lemma ends_with_refl suffix : Loader.ends_with suffix suffix = true.
Proof.
  destruct suffix; cbn [Loader.ends_with]; rewrite String.eqb_refl;
    reflexivity.
Qed.

Lemma ends_with_append suffix base :
  Loader.ends_with suffix (base ++ suffix) = true.
Proof.
  induction base as [|c base IH]; [apply ends_with_refl|].
  cbn [append Loader.ends_with]. rewrite IH. apply orb_true_r.
Qed.

Lemma not_yaml base : Loader.ends_with ".yaml" (base ++ ".yml") = false.
Proof.
  induction base as [|c base IH]; [reflexivity|].
  cbn [append Loader.ends_with]. rewrite IH, orb_false_r.
  apply String.eqb_neq. intros E.
  assert (L : String.length (String c (base ++ ".yml")) = 5)
    by (rewrite E; reflexivity).
  cbn [String.length] in L. rewrite length_append in L. cbn in L.
  destruct base; [|simpl in L; lia]. discriminate E.
Qed.

Lemma take_append base r : Loader.take (String.length base) (base ++ r) = base.
Proof.
  induction base as [|c base IH]; [destruct r; reflexivity|].
  cbn [String.length append Loader.take]. rewrite IH. reflexivity.
Qed.

Lemma stem_append suffix base :
  base <> "" -> Loader.stem suffix (base ++ suffix) = base.
Proof.
  intros Hbase. unfold Loader.stem. rewrite length_append.
  replace (String.length base + String.length suffix - String.length suffix)
    with (String.length base) by lia.
  destruct base as [|c base]; [contradiction|].
  cbn [String.length]. apply (take_append (String c base)).
Qed.

(** X19.  [_fileName] is the name of the file without its extension, for both
    extensions; a file named by the extension alone keeps its name. *)
Theorem fileName_roundtrip (base : string) :
  base <> "" ->
  Loader.fileName (base ++ ".yaml") = base /\
  Loader.fileName (base ++ ".yml") = base /\
  Loader.fileName ".yaml" = ".yaml" /\ Loader.fileName ".yml" = ".yml".
Proof.
  intros Hbase. unfold Loader.fileName. repeat split; try reflexivity.
  - rewrite ends_with_append. apply stem_append, Hbase.
  - rewrite not_yaml. apply stem_append, Hbase.
Qed.

Lemma fileName_roundtrip_witness :
  Loader.fileName ("release.notes" ++ ".yaml") = "release.notes" /\
  Loader.fileName ("release.notes" ++ ".yml") = "release.notes" /\
  Loader.fileName ".yaml" = ".yaml" /\ Loader.fileName ".yml" = ".yml".
Proof. apply (fileName_roundtrip "release.notes"). discriminate. Defined.

End FileNames.

Section LoadedCommands.
Local Open Scope string_scope.

Variables (location sub file : string) (o : props json).

Let command : props json := Loader.tag location sub file o.

Lemma tag_get k :
  k <> "_filePath" -> k <> "_subfolder" -> k <> "_fileName" ->
  Obj.get k command = Obj.get k o.
Proof.
  intros H1 H2 H3. unfold command, Loader.tag.
  rewrite !get_set_other by congruence. reflexivity.
Qed.

Lemma tag_subfolder :
  Convert.subfolder command = Ok (if sub =? "" then None else Some sub).
Proof.
  unfold Convert.subfolder, command, Loader.tag.
  rewrite get_set_other by discriminate. rewrite get_set_same. reflexivity.
Qed.

Lemma tag_claude_content :
  Convert.claude_content command = Convert.claude_content o.
Proof.
  unfold Convert.claude_content, Convert.listed_tools.
  rewrite !tag_get by discriminate. reflexivity.
Qed.

Lemma tag_copilot_content :
  Convert.copilot_content command = Convert.copilot_content o.
Proof.
  unfold Convert.copilot_content, Convert.listed_tools,
    Convert.converted_prompt.
  rewrite !tag_get by discriminate. reflexivity.
Qed.

Lemma tag_gemini_content :
  Convert.gemini_content command = Convert.gemini_content o.
Proof.
  unfold Convert.gemini_content, Convert.converted_prompt.
  rewrite !tag_get by discriminate. reflexivity.
Qed.

(** X20.  The files of a loaded document: their content comes from the
    document, their place from where the document was found; what the
    document itself says of [_subfolder] plays no part. *)
Theorem loaded_command_files :
  let place := if sub =? "" then None else Some sub in
  Convert.convertToClaudeFormat (Loader.tag location sub file o)
  = (content <- Convert.claude_content o ;;
     name <- Convert.text_of (Obj.get "name" o) ;;
     Ok {| Convert.path := Convert.below place (name ++ ".md");
           Convert.content := content |}) /\
  Convert.convertToCopilotFormat (Loader.tag location sub file o)
  = (content <- Convert.copilot_content o ;;
     name <- Convert.text_of (Obj.get "name" o) ;;
     Ok {| Convert.path := Convert.copilot_name place name;
           Convert.content := content |}) /\
  Convert.convertToGeminiFormat (Loader.tag location sub file o)
  = (content <- Convert.gemini_content o ;;
     name <- Convert.text_of (Obj.get "name" o) ;;
     Ok {| Convert.path := Convert.below place (name ++ ".toml");
           Convert.content := content |}).
Proof.
  cbn zeta. fold command.
  unfold Convert.convertToClaudeFormat, Convert.convertToCopilotFormat,
    Convert.convertToGeminiFormat.
  rewrite tag_claude_content, tag_copilot_content, tag_gemini_content.
  rewrite tag_subfolder, (tag_get "name") by discriminate.
  repeat split.
Qed.

End LoadedCommands.

(** ** Merging again *)

Lemma replace_same {A : Type} (k : string) (v : A) (o : props A) :
  Obj.get k o = Some v -> Obj.replace k v o = o.
Proof.
  induction o as [|[k0 v0] o IH]; simpl; [reflexivity|].
  destruct (String.eqb_spec k0 k) as [->|Hne].
  - intros [= ->]. reflexivity.
  - intros H. rewrite (IH H). reflexivity.
Qed.

Lemma set_same {A : Type} (k : string) (v : A) (o : props A) :
  Obj.get k o = Some v -> Obj.set k v o = o.
Proof.
  intros H. unfold Obj.set, Obj.has. rewrite H. apply replace_same, H.
Qed.

Lemma servers_entry (config : props json) (s : string) (x : json) :
  Obj.get s (Spec.servers_of config) = Some x ->
  exists servers,
    Obj.get "mcpServers" config = Some (JObj servers) /\
    Obj.get s servers = Some x.
Proof.
  unfold Spec.servers_of.
  destruct (Obj.get "mcpServers" config) as [[| | | | |servers]|];
    try discriminate.
  eauto.
Qed.

(** Assigning the entry a server already has changes nothing. *)
Lemma assign_server_same (config : props json) (s : string) (x : json) :
  Obj.get s (Spec.servers_of config) = Some x ->
  Setup.assign_server config s x = Ok config.
Proof.
  intros H. destruct (servers_entry _ _ _ H) as (servers & Hm & Hs).
  unfold Setup.assign_server, js_get. rewrite Hm.
  unfold Setup.assign, js_set, to_setter, Obj.has. rewrite Hs.
  rewrite andb_false_r. cbn [bind].
  rewrite (set_same s x servers Hs), (set_same _ _ config Hm). reflexivity.
Qed.

Section Again.

Variables (mcpServers : Config.catalog) (setup : Setup.MCPSetup).
Variable config : props json.

Lemma add_claudeDesktop_again (s : string) :
  (exists x,
     Spec.projected mcpServers setup "claudeDesktop" s x /\
     Obj.get s (Spec.servers_of config) = Some x) ->
  Setup.add_claudeDesktop mcpServers setup (Ok config) s = Ok config.
Proof.
  intros (x & (f & Hf & Hx) & Hs). unfold Setup.add_claudeDesktop.
  cbn [bind]. rewrite Hf. cbn [bind]. rewrite Hx. cbn [bind].
  apply assign_server_same, Hs.
Qed.

Lemma add_gemini_again (s : string) :
  (exists x,
     Spec.projected mcpServers setup "gemini" s x /\
     Obj.get s (Spec.servers_of config) = Some x) \/
  Outcome.gemini_skipped mcpServers s ->
  Setup.add_gemini mcpServers setup (Ok config) s = Ok config.
Proof.
  unfold Setup.add_gemini. cbn [bind].
  intros [(x & (f & Hf & Hx) & Hs)|[Hf|(v & Hf & Hv)]]; rewrite Hf;
    cbn [bind]; [|reflexivity|rewrite Hv; reflexivity].
  destruct f as [v| |]; [|discriminate|reflexivity].
  destruct (truthy v); [|reflexivity].
  rewrite Hx. cbn [bind]. apply assign_server_same, Hs.
Qed.

Lemma loop_again (step : result (props json) -> string -> result (props json))
    (names : list string) :
  (forall s, In s names -> step (Ok config) s = Ok config) ->
  fold_left step names (Ok config) = Ok config.
Proof.
  induction names as [|s names IH]; intros H; [reflexivity|].
  cbn [fold_left]. rewrite (H s) by (left; reflexivity).
  apply IH. intros s' Hs'. apply H. right. exact Hs'.
Qed.

End Again.

(** X21.  Merging is idempotent: when [setupClaudeDesktop] or
    [setupGeminiCLI] has succeeded on an existing file that holds an object
    (the run not being a dry one), the same setup run again on the file it
    has written succeeds and leaves that file as it is, byte for byte. *)
Theorem merge_twice (os : Setup.platform) (mcpServers : Config.catalog)
    (setup : Setup.MCPSetup) (text : string) (existing : props json)
    (client : string) (after : Setup.file) :
  Setup.readJson text = Ok (JObj existing) ->
  Setup.dryRun setup = false ->
  (client = "claudeDesktop" /\
   Setup.setupClaudeDesktop os mcpServers setup (Setup.Present text)
     = Ok (true, after)) \/
  (client = "gemini" /\
   Setup.setupGeminiCLI mcpServers setup (Setup.Present text)
     = Ok (true, after)) ->
  (client = "claudeDesktop" /\
   Setup.setupClaudeDesktop os mcpServers setup after = Ok (true, after)) \/
  (client = "gemini" /\
   Setup.setupGeminiCLI mcpServers setup after = Ok (true, after)).
Proof.
  intros Hread Hdry H.
  destruct (merged_config os mcpServers setup text existing client after
              Hread Hdry H)
    as (config & -> & Hsound & (mv & Hm & Hmv) & _ & _ & _ & _ & _ & Hwritten).
  pose proof (read_written_sound _ Hsound) as Hback.
  assert (Hordered : Obj.literal config = config).
  { unfold sound in Hsound. apply andb_prop in Hsound.
    destruct Hsound as [_ Hw]. cbn [well_formed] in Hw.
    apply andb_prop in Hw. destruct Hw as [Hw _].
    apply literal_ordered, Hw. }
  destruct H as [[-> H]|[-> H]]; [left|right]; (split; [reflexivity|]).
  - assert (Hos : os <> Setup.OtherPlatform).
    { intros ->. discriminate. }
    unfold Setup.setupClaudeDesktop.
    assert (E : Setup.claudeDesktop_config mcpServers setup
                  (Setup.Present (Setup.writeJson (JObj config)))
                = Ok (JObj config)).
    { unfold Setup.claudeDesktop_config. rewrite Hback.
      cbn [bind Setup.read_mcpServers Setup.own_properties].
      change (Obj.spread [] config) with (Obj.literal config).
      rewrite Hordered. unfold js_get. rewrite Hm.
      unfold Setup.or_empty. rewrite Hmv.
      rewrite (set_same _ _ config Hm).
      rewrite loop_again; [reflexivity|].
      intros s Hs. apply add_claudeDesktop_again.
      destruct (Hwritten s Hs) as [Hx|[E _]]; [exact Hx|discriminate]. }
    rewrite E. unfold Setup.finish. rewrite Hdry.
    destruct os; [reflexivity|reflexivity|contradiction].
  - unfold Setup.setupGeminiCLI.
    assert (E : Setup.gemini_config mcpServers setup
                  (Setup.Present (Setup.writeJson (JObj config)))
                = Ok (JObj config)).
    { unfold Setup.gemini_config. rewrite Hback.
      cbn [bind Setup.read_mcpServers]. unfold js_get. rewrite Hm, Hmv.
      cbn [bind].
      rewrite loop_again; [reflexivity|].
      intros s Hs. apply add_gemini_again.
      destruct (Hwritten s Hs) as [Hx|(_ & Hskip & _)]; auto. }
    rewrite E. unfold Setup.finish. rewrite Hdry. reflexivity.
Qed.

Lemma merge_twice_witness :
  ("claudeDesktop" = "claudeDesktop" /\
   Setup.setupClaudeDesktop Setup.Linux Config.mcpServers Samples.linear_setup
     (Setup.Present (Setup.writeJson (JObj Samples.linear_merged)))
   = Ok (true, Setup.Present (Setup.writeJson (JObj Samples.linear_merged))))
  \/
  ("claudeDesktop" = "gemini" /\
   Setup.setupGeminiCLI Config.mcpServers Samples.linear_setup
     (Setup.Present (Setup.writeJson (JObj Samples.linear_merged)))
   = Ok (true, Setup.Present (Setup.writeJson (JObj Samples.linear_merged)))).
Proof.
  apply (merge_twice Setup.Linux Config.mcpServers Samples.linear_setup
           (Json.stringify (JObj Samples.desktop_config))
           Samples.desktop_config "claudeDesktop").
  - vm_compute. reflexivity.
  - reflexivity.
  - left. split; [reflexivity|]. vm_compute. reflexivity.
Defined.

(** ** Writing a file and reading it *)

(** X22.  What [fs.writeJson] writes, [fs.readJson] reads back: for a value
    whose numbers are safe integers, reading the text written gives the
    value with the members of each object in enumeration order, a repeated
    key keeping its last value. *)
Theorem writeJson_readJson (v : json) :
  representable v = true ->
  Setup.readJson (Setup.writeJson v) = Ok (Json.normalize v).
Proof. apply read_written. Qed.

Lemma writeJson_readJson_witness :
  Setup.readJson
    (Setup.writeJson (JObj [("b", JNum 1); ("2", JArr []); ("b", JNull)]))
  = Ok (JObj [("2", JArr []); ("b", JNull)]).
Proof.
  exact (writeJson_readJson
           (JObj [("b", JNum 1); ("2", JArr []); ("b", JNull)]) eq_refl).
Defined.


